(** * Reference translation and consolidation (fsspec_reference_maker/hdf.py)

    A shallow embedding of [SingleHdf5ToZarr] and [MultiZarrToZarr] and the
    properties of the translation, inlining, dimension classification and
    consolidation passes.

    Conventions.
    - Python [int] is [Z]; Python [str] and [bytes] are both [string]
      (sequences of 8-bit characters), told apart by the constructor of the
      value that carries them.
    - A Python [dict] is an association list in insertion order whose keys
      are pairwise distinct; assignment to an existing key keeps its place.
    - A raised exception is the [Raise] result of the error monad. *)

From Stdlib Require Import ZArith List String Ascii Bool Lia.
From Stdlib Require Import Decimal DecimalString DecimalZ.
Import ListNotations.

#[local] Open Scope string_scope.
#[local] Open Scope Z_scope.
#[local] Open Scope list_scope.

Infix "+++" := String.append (right associativity, at level 60).

(** ** Exceptions and the error monad *)

Inductive exn : Type :=
| RuntimeError (msg : string)
| TypeError
| KeyError (key : string)
| IndexError
| ZeroDivisionError
| AssertionError
| UnicodeDecodeError.

Inductive result (A : Type) : Type :=
| Ok (a : A)
| Raise (e : exn).

Arguments Ok {A} a.
Arguments Raise {A} e.

Definition bind {A B : Type} (m : result A) (k : A -> result B) : result B :=
  match m with
  | Ok a => k a
  | Raise e => Raise e
  end.

Notation "x <- m ;; k" := (bind m (fun x => k))
  (at level 61, m at next level, right associativity).

Definition raises {A : Type} (m : result A) : bool :=
  match m with
  | Ok _ => false
  | Raise _ => true
  end.

(** A [for] loop whose body may raise: the first exception ends the loop. *)
Fixpoint for_each {A S : Type} (body : S -> A -> result S) (l : list A) (s : S)
  : result S :=
  match l with
  | [] => Ok s
  | a :: l' => s' <- body s a ;; for_each body l' s'
  end.

(** ** Dictionaries *)

Definition dict (K V : Type) : Type := list (K * V).

Section Dict.
Context {K V : Type} (eqb : K -> K -> bool).

Fixpoint dict_get (k : K) (d : dict K V) : option V :=
  match d with
  | [] => None
  | (k', v) :: d' => if eqb k k' then Some v else dict_get k d'
  end.

(** [d[k] = v] *)
Fixpoint dict_set (k : K) (v : V) (d : dict K V) : dict K V :=
  match d with
  | [] => [(k, v)]
  | (k', v') :: d' =>
      if eqb k k' then (k', v) :: d' else (k', v') :: dict_set k v d'
  end.

Definition dict_mem (k : K) (d : dict K V) : bool :=
  match dict_get k d with
  | Some _ => true
  | None => false
  end.

(** [d.update(items)] *)
Definition dict_update (items : list (K * V)) (d : dict K V) : dict K V :=
  fold_left (fun acc kv => dict_set (fst kv) (snd kv) acc) items d.
End Dict.

Definition keys {K V : Type} (d : dict K V) : list K := map fst d.

Definition sget {V : Type} := @dict_get string V String.eqb.
Definition sset {V : Type} := @dict_set string V String.eqb.
Definition smem {V : Type} := @dict_mem string V String.eqb.
Definition supdate {V : Type} := @dict_update string V String.eqb.

Definition mem_string (s : string) (l : list string) : bool :=
  existsb (String.eqb s) l.

(** ** Strings *)

(** [str(n)] for an integer *)
Definition str_of_Z (z : Z) : string := NilZero.string_of_int (Z.to_int z).

(** [s[1:]] *)
Definition drop1 (s : string) : string :=
  match s with
  | EmptyString => EmptyString
  | String _ r => r
  end.

(** [s.startswith(p)] *)
Definition startswith (s p : string) : bool := String.prefix p s.

(** [data.decode('ascii')] succeeds exactly on bytes below 128 *)
Definition ascii_char (c : ascii) : bool :=
  match c with
  | Ascii _ _ _ _ _ _ _ b7 => negb b7
  end.

Fixpoint is_ascii (s : string) : bool :=
  match s with
  | EmptyString => true
  | String c r => ascii_char c && is_ascii r
  end.

(** ** base64.b64encode *)

Module Base64.

Definition sextet : Type := (bool * bool * bool * bool * bool * bool)%type.

(** Value of a sextet, most significant bit first. *)
Definition sextet_index (s : sextet) : nat :=
  let '(a, b, c, d, e, f) := s in
  (Nat.b2n a * 32 + Nat.b2n b * 16 + Nat.b2n c * 8
   + Nat.b2n d * 4 + Nat.b2n e * 2 + Nat.b2n f)%nat.

Definition alphabet : string :=
  "ABCDEFGHIJKLMNOPQRSTUVWXYZabcdefghijklmnopqrstuvwxyz0123456789+/".

Definition char_of (s : sextet) : ascii :=
  match String.get (sextet_index s) alphabet with
  | Some c => c
  | None => "="%char
  end.

Definition pad : ascii := "="%char.

(** The four sextets of three bytes. [Ascii] lists bits least significant
    first. *)
Definition enc3 (x y z : ascii) : string :=
  let '(Ascii x0 x1 x2 x3 x4 x5 x6 x7) := x in
  let '(Ascii y0 y1 y2 y3 y4 y5 y6 y7) := y in
  let '(Ascii z0 z1 z2 z3 z4 z5 z6 z7) := z in
  String (char_of (x7, x6, x5, x4, x3, x2))
    (String (char_of (x1, x0, y7, y6, y5, y4))
       (String (char_of (y3, y2, y1, y0, z7, z6))
          (String (char_of (z5, z4, z3, z2, z1, z0)) EmptyString))).

Definition enc2 (x y : ascii) : string :=
  let '(Ascii x0 x1 x2 x3 x4 x5 x6 x7) := x in
  let '(Ascii y0 y1 y2 y3 y4 y5 y6 y7) := y in
  String (char_of (x7, x6, x5, x4, x3, x2))
    (String (char_of (x1, x0, y7, y6, y5, y4))
       (String (char_of (y3, y2, y1, y0, false, false))
          (String pad EmptyString))).

Definition enc1 (x : ascii) : string :=
  let '(Ascii x0 x1 x2 x3 x4 x5 x6 x7) := x in
  String (char_of (x7, x6, x5, x4, x3, x2))
    (String (char_of (x1, x0, false, false, false, false))
       (String pad (String pad EmptyString))).

Fixpoint b64encode (data : string) : string :=
  match data with
  | EmptyString => EmptyString
  | String x EmptyString => enc1 x
  | String x (String y EmptyString) => enc2 x y
  | String x (String y (String z r)) => enc3 x y z +++ b64encode r
  end.

(** Decoding, the inverse table. *)
Definition all_sextets : list sextet :=
  let bs := [false; true] in
  flat_map (fun a => flat_map (fun b => flat_map (fun c =>
  flat_map (fun d => flat_map (fun e => map (fun f => (a, b, c, d, e, f)) bs)
  bs) bs) bs) bs) bs.

Definition index_of (c : ascii) : option sextet :=
  find (fun s => Ascii.eqb (char_of s) c) all_sextets.

Definition dec3 (a b c d : sextet) : string :=
  let '(a5, a4, a3, a2, a1, a0) := a in
  let '(b5, b4, b3, b2, b1, b0) := b in
  let '(c5, c4, c3, c2, c1, c0) := c in
  let '(d5, d4, d3, d2, d1, d0) := d in
  String (Ascii b4 b5 a0 a1 a2 a3 a4 a5)
    (String (Ascii c2 c3 c4 c5 b0 b1 b2 b3)
       (String (Ascii d0 d1 d2 d3 d4 d5 c0 c1) EmptyString)).

Definition dec2 (a b c : sextet) : string :=
  let '(a5, a4, a3, a2, a1, a0) := a in
  let '(b5, b4, b3, b2, b1, b0) := b in
  let '(c5, c4, c3, c2, c1, c0) := c in
  String (Ascii b4 b5 a0 a1 a2 a3 a4 a5)
    (String (Ascii c2 c3 c4 c5 b0 b1 b2 b3) EmptyString).

Definition dec1 (a b : sextet) : string :=
  let '(a5, a4, a3, a2, a1, a0) := a in
  let '(b5, b4, b3, b2, b1, b0) := b in
  String (Ascii b4 b5 a0 a1 a2 a3 a4 a5) EmptyString.

(** Modelled from the spec: the base64 decoding a consumer of the store
    applies to a tagged inline value (the decoder is not part of hdf.py).
    Standard alphabet, groups of four characters, [=] padding in the last
    group only. *)
Fixpoint b64decode (s : string) : option string :=
  match s with
  | EmptyString => Some EmptyString
  | String a (String b (String c (String d r))) =>
      match index_of a, index_of b with
      | Some sa, Some sb =>
          if Ascii.eqb d pad then
            match r with
            | EmptyString =>
                if Ascii.eqb c pad then Some (dec1 sa sb)
                else match index_of c with
                     | Some sc => Some (dec2 sa sb sc)
                     | None => None
                     end
            | _ => None
            end
          else
            match index_of c, index_of d, b64decode r with
            | Some sc, Some sd, Some rest => Some (dec3 sa sb sc sd +++ rest)
            | _, _, _ => None
            end
      | _, _ => None
      end
  | _ => None
  end.

End Base64.

(** The literal prefix of a base64 inline value, [b"base64:"]. *)
Definition base64_tag : string := "base64:".

(** The inline encoding shared by [_do_inline] and [_consolidate]:
    [try: data.decode('ascii') except UnicodeDecodeError:
       data = b"base64:" + base64.b64encode(data)]. *)
Definition inline_encode (data : string) : string :=
  if is_ascii data then data else base64_tag +++ Base64.b64encode data.

(** Modelled from the spec: decoding of a stored inline value, "directly as
    ASCII text, or by stripping the fixed literal prefix tag and
    base64-decoding when the tag is present". The consumer is not part of
    hdf.py. *)
Definition inline_decode (stored : string) : option string :=
  if startswith stored base64_tag
  then Base64.b64decode (String.substring 7 (String.length stored - 7) stored)
  else Some stored.

(** ** Reference stores *)

(** Values an HDF5 attribute takes once it is a plain Python value. *)
Inductive pyvalue : Type :=
| PStr (s : string)
| PInt (z : Z)
| PIntList (l : list Z)
| PStrList (l : list string)
| PNone
| POpaque (tag : nat).          (* a value JSON cannot encode *)

Definition pyvalue_is_str (v : pyvalue) (s : string) : bool :=
  match v with
  | PStr s' => String.eqb s' s
  | _ => false
  end.

Definition json_ok (v : pyvalue) : bool :=
  match v with
  | POpaque _ => false
  | _ => true
  end.

(** [numcodecs.Zlib(level=...)], or no compressor. *)
Inductive compressor : Type :=
| Zlib (level : pyvalue).

(** The metadata documents zarr keeps in the store; [Doc d] stands for the
    JSON text of [d], whose encoding is zarr's. *)
Inductive zdoc : Type :=
| ZGroup
| ZArray (shape : option (list Z)) (dtype : string) (chunks : option (list Z))
         (fill_value : pyvalue) (compression : option compressor)
| ZAttrs (attrs : dict string pyvalue).

(** A value of the reference store: the list [[url, offset, size]], inline
    bytes, inline text, or a metadata document. *)
Inductive entry : Type :=
| Ref (url : string) (offset size : Z)
| Bytes (data : string)
| Str (text : string)
| Doc (d : zdoc).

Definition store : Type := dict string entry.

(** ** The HDF5 file as h5py presents it *)

Inductive layout_class : Type := COMPACT | CONTIGUOUS | CHUNKED | VIRTUAL.

Definition layout_eqb (a b : layout_class) : bool :=
  match a, b with
  | COMPACT, COMPACT | CONTIGUOUS, CONTIGUOUS
  | CHUNKED, CHUNKED | VIRTUAL, VIRTUAL => true
  | _, _ => false
  end.

(** [dsid.get_chunk_info(index)] *)
Record StoreInfo : Type := {
  chunk_offset : list Z;
  byte_offset : Z;
  blob_size : Z
}.

(** A numpy array or scalar attribute, by what [_transfer_attrs] observes of
    it (after [astype(str)] when its kind is 'S'). *)
Record ndarray : Type := {
  nd_flat : list pyvalue;       (* v.flatten(), elements as Python values *)
  nd_tolist : pyvalue;          (* v.tolist() *)
  nd_fill : pyvalue             (* encode_fill_value(v, v.dtype) *)
}.

Inductive h5value : Type :=
| HBytes (utf8 : option string)   (* bytes; [None] when not valid UTF-8 *)
| HNumpy (a : ndarray)
| HPlain (v : pyvalue).

Record Dataset : Type := {
  name : string;                    (* h5obj.name, an absolute path *)
  attrs : list (string * h5value);
  shape : option (list Z);          (* None for a null dataspace *)
  dtype : string;
  chunks : option (list Z);
  fillvalue : pyvalue;
  layout : layout_class;            (* id.get_create_plist().get_layout() *)
  scaleoffset : option Z;
  fletcher32 : bool;
  shuffle : bool;
  compression : option string;
  compression_opts : pyvalue;
  is_scale : bool;                  (* h5py.h5ds.is_scale(id) *)
  dims : nat -> list string;        (* names of the scales of axis n *)
  get_offset : option Z;            (* id.get_offset() *)
  get_storage_size : Z;             (* id.get_storage_size() *)
  chunk_info : list StoreInfo       (* get_chunk_info(0 .. get_num_chunks()-1) *)
}.

Record Group : Type := {
  gname : string;
  gattrs : list (string * h5value)
}.

Inductive h5obj : Type :=
| IsDataset (d : Dataset)
| IsGroup (g : Group)
| IsDatatype.                       (* a named datatype: neither branch *)

(** The file: the root group's attributes and the objects [visititems]
    calls the visitor on, in its order. The visitor returns [None] on every
    path, so the visit never stops early. *)
Record H5File : Type := {
  root_attrs : list (string * h5value);
  items : list (string * h5obj)
}.

(** ** zarr, as far as the translator drives it

    The store of the zarr hierarchy is [self.store] itself: zarr writes its
    metadata documents into the dictionary the chunk references go to.
    [visititems] meets a group before the objects it holds, so the parent
    groups zarr would create for a new node are there already; that step is
    left out. The calls are taken to return: what zarr itself refuses (an
    array without a shape, an object dtype without a codec, a node that is
    there already) is not modelled. *)

(** [normalize_storage_path] on an absolute name with no backslash, no empty
    component and no component [.] or [..]: the leading slash is dropped.
    What zarr makes of other names (backslashes turned into slashes,
    repeated and closing slashes removed, a component [.] or [..] refused)
    is not modelled. *)
Definition zarr_path (h5name : string) : string :=
  match h5name with
  | String "/" r => r
  | _ => h5name
  end.

(** Key of the document [doc] of the node at [path]. *)
Definition meta_key (path doc : string) : string :=
  match path with
  | EmptyString => doc
  | _ => path +++ "/" +++ doc
  end.

(** ['.'.join(map(str, coords))] *)
Definition coords_text (coords : list Z) : string :=
  String.concat "." (map str_of_Z coords).

(** [za._chunk_key(coords)] *)
Definition chunk_key (path : string) (coords : list Z) : string :=
  meta_key path (coords_text coords).

(** [rmdir(store, path)] on a dict store, as [overwrite=True] runs it. *)
Definition rmdir (path : string) (s : store) : store :=
  filter (fun kv => negb (startswith (fst kv) (meta_key path ""))) s.

(** [zarr.group(store=self.store, overwrite=True)] *)
Definition zarr_group (s : store) : store :=
  sset ".zgroup" (Doc ZGroup) (rmdir "" s).

(** [self._zroot.create_group(name)] *)
Definition create_group (h5name : string) (s : store) : store :=
  sset (meta_key (zarr_path h5name) ".zgroup") (Doc ZGroup) s.

(** [self._zroot.create_dataset(name, ..., overwrite=True)] *)
Definition create_dataset (h5name : string) (doc : zdoc) (s : store) : store :=
  let path := zarr_path h5name in
  sset (meta_key path ".zarray") (Doc doc) (rmdir path s).

(** [zobj.attrs[n] = v]: the attributes document is read, updated and
    written back. *)
Definition attrs_of (path : string) (s : store) : dict string pyvalue :=
  match sget (meta_key path ".zattrs") s with
  | Some (Doc (ZAttrs a)) => a
  | _ => []
  end.

Definition attrs_set (path n : string) (v : pyvalue) (s : store) : store :=
  sset (meta_key path ".zattrs") (Doc (ZAttrs (sset n v (attrs_of path s)))) s.

(** ** SingleHdf5ToZarr *)

Record Translator : Type := {
  uri : string;              (* self._uri *)
  xr : bool;                 (* self._xr *)
  spec : Z;                  (* self.spec *)
  inline : Z;                (* self.inline *)
  read_at : Z -> Z -> string (* input_file.seek(offset); input_file.read(n) *)
}.

(** Lines 126-139 of [_transfer_attrs]: the value assigned for attribute
    [n]. *)
Definition fix_value (n : string) (v : h5value) : result pyvalue :=
  match v with
  | HBytes (Some s) => Ok (PStr s)
  | HBytes None => Raise UnicodeDecodeError
  | HNumpy a =>
      if String.eqb n "_FillValue" then Ok (nd_fill a)
      else match nd_flat a with
           | [x] => Ok x
           | _ => Ok (nd_tolist a)
           end
  | HPlain v => Ok v
  end.

(** One turn of the loop of [_transfer_attrs]. *)
Definition transfer_attr (t : Translator) (path : string) (s : store)
    (nv : string * h5value) : result store :=
  let '(n, v) := nv in
  if mem_string n ["REFERENCE_LIST"; "DIMENSION_LIST"] then Ok s
  else
    v <- fix_value n v ;;
    if xr t && pyvalue_is_str v "DIMENSION_SCALE" then Ok s
    else if json_ok v then Ok (attrs_set path n v s)
    else Ok s (* TypeError caught and logged *).

Definition _transfer_attrs (t : Translator) (h5attrs : list (string * h5value))
    (path : string) (s : store) : result store :=
  for_each (transfer_attr t path) h5attrs s.

(** Python truth of [h5obj.scaleoffset]. *)
Definition truthy (o : option Z) : bool :=
  match o with
  | Some z => negb (z =? 0)
  | None => false
  end.

Definition option_string_eqb (o : option string) (s : string) : bool :=
  match o with
  | Some s' => String.eqb s' s
  | None => false
  end.

Definition unsupported_filters (d : Dataset) : bool :=
  truthy (scaleoffset d) || fletcher32 d || shuffle d
  || option_string_eqb (compression d) "szip"
  || option_string_eqb (compression d) "lzf".

(** [[a // b for a, b in zip(offsets, chunk_size)]] *)
Fixpoint chunk_coords (offsets sizes : list Z) : result (list Z) :=
  match offsets, sizes with
  | a :: offsets', b :: sizes' =>
      if b =? 0 then Raise ZeroDivisionError
      else rest <- chunk_coords offsets' sizes' ;; Ok (a / b :: rest)
  | _, _ => Ok []
  end.

Definition coords_eqb (a b : list Z) : bool :=
  if list_eq_dec Z.eq_dec a b then true else false.

(** The chunk map: chunk coordinates to (offset, size). *)
Definition chunk_map : Type := dict (list Z) (Z * Z).

Definition _storage_info (d : Dataset) : result chunk_map :=
  match shape d with
  | None => Ok []
  | Some shp =>
      match chunks d with
      | None =>
          match get_offset d with
          | None => Ok []
          | Some off =>
              let rank := match List.length shp with O => 1%nat | r => r end in
              Ok [(repeat 0 rank, (off, get_storage_size d))]
          end
      | Some chunk_size =>
          match chunk_info d with
          | [] => Ok []
          | blobs =>
              for_each
                (fun stinfo blob =>
                   key <- chunk_coords (chunk_offset blob) chunk_size ;;
                   Ok (dict_set coords_eqb key
                         (byte_offset blob, blob_size blob) stinfo))
                blobs []
          end
      end
  end.

(** One turn of the loop over the axes in [_get_array_dims]. *)
Definition dims_step (d : Dataset) (acc : list string) (n : nat)
  : result (list string) :=
  let num_scales := List.length (dims d n) in
  if (num_scales =? 1)%nat
  then Ok (acc ++ [drop1 (hd "" (dims d n))])
  else if is_scale d then Ok (acc ++ [drop1 (name d)])
  else if (1 <? num_scales)%nat
  then Raise (RuntimeError "dimension scales attached to dimension")
  else Ok acc.

Definition _get_array_dims (d : Dataset) : result (list string) :=
  match shape d with
  | None => Raise TypeError          (* len(None) *)
  | Some shp => for_each (dims_step d) (seq 0 (List.length shp)) []
  end.

Definition is_nil {A : Type} (l : list A) : bool :=
  match l with
  | [] => true
  | _ => false
  end.

(** Lines 190-193: [self.store[za._chunk_key(k)] = [self._uri, v['offset'],
    v['size']]] for every item of the chunk map. *)
Definition write_chunks (url path : string) (cinfo : chunk_map) (s : store)
  : store :=
  fold_left
    (fun s kv =>
       sset (chunk_key path (fst kv)) (Ref url (fst (snd kv)) (snd (snd kv))) s)
    cinfo s.

(** Lines 184-188: the dimension names, in xarray mode. *)
Definition attach_dims (t : Translator) (d : Dataset) (path : string)
    (s : store) : result store :=
  if xr t
  then adims <- _get_array_dims d ;;
       Ok (attrs_set path "_ARRAY_DIMENSIONS" (PStrList adims) s)
  else Ok s.

(** [Zlib(level=h5obj.compression_opts)] for gzip, else [None]. *)
Definition compressor_of (d : Dataset) : option compressor :=
  if option_string_eqb (compression d) "gzip"
  then Some (Zlib (compression_opts d)) else None.

Definition _translator (t : Translator) (s : store) (obj : h5obj)
  : result store :=
  match obj with
  | IsDataset d =>
      if layout_eqb (layout d) COMPACT
      then (* the RuntimeError is built but not raised *) Ok s
      else if unsupported_filters d
      then Raise (RuntimeError "uses unsupported HDF5 filters")
      else
        let compression := compressor_of d in
        cinfo <- _storage_info d ;;
        if xr t && is_scale d && is_nil cinfo then Ok s
        else
          let path := zarr_path (name d) in
          let s := create_dataset (name d)
                     (ZArray (shape d) (dtype d) (chunks d) (fillvalue d)
                        compression) s in
          s <- _transfer_attrs t (attrs d) path s ;;
          s <- attach_dims t d path s ;;
          Ok (write_chunks (uri t) path cinfo s)
  | IsGroup g =>
      let s := create_group (gname g) s in
      _transfer_attrs t (gattrs g) (zarr_path (gname g)) s
  | IsDatatype => Ok s
  end.

(** [_do_inline]: the loop runs over a copy of the items and assigns into
    the store. *)
Definition _do_inline (t : Translator) (threshold : Z) (s : store) : store :=
  fold_left
    (fun s kv =>
       match snd kv with
       | Ref _ off size =>
           if size <? threshold
           then sset (fst kv) (Bytes (inline_encode (read_at t off size))) s
           else s
       | _ => s
       end)
    s s.

(** What [translate] returns. *)
Inductive references : Type :=
| Version0 (refs : store)
| Version1 (version : Z) (templates : dict string string) (refs : store).

Definition refs_of (r : references) : store :=
  match r with
  | Version0 s => s
  | Version1 _ _ s => s
  end.

(** The last loop of [translate]: [self.store[k][0] = "{{u}}"] for lists,
    [v.decode()] for the rest. The bytes in the store are those the Inliner
    wrote, which are ASCII. *)
Definition template_entry (v : entry) : entry :=
  match v with
  | Ref _ off size => Ref "{{u}}" off size
  | Bytes b => Str b
  | other => other
  end.

Definition translate (t : Translator) (f : H5File) : result references :=
  let s := zarr_group [] in
  s <- _transfer_attrs t (root_attrs f) "" s ;;
  s <- for_each (fun s item => _translator t s (snd item)) (items f) s ;;
  let s := if 0 <? inline t then _do_inline t (inline t) s else s in
  if spec t <? 1 then Ok (Version0 s)
  else
    let s := fold_left (fun s kv => sset (fst kv) (template_entry (snd kv)) s)
               s s in
    Ok (Version1 1 [("u", uri t)] s).

(** ** MultiZarrToZarr *)

(** *** posixpath.split *)

Definition is_slash (c : ascii) : bool := Ascii.eqb c "/".

(** [p[:i], p[i:]] for [i = p.rfind("/") + 1] *)
Fixpoint split_last (p : string) : string * string :=
  match p with
  | EmptyString => (EmptyString, EmptyString)
  | String c r =>
      let '(h, t) := split_last r in
      match h with
      | EmptyString =>
          if is_slash c then (String c EmptyString, t)
          else (EmptyString, String c t)
      | _ => (String c h, t)
      end
  end.

(** [s.rstrip("/")] *)
Fixpoint rstrip_slash (s : string) : string :=
  match s with
  | EmptyString => EmptyString
  | String c r =>
      match rstrip_slash r with
      | EmptyString => if is_slash c then EmptyString else String c EmptyString
      | r' => String c r'
      end
  end.

Fixpoint all_slashes (s : string) : bool :=
  match s with
  | EmptyString => true
  | String c r => is_slash c && all_slashes r
  end.

(** [os.path.split(p)] *)
Definition path_split (p : string) : string * string :=
  let '(head, tail) := split_last p in
  match head with
  | EmptyString => (head, tail)
  | _ => if all_slashes head then (head, tail) else (rstrip_slash head, tail)
  end.

(** *** The merged and the single-source dataset, as xarray reports them *)

Record VarInfo : Type := {
  var_dims : list string;
  var_shape : list Z
}.

Record XDataset : Type := {
  ds_dims : dict string Z;            (* ds.dims *)
  ds_variables : dict string VarInfo  (* ds.variables / ds[variable] *)
}.

(** [self.extra_dims], [self.concat_dims], [self.same_dims]; each set is
    listed without repetition. *)
Record Partition : Type := {
  extra_dims : list string;
  concat_dims : list string;
  same_dims : list string
}.

(** [v / d == n] on integers. Python's true division is the correctly
    rounded quotient, so for extents below 2^53 the comparison holds exactly
    when [v = d * n]; the model takes the exact quotient. *)
Definition true_div_eq (v d n : Z) : result bool :=
  if d =? 0 then Raise ZeroDivisionError else Ok (v =? d * n).

(** Lines 429-431 of [_determine_dims], on [ds.dims], [ds0.dims] and
    [len(mappers)]. *)
Definition _determine_dims (dims dims0 : dict string Z) (n : Z)
  : result Partition :=
  let extra := filter (fun k => negb (smem k dims0)) (keys dims) in
  concat <- for_each
              (fun acc kv =>
                 match sget (fst kv) dims0 with
                 | None => Raise (KeyError (fst kv))
                 | Some d0 =>
                     b <- true_div_eq (snd kv) d0 n ;;
                     Ok (if b then acc ++ [fst kv] else acc)
                 end)
              dims [] ;;
  let same := filter (fun k => negb (mem_string k extra)
                               && negb (mem_string k concat)) (keys dims) in
  Ok {| extra_dims := extra; concat_dims := concat; same_dims := same |}.

(** [l[-m:]] *)
Definition last_slice {A : Type} (m : nat) (l : list A) : list A :=
  match m with
  | O => l
  | _ => skipn (List.length l - m) l
  end.

Definition strings_eqb (a b : list string) : bool :=
  if list_eq_dec String.string_dec a b then true else false.

Definition shape_eqb (a b : list Z) : bool :=
  if list_eq_dec Z.eq_dec a b then true else false.

Definition metadata_names : list string := [".zgroup"; ".zarray"; ".zattrs"].

(** [f"{start}/{i}.{part}"] *)
Definition rewrite_key (start : string) (i : nat) (part : string) : string :=
  start +++ "/" +++ str_of_Z (Z.of_nat i) +++ "." +++ part.

(** [enumerate(l)] *)
Definition enumerate {A : Type} (l : list A) : list (nat * A) :=
  combine (seq 0 (List.length l)) l.

(** The body of the loop over [fs.references.items()] for one variable. *)
Definition place_reference (variable : string) (same_shape : bool) (i : nat)
    (out : store) (kv : string * entry) : store :=
  let '(start, part) := path_split (fst kv) in
  if negb (String.eqb start variable) || mem_string part metadata_names
  then out
  else if same_shape then sset (fst kv) (snd kv) out
  else sset (rewrite_key start i part) (snd kv) out.

Definition place_variable (variable : string) (same_shape : bool)
    (fss : list store) (out : store) : store :=
  fold_left
    (fun out ifs => fold_left (place_reference variable same_shape (fst ifs))
                      (snd ifs) out)
    (enumerate fss) out.

(** The loop over the shared dimensions, lines 391-393. *)
Definition copy_shared (shared : list string) (fss : list store) (out : store)
  : result store :=
  for_each
    (fun out dim =>
       match fss with
       | [] => Raise IndexError
       | fs0 :: _ =>
           Ok (supdate (filter (fun kv => startswith (fst kv) dim) fs0) out)
       end)
    shared out.

(** The loop over [ds.variables], lines 394-411. *)
Definition copy_variables (ds ds0 : XDataset) (fss : list store) (out : store)
  : result store :=
  for_each
    (fun out variable =>
       if smem variable (ds_dims ds) then Ok out
       else
         match sget variable (ds_variables ds),
               sget variable (ds_variables ds0) with
         | Some var, Some var0 =>
             if strings_eqb
                  (last_slice (List.length (var_dims var0)) (var_dims var))
                  (var_dims var0)
             then Ok (place_variable variable
                        (shape_eqb (var_shape var) (var_shape var0)) fss out)
             else Raise AssertionError
         | _, _ => Raise (KeyError variable)
         end)
    (keys (ds_variables ds)) out.

(** [_build_output]. [seed] is the store as xarray and zarr leave it before
    line 391: the merged metadata documents and the values of the extra and
    concatenated dimensions. [shared] lists [self.same_dims] in the order the
    loop meets them. *)
Definition _build_output (seed : store) (shared : list string)
    (ds ds0 : XDataset) (fss : list store) : result store :=
  out <- copy_shared shared fss seed ;;
  copy_variables ds ds0 fss out.

(** *** _consolidate *)

(** [counts[u] += 1] on a [Counter] *)
Definition counter_add (counts : dict string Z) (u : string) : dict string Z :=
  match sget u counts with
  | Some c => sset u (c + 1) counts
  | None => sset u 1 counts
  end.

(** [Counter(v[0] for v in mapping.values() if isinstance(v, list))] *)
Definition count_urls (mapping : store) : dict string Z :=
  fold_left
    (fun counts kv =>
       match snd kv with
       | Ref u _ _ => counter_add counts u
       | _ => counts
       end)
    mapping [].

(** [string.ascii_letters] *)
Definition ascii_letters : string :=
  "abcdefghijklmnopqrstuvwxyzABCDEFGHIJKLMNOPQRSTUVWXYZ".

(** One turn of the comprehension that builds [templates]. *)
Definition template_step (template_count : Z) (templates : dict string string)
    (iuv : nat * (string * Z)) : result (dict string string) :=
  let '(i, (u, v)) := iuv in
  if template_count <? v
  then match String.get i ascii_letters with
       | Some c => Ok (sset (String c EmptyString) u templates)
       | None => Raise IndexError
       end
  else Ok templates.

Definition make_templates (counts : dict string Z) (template_count : Z)
  : result (dict string string) :=
  for_each (template_step template_count) (enumerate counts) [].

(** [{v: k for k, v in templates.items()}] *)
Definition invert (templates : dict string string) : dict string string :=
  fold_left (fun inv kv => sset (snd kv) (fst kv) inv) templates [].

(** The value [_consolidate] stores for [v]. [cat_file url start end] is
    [self.fs.cat_file]. A metadata document is zarr's bytes and is stored as
    its text. *)
Definition consolidate_entry (cat_file : string -> Z -> Z -> string)
    (inline_threashold : Z) (inv : dict string string) (v : entry)
  : result entry :=
  let v := match v with
           | Ref u off size =>
               if size <? inline_threashold
               then Bytes (cat_file u off (off + size)) else v
           | _ => v
           end in
  match v with
  | Bytes b => Ok (Str (inline_encode b))
  | Doc d => Ok (Doc d)
  | Ref u off size =>
      match sget u inv with
      | Some sym => Ok (Ref ("{{" +++ sym +++ "}}") off size)
      | None => Ok v
      end
  | Str EmptyString => Raise IndexError            (* v[0] *)
  | Str (String c _) =>
      if smem (String c EmptyString) inv
      then Raise TypeError                         (* list + str *)
      else Ok v
  end.

(** One turn of the loop of [_consolidate]. *)
Definition consolidate_step (cat_file : string -> Z -> Z -> string)
    (inline_threashold : Z) (inv : dict string string) (out : store)
    (kv : string * entry) : result store :=
  v <- consolidate_entry cat_file inline_threashold inv (snd kv) ;;
  Ok (sset (fst kv) v out).

Definition _consolidate (cat_file : string -> Z -> Z -> string)
    (mapping : store) (inline_threashold template_count : Z)
  : result references :=
  let counts := count_urls mapping in
  templates <- make_templates counts template_count ;;
  let inv := invert templates in
  out <- for_each (consolidate_step cat_file inline_threashold inv)
           mapping [] ;;
  Ok (Version1 1 templates out).

(** ** Vocabulary of the properties *)

(** [s] without the prefix [p], when it starts with it. *)
Fixpoint strip_prefix (p s : string) : option string :=
  match p, s with
  | EmptyString, _ => Some s
  | String a p', String b s' =>
      if Ascii.eqb a b then strip_prefix p' s' else None
  | String _ _, EmptyString => None
  end.

Fixpoint all_chars (p : ascii -> bool) (s : string) : bool :=
  match s with
  | EmptyString => true
  | String c r => p c && all_chars p r
  end.

(** The characters of [str(n)] and of a chunk coordinate text
    [c0.c1...cN]. *)
Definition digit_char (c : ascii) : bool :=
  existsb (Ascii.eqb c) (list_ascii_of_string "0123456789-").

Definition coord_char (c : ascii) : bool :=
  digit_char c || Ascii.eqb c ".".

Definition coord_text (s : string) : bool := all_chars coord_char s.

(** Strings without the character [c]. *)
Definition free_of (c : ascii) (s : string) : bool :=
  all_chars (fun a => negb (Ascii.eqb a c)) s.

(** A key prefix: empty, or ending in the separator. *)
Definition dir_like (a : string) : Prop := a = "" \/ exists b, a = b +++ "/".

(** The chunk entries of the array at [path]: the keys made of the array's
    prefix and a coordinate text. *)
Definition is_chunk_key (path k : string) : bool :=
  match strip_prefix (meta_key path "") k with
  | Some rest => coord_text rest
  | None => false
  end.

Definition chunk_entries (path : string) (s : store) : store :=
  filter (fun kv => is_chunk_key path (fst kv)) s.

(** Creating a dataset clears the store under its own prefix; [overwrites
    path obj] tells whether the array at [path] lies under the prefix of the
    dataset [obj]. *)
Definition overwrites (path : string) (obj : h5obj) : bool :=
  match obj with
  | IsDataset d' =>
      startswith (meta_key path "") (meta_key (zarr_path (name d')) "")
  | _ => false
  end.

Fixpoint ends_with_slash (s : string) : bool :=
  match s with
  | EmptyString => false
  | String c EmptyString => is_slash c
  | String _ r => ends_with_slash r
  end.

(** The reference written for one item of the chunk map. *)
Definition remote_of (url path : string) (item : list Z * (Z * Z))
  : string * entry :=
  (chunk_key path (fst item), Ref url (fst (snd item)) (snd (snd item))).

(** A remote reference with offset >= 0 and length > 0. *)
Definition valid_remote (v : entry) : bool :=
  match v with
  | Ref _ off size => (0 <=? off) && (0 <? size)
  | _ => false
  end.

(** Claim C3 as the specification words it, for an array whose chunk map has
    [n] items and the store [s] after translation. *)
Definition spec_chunk_entries (path : string) (n : nat) (s : store) : Prop :=
  List.length (chunk_entries path s) = n
  /\ forallb valid_remote (map snd (chunk_entries path s)) = true
  /\ NoDup (keys (chunk_entries path s)).


(** The names [_get_array_dims] collects for axis [n]. *)
Definition axis_names (d : Dataset) (n : nat) : list string :=
  if (List.length (dims d n) =? 1)%nat then [drop1 (hd "" (dims d n))]
  else if is_scale d then [drop1 (name d)]
  else [].

(** A store with [g] applied to every value, keys and order kept. *)
Definition map_values (g : entry -> entry) (s : store) : store :=
  map (fun kv => (fst kv, g (snd kv))) s.

(** The inline value [_do_inline] and [_consolidate] leave for a remote
    reference they replace. *)
Definition inline_value (t : Translator) (threshold : Z) (v : entry) : entry :=
  match v with
  | Ref _ off size =>
      if size <? threshold then Bytes (inline_encode (read_at t off size))
      else v
  | _ => v
  end.

(** What the last two steps of [translate] make of a value of the store:
    the Inliner when the threshold is positive, then the version-1
    rewriting. *)
Definition final_entry (t : Translator) (v : entry) : entry :=
  let v := if 0 <? inline t then inline_value t (inline t) v else v in
  if spec t <? 1 then v else template_entry v.

(** The source identifier [translate] leaves in a remote reference. *)
Definition final_url (t : Translator) : string :=
  if spec t <? 1 then uri t else "{{u}}".

(** The store of a finished translation. *)
Definition store_of (r : result references) : store :=
  match r with
  | Ok x => refs_of x
  | Raise _ => []
  end.

(** Claim C8 as the specification words it: every reference below the
    threshold is replaced by a value that decodes to the bytes read. *)
Definition spec_inline_roundtrip (t : Translator) (threshold : Z) (s : store)
  : Prop :=
  forall k u off size,
    In (k, Ref u off size) s -> size < threshold ->
    exists b, sget k (_do_inline t threshold s) = Some (Bytes b)
              /\ inline_decode b = Some (read_at t off size).

(** The source identifiers of the remote references of a mapping, in order. *)
Definition ref_urls (m : store) : list string :=
  flat_map (fun kv => match snd kv with Ref u _ _ => [u] | _ => [] end) m.

(** Number of remote references naming [u]. *)
Definition occurrences (u : string) (m : store) : Z :=
  Z.of_nat (count_occ string_dec (ref_urls m) u).

(** The distinct identifiers in the order they are first seen. *)
Definition first_seen (urls : list string) : list string :=
  fold_left (fun acc u => if mem_string u acc then acc else acc ++ [u]) urls [].

(** ["{{" + symbol + "}}"] *)
Definition placeholder (symbol : string) : string := "{{" +++ symbol +++ "}}".

(** The letter of position [i]. *)
Definition symbol_at (i : nat) : option string :=
  match String.get i ascii_letters with
  | Some c => Some (String c EmptyString)
  | None => None
  end.

(** Claim C6 as the specification words it, on the result of
    [_consolidate]. *)
Definition spec_templated (mapping : store) (template_count : Z)
    (r : references) : Prop :=
  match r with
  | Version1 _ templates out =>
      forall u, template_count < occurrences u mapping ->
        exists symbol,
          count_occ string_dec (map snd templates) u = 1%nat
          /\ In (symbol, u) templates
          /\ forall k off size, In (k, Ref u off size) mapping ->
               sget k out = Some (Ref (placeholder symbol) off size)
  | Version0 _ => False
  end.

(** The entries of the array (or coordinate) named [start]. *)
Definition belongs_to (start k : string) : bool :=
  String.eqb (fst (path_split k)) start.

Definition is_document (k : string) : bool :=
  mem_string (snd (path_split k)) metadata_names.

(** ** Sample inputs *)

Definition no_scales : nat -> list string := fun _ => [].

(** A one-dimensional dataset of shape (10,) named [/d]. *)
Definition sample_dataset (l : layout_class) (chunking : option (list Z))
    (so : option Z) (f32 sh : bool) (comp : option string)
    (off : option Z) (size : Z) (blobs : list StoreInfo) : Dataset :=
  {| name := "/d"; attrs := []; shape := Some [10]; dtype := "<f8";
     chunks := chunking; fillvalue := PInt 0; layout := l;
     scaleoffset := so; fletcher32 := f32; shuffle := sh;
     compression := comp; compression_opts := PInt 4;
     is_scale := false; dims := no_scales;
     get_offset := off; get_storage_size := size; chunk_info := blobs |}.

Definition sample_translator (inline_threshold : Z)
    (file : Z -> Z -> string) : Translator :=
  {| uri := "s3://bucket/a.h5"; xr := false; spec := 1;
     inline := inline_threshold; read_at := file |}.

Definition no_file : Z -> Z -> string := fun _ _ => EmptyString.

Definition file_of (d : Dataset) : H5File :=
  {| root_attrs := []; items := [("d", IsDataset d)] |}.

(** A compact dataset. *)
Definition compact_dataset : Dataset :=
  sample_dataset COMPACT None None false false None None 80 [].


(** The same dataset without the shuffle filter. *)
Definition gzip_plain : Dataset :=
  sample_dataset CHUNKED (Some [5]) None false false (Some "gzip") None 0
    [ {| chunk_offset := [0]; byte_offset := 4096; blob_size := 31 |};
      {| chunk_offset := [5]; byte_offset := 4127; blob_size := 29 |} ].

(** A contiguous dataset whose storage is allocated with no bytes in it. *)
Definition empty_extent : Dataset :=
  sample_dataset CONTIGUOUS None None false false None (Some 2048) 0 [].

(** A rank-2 array with one scale on its first axis and none on the
    second. *)
Definition half_labelled : Dataset :=
  {| name := "/temp"; attrs := []; shape := Some [4; 6]; dtype := "<f4";
     chunks := None; fillvalue := PInt 0; layout := CONTIGUOUS;
     scaleoffset := None; fletcher32 := false; shuffle := false;
     compression := None; compression_opts := PNone;
     is_scale := false;
     dims := fun n => match n with O => ["/time"] | _ => [] end;
     get_offset := Some 512; get_storage_size := 96; chunk_info := [] |}.

Fixpoint fill (c : ascii) (n : nat) : string :=
  match n with
  | O => EmptyString
  | S n' => String c (fill c n')
  end.

(** A source file holding the byte [c] everywhere. *)
Definition filled_file (c : ascii) : Z -> Z -> string :=
  fun _ n => fill c (Z.to_nat n).

(** A store with one short chunk whose eleven bytes are the ASCII text
    [base64:QQ==]. *)
Definition tagged_text_store : store := [("v/0", Ref "s3://bucket/a.h5" 0 11)].

Definition tagged_text_file : Z -> Z -> string := fun _ _ => "base64:QQ==".

(** A store with a metadata document, a short chunk of non-ASCII bytes and
    a long chunk. *)
Definition mixed_store : store :=
  [ ("v/.zarray", Doc (ZArray (Some [10]) "<f8" (Some [5]) (PInt 0) None));
    ("v/0", Ref "s3://bucket/a.h5" 400 3);
    ("v/1", Ref "s3://bucket/a.h5" 403 4000) ].

(** The key under which the loop of [_build_output] stores the reference
    found at key [k] of source [i], for the variable [variable]; none when
    the key is skipped. *)
Definition target_key (variable : string) (same_shape : bool) (i : nat)
    (k : string) : option string :=
  let '(start, part) := path_split k in
  if negb (String.eqb start variable) || mem_string part metadata_names
  then None
  else Some (if same_shape then k else rewrite_key start i part).

(** *** Three sources stacked along one dimension

    Each source holds a coordinate [x] of shape (4,) in one chunk, the same
    in all three, and a variable [v] of shape (5,) in five chunks along [t];
    the merged dataset has [t] of extent 15. *)

Definition source_store (url : string) : store :=
  [ (".zgroup", Doc ZGroup);
    ("t/.zarray", Doc (ZArray (Some [5]) "<i8" (Some [5]) PNone None));
    ("t/0", Ref url 64 40);
    ("x/.zarray", Doc (ZArray (Some [4]) "<f8" (Some [4]) PNone None));
    ("x/0", Ref url 104 32);
    ("v/.zarray", Doc (ZArray (Some [5]) "<f8" (Some [1]) PNone None));
    ("v/0", Ref url 136 8);
    ("v/1", Ref url 144 8);
    ("v/2", Ref url 152 8);
    ("v/3", Ref url 160 8);
    ("v/4", Ref url 168 8) ].

Definition three_sources : list store :=
  [ source_store "s3://bucket/0.h5";
    source_store "s3://bucket/1.h5";
    source_store "s3://bucket/2.h5" ].

Definition merged_dataset : XDataset :=
  {| ds_dims := [("t", 15); ("x", 4)];
     ds_variables :=
       [ ("t", {| var_dims := ["t"]; var_shape := [15] |});
         ("x", {| var_dims := ["x"]; var_shape := [4] |});
         ("v", {| var_dims := ["t"]; var_shape := [15] |}) ] |}.

Definition single_dataset : XDataset :=
  {| ds_dims := [("t", 5); ("x", 4)];
     ds_variables :=
       [ ("t", {| var_dims := ["t"]; var_shape := [5] |});
         ("x", {| var_dims := ["x"]; var_shape := [4] |});
         ("v", {| var_dims := ["t"]; var_shape := [5] |}) ] |}.

(** The store as xarray and zarr seed it: the merged metadata and the
    values of the concatenated dimension. *)
Definition merged_seed : store :=
  [ (".zgroup", Doc ZGroup);
    ("t/.zarray", Doc (ZArray (Some [15]) "<i8" (Some [15]) PNone None));
    ("x/.zarray", Doc (ZArray (Some [4]) "<f8" (Some [4]) PNone None));
    ("v/.zarray", Doc (ZArray (Some [15]) "<f8" (Some [1]) PNone None));
    ("t/0", Bytes "0123456789abcde") ].

(** Classification followed by [_build_output], as [translate] chains
    them. *)
Definition merge (seed : store) (ds ds0 : XDataset) (fss : list store)
  : result store :=
  p <- _determine_dims (ds_dims ds) (ds_dims ds0)
         (Z.of_nat (List.length fss)) ;;
  _build_output seed (same_dims p) ds ds0 fss.

(** The entries of the array [start] other than its documents. *)
Definition chunks_of (start : string) (s : store) : store :=
  filter (fun kv => belongs_to start (fst kv) && negb (is_document (fst kv))) s.

(** The consolidated store of the three sources. *)
Definition merged_store : store :=
  Eval vm_compute in
    match merge merged_seed merged_dataset single_dataset three_sources with
    | Ok s => s
    | Raise _ => []
    end.

(** The test of line 430 on one item of [ds.dims], when it does not
    raise. *)
Definition stacked (dims0 : dict string Z) (n : Z) (kv : string * Z) : bool :=
  match sget (fst kv) dims0 with
  | Some d0 => snd kv =? d0 * n
  | None => false
  end.

(** A merged dataset with a dimension that no single source has. *)
Definition ensemble_dims : dict string Z := [("ensemble", 3); ("x", 5)].
Definition member_dims : dict string Z := [("x", 5)].

(** The step of [first_seen]. *)
Definition add_new (seen : list string) (u : string) : list string :=
  if mem_string u seen then seen else seen ++ [u].

(** The pairs [(symbol, identifier)] the comprehension of [_consolidate]
    keeps, from the enumerated counts. *)
Definition template_entries (template_count : Z)
    (ics : list (nat * (string * Z))) : list (string * string) :=
  flat_map
    (fun iuv =>
       if template_count <? snd (snd iuv)
       then match symbol_at (fst iuv) with
            | Some s => [(s, fst (snd iuv))]
            | None => []
            end
       else [])
    ics.

Definition swap (kv : string * string) : string * string := (snd kv, fst kv).

(** Six chunks of one source, each of [size] bytes. *)
Definition six_refs (size : Z) : store :=
  map (fun i => ("v/" +++ str_of_Z i, Ref "s3://bucket/a.h5" (i * size) size))
    [0; 1; 2; 3; 4; 5].

(** A file system whose files hold the byte [A] everywhere. *)
Definition sample_cat : string -> Z -> Z -> string :=
  fun _ a b => fill "A" (Z.to_nat (b - a)).

(** *** The same three sources with the variable stored in one chunk *)

Definition one_chunk_store (url : string) : store :=
  [ (".zgroup", Doc ZGroup);
    ("t/.zarray", Doc (ZArray (Some [5]) "<i8" (Some [5]) PNone None));
    ("t/0", Ref url 64 40);
    ("v/.zarray", Doc (ZArray (Some [5]) "<f8" (Some [5]) PNone None));
    ("v/0", Ref url 104 40) ].

Definition one_chunk_sources : list store :=
  [ one_chunk_store "s3://bucket/0.h5";
    one_chunk_store "s3://bucket/1.h5";
    one_chunk_store "s3://bucket/2.h5" ].

Definition stacked_dataset (extent : Z) : XDataset :=
  {| ds_dims := [("t", extent)];
     ds_variables :=
       [ ("t", {| var_dims := ["t"]; var_shape := [extent] |});
         ("v", {| var_dims := ["t"]; var_shape := [extent] |}) ] |}.

Definition stacked_seed : store :=
  [ (".zgroup", Doc ZGroup);
    ("t/.zarray", Doc (ZArray (Some [15]) "<i8" (Some [15]) PNone None));
    ("v/.zarray", Doc (ZArray (Some [15]) "<f8" (Some [5]) PNone None));
    ("t/0", Bytes "0123456789abcde") ].

(** The scenario of claim C5 as the specification words it: three sources,
    a variable of shape (5,) in each and of shape (15,) merged, and a
    consolidated store with exactly 15 distinct chunk keys for it. *)
Definition spec_fifteen_keys (ds ds0 : XDataset) (fss : list store)
    (variable : string) (out : store) : Prop :=
  List.length fss = 3%nat ->
  option_map var_shape (sget variable (ds_variables ds)) = Some [15] ->
  option_map var_shape (sget variable (ds_variables ds0)) = Some [5] ->
  List.length (chunks_of variable out) = 15%nat
  /\ NoDup (keys (chunks_of variable out)).

(** ** Vocabulary of the further properties *)

(** The two bookkeeping attributes [_transfer_attrs] passes over. *)
Definition skipped_name (n : string) : bool :=
  mem_string n ["REFERENCE_LIST"; "DIMENSION_LIST"].

(** The prefix of the keys of a node: its path and the separator. *)
Definition node_prefix (obj : h5obj) : string :=
  match obj with
  | IsDataset d => meta_key (zarr_path (name d)) ""
  | IsGroup g => meta_key (zarr_path (gname g)) ""
  | IsDatatype => EmptyString
  end.

(** [isinstance(v, bytes)] for the values the Inliner writes. *)
Definition is_bytes (v : entry) : bool :=
  match v with
  | Bytes _ => true
  | _ => false
  end.

(** The same translator reading another file object. *)
Definition with_reader (file : Z -> Z -> string) (t : Translator) : Translator :=
  {| uri := uri t; xr := xr t; spec := spec t; inline := inline t;
     read_at := file |}.

(** [[a // b for a, b in zip(offsets, sizes)]] when no divisor is zero. *)
Definition floor_coords (offsets sizes : list Z) : list Z :=
  map (fun ab => fst ab / snd ab) (combine offsets sizes).

(** The item of the chunk map that one chunk of a chunked dataset gives. *)
Definition blob_item (chunk_size : list Z) (blob : StoreInfo)
  : list Z * (Z * Z) :=
  (floor_coords (chunk_offset blob) chunk_size,
   (byte_offset blob, blob_size blob)).

(** A dataset whose storage holds no data: a null dataspace, a contiguous
    dataset without allocated storage, or a chunked one without chunks. *)
Definition never_written (d : Dataset) : bool :=
  match shape d with
  | None => true
  | Some _ =>
      match chunks d with
      | None => match get_offset d with None => true | Some _ => false end
      | Some _ => is_nil (chunk_info d)
      end
  end.

(** The store a call that may raise leaves to look at. *)
Definition store_or_empty (r : result store) : store :=
  match r with
  | Ok s => s
  | Raise _ => []
  end.

(** A chunked dataset that is a dimension scale and has no chunk
    allocated. *)
Definition unwritten_scale : Dataset :=
  {| name := "/time"; attrs := []; shape := Some [0]; dtype := "<i8";
     chunks := Some [512]; fillvalue := PInt 0; layout := CHUNKED;
     scaleoffset := None; fletcher32 := false; shuffle := false;
     compression := None; compression_opts := PNone;
     is_scale := true; dims := no_scales;
     get_offset := None; get_storage_size := 0; chunk_info := [] |}.

(** A contiguous dataset for which no storage was allocated. *)
Definition unallocated : Dataset :=
  sample_dataset CONTIGUOUS None None false false None None 0 [].

Definition xr_translator : Translator :=
  {| uri := "s3://bucket/a.h5"; xr := true; spec := 1; inline := 0;
     read_at := no_file |}.

(** The array descriptor [create_dataset] is called with for [d]. *)
Definition array_document (d : Dataset) : entry :=
  Doc (ZArray (shape d) (dtype d) (chunks d) (fillvalue d) (compressor_of d)).

(** Every axis of [d] with at most one scale attached. *)
Definition at_most_one_scale (d : Dataset) (rank : nat) : Prop :=
  forall n, (n < rank)%nat -> (List.length (dims d n) <= 1)%nat.

(** A store value as the visit of the file leaves it: a document, or a
    reference into the file [u]. *)
Definition plain_value (u : string) (v : entry) : Prop :=
  match v with
  | Doc _ => True
  | Ref u' _ _ => u' = u
  | _ => False
  end.

Definition plain_store (u : string) (s : store) : Prop :=
  forall k v, In (k, v) s -> plain_value u v.

(** A value of the store [translate] returns. *)
Definition translated_value (t : Translator) (v : entry) : Prop :=
  match v with
  | Doc _ => True
  | Ref u off size => u = final_url t /\ (0 < inline t -> inline t <= size)
  | Bytes b =>
      spec t < 1 /\ 0 < inline t
      /\ exists off size, size < inline t
                          /\ b = inline_encode (read_at t off size)
  | Str b =>
      1 <= spec t /\ 0 < inline t
      /\ exists off size, size < inline t
                          /\ b = inline_encode (read_at t off size)
  end.

(** The turn of the loop of [_determine_dims] over [ds.dims.items()]. *)
Definition classify_step (dims0 : dict string Z) (n : Z) (acc : list string)
    (kv : string * Z) : result (list string) :=
  match sget (fst kv) dims0 with
  | None => Raise (KeyError (fst kv))
  | Some d0 =>
      b <- true_div_eq (snd kv) d0 n ;;
      Ok (if b then acc ++ [fst kv] else acc)
  end.

(** A dimension of the merged dataset that the first source has, with a
    non-zero extent. *)
Definition measurable (dims0 : dict string Z) (kv : string * Z) : Prop :=
  exists d0, sget (fst kv) dims0 = Some d0 /\ d0 <> 0.

(** The value the last of the sources [fss] that holds the key [k] has
    there. *)
Fixpoint last_holding (k : string) (fss : list store) : option entry :=
  match fss with
  | [] => None
  | fs :: rest =>
      match last_holding k rest with
      | Some e => Some e
      | None => sget k fs
      end
  end.

(** One turn of the loop over [self.same_dims], lines 391-393. *)
Definition shared_step (fss : list store) (out : store) (dim : string)
  : result store :=
  match fss with
  | [] => Raise IndexError
  | fs0 :: _ =>
      Ok (supdate (filter (fun kv => startswith (fst kv) dim) fs0) out)
  end.

(** One turn of the loop over [ds.variables], lines 394-411. *)
Definition variable_step (ds ds0 : XDataset) (fss : list store) (out : store)
    (variable : string) : result store :=
  if smem variable (ds_dims ds) then Ok out
  else
    match sget variable (ds_variables ds),
          sget variable (ds_variables ds0) with
    | Some var, Some var0 =>
        if strings_eqb
             (last_slice (List.length (var_dims var0)) (var_dims var))
             (var_dims var0)
        then Ok (place_variable variable
                   (shape_eqb (var_shape var) (var_shape var0)) fss out)
        else Raise AssertionError
    | _, _ => Raise (KeyError variable)
    end.

(** A variable the loop of [_build_output] gets through. *)
Definition copyable (ds ds0 : XDataset) (variable : string) : Prop :=
  smem variable (ds_dims ds) = true
  \/ exists var var0,
       sget variable (ds_variables ds) = Some var
       /\ sget variable (ds_variables ds0) = Some var0
       /\ last_slice (List.length (var_dims var0)) (var_dims var)
          = var_dims var0.

(** Two sources with a variable [w] that is not stacked: it has the shape
    (4,) in each source and in the merged dataset. *)
Definition flat_dataset : XDataset :=
  {| ds_dims := [("x", 4)];
     ds_variables :=
       [ ("x", {| var_dims := ["x"]; var_shape := [4] |});
         ("w", {| var_dims := ["x"]; var_shape := [4] |}) ] |}.

Definition flat_source (url : string) : store :=
  [ (".zgroup", Doc ZGroup);
    ("x/.zarray", Doc (ZArray (Some [4]) "<f8" (Some [4]) PNone None));
    ("x/0", Ref url 104 32);
    ("w/.zarray", Doc (ZArray (Some [4]) "<f8" (Some [4]) PNone None));
    ("w/0", Ref url 136 32) ].

Definition flat_sources : list store :=
  [ flat_source "s3://bucket/0.h5"; flat_source "s3://bucket/1.h5" ].

Definition flat_seed : store :=
  [ (".zgroup", Doc ZGroup);
    ("x/.zarray", Doc (ZArray (Some [4]) "<f8" (Some [4]) PNone None));
    ("w/.zarray", Doc (ZArray (Some [4]) "<f8" (Some [4]) PNone None)) ].

(** Two sources stacked along [xt], with a shared dimension [x] whose name
    begins the name of the stacked one. *)
Definition prefixed_dataset (extent : Z) : XDataset :=
  {| ds_dims := [("xt", extent); ("x", 4)];
     ds_variables :=
       [ ("xt", {| var_dims := ["xt"]; var_shape := [extent] |});
         ("x", {| var_dims := ["x"]; var_shape := [4] |}) ] |}.

Definition prefixed_source (url : string) : store :=
  [ (".zgroup", Doc ZGroup);
    ("xt/.zarray", Doc (ZArray (Some [5]) "<i8" (Some [5]) PNone None));
    ("xt/0", Ref url 64 40);
    ("x/.zarray", Doc (ZArray (Some [4]) "<f8" (Some [4]) PNone None));
    ("x/0", Ref url 104 32) ].

Definition prefixed_sources : list store :=
  [ prefixed_source "s3://bucket/0.h5"; prefixed_source "s3://bucket/1.h5" ].

Definition prefixed_seed : store :=
  [ (".zgroup", Doc ZGroup);
    ("xt/.zarray", Doc (ZArray (Some [10]) "<i8" (Some [10]) PNone None));
    ("x/.zarray", Doc (ZArray (Some [4]) "<f8" (Some [4]) PNone None));
    ("xt/0", Bytes "0123456789") ].

(** An identifier that more than [template_count] references of the mapping
    name. *)
Definition templated (mapping : store) (template_count : Z) (u : string)
  : Prop :=
  In u (ref_urls mapping) /\ template_count < occurrences u mapping.

(** What [_consolidate] can make of an inline text of the mapping: none when
    the text is empty or its first character is a templated identifier. *)
Definition text_passes (mapping : store) (template_count : Z) (s : string)
  : Prop :=
  exists c rest,
    s = String c rest /\ ~ templated mapping template_count (String c EmptyString).

(** Attributes [_transfer_attrs] gets through: none, other than the two it
    passes over, holds bytes that are not valid UTF-8. *)
Definition attrs_decodable (h5attrs : list (string * h5value)) : Prop :=
  forall n, In (n, HBytes None) h5attrs -> skipped_name n = true.

(** A node the visit gets through. *)
Definition translatable (t : Translator) (obj : h5obj) : Prop :=
  match obj with
  | IsDataset d =>
      layout d = COMPACT
      \/ (unsupported_filters d = false
          /\ exists cinfo,
               _storage_info d = Ok cinfo
               /\ (xr t && is_scale d && is_nil cinfo = true
                   \/ (attrs_decodable (attrs d)
                       /\ (xr t = true ->
                           exists adims, _get_array_dims d = Ok adims))))
  | IsGroup g => attrs_decodable (gattrs g)
  | IsDatatype => True
  end.

(** The errors [SingleHdf5ToZarr.translate] can raise. *)
Definition translate_errors : list exn :=
  [ UnicodeDecodeError; ZeroDivisionError; TypeError;
    RuntimeError "dimension scales attached to dimension";
    RuntimeError "uses unsupported HDF5 filters" ].

(** The structure [translate] returns around the store [refs], by the
    version asked for. *)
Definition wrap_refs (t : Translator) (refs : store) : references :=
  if spec t <? 1 then Version0 refs else Version1 1 [("u", uri t)] refs.

(** A translator that inlines. *)
Definition inlining_translator : Translator :=
  {| uri := "s3://bucket/a.h5"; xr := false; spec := 0; inline := 100;
     read_at := filled_file "x" |}.

(** ** The filter gate *)





(** ** The keys of a stacked variable *)

(** The rewritten chunk keys of [variable]: for every source in turn, one
    key for each chunk entry the source holds for the variable. *)
Definition rewritten_keys (variable : string) (fss : list store)
  : list string :=
  flat_map
    (fun ifs =>
       map (fun k => rewrite_key variable (fst ifs) (snd (path_split k)))
         (keys (chunks_of variable (snd ifs))))
    (enumerate fss).

(** The number of chunk entries the sources hold for [variable]. *)
Definition stored_chunks (variable : string) (fss : list store) : nat :=
  list_sum (map (fun fs => List.length (chunks_of variable fs)) fss).

(** A key written as zarr writes it: the array's path, one separator and
    the coordinate text. *)
Definition plain_key (k : string) : bool :=
  String.eqb k (fst (path_split k) +++ String "/" (snd (path_split k))).

Definition plain_keys (variable : string) (fs : store) : bool :=
  forallb (fun k => negb (belongs_to variable k) || plain_key k) (keys fs).

(** No key of [variable] in the first source begins with the name of a
    shared dimension. *)
Definition clear_of_shared (shared : list string) (variable : string)
    (fss : list store) : bool :=
  forallb
    (fun k => negb (belongs_to variable k)
              || forallb (fun dim => negb (startswith k dim)) shared)
    (keys (hd [] fss)).

(** *** A variable whose name begins with the name of a shared dimension *)

Definition prefixed_variable_store (url : string) : store :=
  [ (".zgroup", Doc ZGroup);
    ("t/.zarray", Doc (ZArray (Some [5]) "<i8" (Some [5]) PNone None));
    ("t/0", Ref url 64 40);
    ("x/.zarray", Doc (ZArray (Some [4]) "<f8" (Some [4]) PNone None));
    ("x/0", Ref url 104 32);
    ("xv/.zarray", Doc (ZArray (Some [5]) "<f8" (Some [1]) PNone None));
    ("xv/0", Ref url 136 8);
    ("xv/1", Ref url 144 8);
    ("xv/2", Ref url 152 8);
    ("xv/3", Ref url 160 8);
    ("xv/4", Ref url 168 8) ].

Definition prefixed_variable_sources : list store :=
  [ prefixed_variable_store "s3://bucket/0.h5";
    prefixed_variable_store "s3://bucket/1.h5";
    prefixed_variable_store "s3://bucket/2.h5" ].

Definition prefixed_variable_dataset (extent : Z) : XDataset :=
  {| ds_dims := [("t", extent); ("x", 4)];
     ds_variables :=
       [ ("t", {| var_dims := ["t"]; var_shape := [extent] |});
         ("x", {| var_dims := ["x"]; var_shape := [4] |});
         ("xv", {| var_dims := ["t"]; var_shape := [extent] |}) ] |}.

Definition prefixed_variable_seed : store :=
  [ (".zgroup", Doc ZGroup);
    ("t/.zarray", Doc (ZArray (Some [15]) "<i8" (Some [15]) PNone None));
    ("x/.zarray", Doc (ZArray (Some [4]) "<f8" (Some [4]) PNone None));
    ("xv/.zarray", Doc (ZArray (Some [15]) "<f8" (Some [1]) PNone None));
    ("t/0", Bytes "0123456789abcde") ].

(** ** The templates of a mapping *)

(** The identifiers named by more than [template_count] references, in the
    order they are first seen. *)
Definition templated_urls (mapping : store) (template_count : Z)
  : list string :=
  filter (fun u => template_count <? occurrences u mapping)
    (first_seen (ref_urls mapping)).

(** Claim C6 on the symbols, as the specification words it: the first-seen
    templated identifier receives the next available symbol, so the [k]-th
    of them has the [k]-th letter. *)
Definition spec_next_symbol (mapping : store) (template_count : Z)
    (templates : dict string string) : Prop :=
  forall k u,
    nth_error (templated_urls mapping template_count) k = Some u ->
    exists sym, symbol_at k = Some sym /\ In (sym, u) templates.

(** One reference to a first file, then six to a second. *)
Definition gapped_refs : store :=
  ("u/0", Ref "s3://bucket/a.h5" 0 500)
  :: map (fun i => ("v/" +++ str_of_Z i, Ref "s3://bucket/b.h5" (i * 500) 500))
       [0; 1; 2; 3; 4; 5].

(** One reference to each of 52 files, then six to a 53rd. *)
Definition late_refs : store :=
  map (fun i => ("u/" +++ str_of_Z i,
                 Ref ("s3://bucket/" +++ str_of_Z i +++ ".h5") 0 500))
    (map Z.of_nat (seq 0 52))
  ++ map (fun i => ("v/" +++ str_of_Z i,
                    Ref "s3://bucket/late.h5" (i * 500) 500))
       [0; 1; 2; 3; 4; 5].

(** Six references to one file and an empty inline text. *)
Definition refs_and_empty_text : store :=
  six_refs 500 ++ [("w/0", Str "")].

(** ** The names and the parents of a node *)

Fixpoint no_empty_component (s : string) : bool :=
  match s with
  | String a r =>
      match r with
      | String b _ => negb (is_slash a && is_slash b) && no_empty_component r
      | EmptyString => true
      end
  | EmptyString => true
  end.

(** The components of a path, cut at the separators. *)
Fixpoint components_from (cur rest : string) : list string :=
  match rest with
  | EmptyString => [cur]
  | String c r =>
      if is_slash c then cur :: components_from "" r
      else components_from (cur +++ String c "") r
  end.

Definition no_dot_component (s : string) : bool :=
  forallb (fun seg => negb (String.eqb seg "." || String.eqb seg ".."))
    (components_from "" s).

(** An absolute HDF5 name of the usual kind: no backslash, no empty
    component, no closing separator and no component [.] or [..].  On such
    a name zarr's normalisation of a path only drops the leading separator
    (a backslash it would turn into a separator, a component [.] or [..] it
    would refuse). *)
Definition h5_name (n : string) : bool :=
  match n with
  | String c r =>
      is_slash c && free_of "\" r && no_empty_component n
      && negb (ends_with_slash r) && no_dot_component r
  | EmptyString => false
  end.

(** The paths of the groups above the node at [path]: those that end
    before a separator of [rest], [pre] being what was read so far. *)
Fixpoint ancestors_from (pre rest : string) : list string :=
  match rest with
  | EmptyString => []
  | String c r =>
      if is_slash c then pre :: ancestors_from (pre +++ String c "") r
      else ancestors_from (pre +++ String c "") r
  end.

(** The groups zarr requires before it writes a node at [path]: the root
    and every group above the node. *)
Definition ancestors (path : string) : list string :=
  match path with
  | EmptyString => []
  | _ => EmptyString :: ancestors_from "" path
  end.

(** Every one of them is in the store, as a group and not as an array. *)
Definition parents_present (path : string) (s : store) : bool :=
  forallb (fun p => smem (meta_key p ".zgroup") s
                    && negb (smem (meta_key p ".zarray") s))
    (ancestors path).

(** A node as the visit meets it: under a name of the usual kind, the root
    group and the groups above it already in the store. *)
Definition met_in_visit (obj : h5obj) (s : store) : Prop :=
  match obj with
  | IsDataset d =>
      h5_name (name d) = true
      /\ parents_present (zarr_path (name d)) s = true
  | IsGroup g =>
      h5_name (gname g) = true
      /\ parents_present (zarr_path (gname g)) s = true
  | IsDatatype => True
  end.

(** A chunked dataset in the group [/g]. *)
Definition nested_dataset : Dataset :=
  {| name := "/g/d"; attrs := []; shape := Some [10]; dtype := "<f8";
     chunks := Some [5]; fillvalue := PInt 0; layout := CHUNKED;
     scaleoffset := None; fletcher32 := false; shuffle := false;
     compression := None; compression_opts := PNone;
     is_scale := false; dims := no_scales;
     get_offset := None; get_storage_size := 0;
     chunk_info :=
       [ {| chunk_offset := [0]; byte_offset := 4096; blob_size := 40 |};
         {| chunk_offset := [5]; byte_offset := 4136; blob_size := 40 |} ] |}.

Definition nested_store : store :=
  [ (".zgroup", Doc ZGroup);
    ("g/.zgroup", Doc ZGroup);
    ("g/e/.zarray", Doc (ZArray (Some [2]) "<i4" None (PInt 0) None));
    ("g/e/0", Ref "s3://bucket/a.h5" 8 8) ].

(** ** Extents a float holds exactly *)

(** 2^53: below it, in absolute value, an integer is a float, and the
    quotient of line 430 equals the number of sources exactly when the
    product does. *)
Definition float_exact : Z := 9007199254740992.

Definition extents_exact (dims : dict string Z) : Prop :=
  forall k v, In (k, v) dims -> Z.abs v < float_exact.

(** * Properties *)

(** ** Loops *)

Lemma for_each_invariant {A S : Type} (R : S -> S -> Prop)
    (body : S -> A -> result S) (l : list A) (s s' : S) :
  (forall a, R a a) ->
  (forall a b c, R a b -> R b c -> R a c) ->
  (forall a x b, body a x = Ok b -> R a b) ->
  for_each body l s = Ok s' -> R s s'.
Proof.
  intros Hrefl Htrans Hbody. revert s.
  induction l as [| x l IH]; simpl; intros s H.
  - injection H as <-. apply Hrefl.
  - destruct (body s x) as [s1 |] eqn:E; simpl in H; [| discriminate].
    eapply Htrans; [eapply Hbody; eauto | auto].
Qed.

Lemma for_each_raises {A S : Type} (body : S -> A -> result S) (l : list A)
    (x : A) (s : S) :
  In x l -> (forall a, raises (body a x) = true) ->
  raises (for_each body l s) = true.
Proof.
  intros Hin Hx. revert s. induction l as [| y l IH]; simpl; intros s.
  - destruct Hin.
  - destruct Hin as [-> | Hin].
    + specialize (Hx s). destruct (body s x); simpl in *; congruence.
    + destruct (body s y); simpl; auto.
Qed.

(** ** Dictionaries *)

Section DictFacts.
Context {V : Type}.
Implicit Types (d : dict string V) (k : string) (v : V).

Lemma sget_sset_eq k v d : sget k (sset k v d) = Some v.
Proof.
  unfold sget, sset. induction d as [| [k' v'] d IH]; simpl.
  - now rewrite String.eqb_refl.
  - destruct (String.eqb k k') eqn:E; simpl; rewrite E; auto.
Qed.

Lemma sget_sset_neq k k' v d : k <> k' -> sget k (sset k' v d) = sget k d.
Proof.
  intros Hne. unfold sget, sset. induction d as [| [k0 v0] d IH]; simpl.
  - destruct (String.eqb_spec k k'); congruence.
  - destruct (String.eqb_spec k' k0); simpl.
    + subst k0. destruct (String.eqb_spec k k'); congruence.
    + destruct (String.eqb k k0); auto.
Qed.

Lemma sget_in k v d : sget k d = Some v -> In (k, v) d.
Proof.
  unfold sget. induction d as [| [k0 v0] d IH]; simpl; [discriminate |].
  destruct (String.eqb_spec k k0).
  - intros [= ->]. subst. now left.
  - intros H. right. auto.
Qed.

Lemma sget_notin k d : ~ In k (keys d) -> sget k d = None.
Proof.
  unfold sget. induction d as [| [k0 v0] d IH]; simpl; auto.
  intros H. destruct (String.eqb_spec k k0).
  - subst. tauto.
  - apply IH. tauto.
Qed.

Lemma sget_some_in_keys k v d : sget k d = Some v -> In k (keys d).
Proof.
  intros H. apply sget_in in H. unfold keys.
  change k with (fst (k, v)). now apply in_map.
Qed.

Lemma in_sget k v d : NoDup (keys d) -> In (k, v) d -> sget k d = Some v.
Proof.
  unfold sget. induction d as [| [k0 v0] d IH]; simpl; [tauto |].
  intros Hnd [H | H].
  - injection H as -> ->. now rewrite String.eqb_refl.
  - inversion Hnd as [| ? ? Hnot Hnd']; subst.
    destruct (String.eqb_spec k k0).
    + subst. exfalso. apply Hnot. unfold keys.
      change k0 with (fst (k0, v)). now apply in_map.
    + auto.
Qed.

Lemma sset_fresh k v d : ~ In k (keys d) -> sset k v d = d ++ [(k, v)].
Proof.
  unfold sset. induction d as [| [k0 v0] d IH]; simpl; auto.
  intros H. destruct (String.eqb_spec k k0).
  - subst. tauto.
  - f_equal. apply IH. tauto.
Qed.

Lemma sset_here pre k v0 v post :
  ~ In k (keys pre) ->
  sset k v (pre ++ (k, v0) :: post) = pre ++ (k, v) :: post.
Proof.
  unfold sset. induction pre as [| [k1 v1] pre IH]; simpl; intros H.
  - now rewrite String.eqb_refl.
  - destruct (String.eqb_spec k k1).
    + subst. tauto.
    + f_equal. apply IH. tauto.
Qed.

Lemma keys_sset_in k v d : In k (keys d) -> keys (sset k v d) = keys d.
Proof.
  unfold sset. induction d as [| [k0 v0] d IH]; simpl; [tauto |].
  intros H. destruct (String.eqb_spec k k0); simpl; auto.
  f_equal. apply IH. destruct H; congruence.
Qed.

Lemma keys_sset_incl k v d k' : In k' (keys d) -> In k' (keys (sset k v d)).
Proof.
  intros H. destruct (in_dec string_dec k (keys d)) as [Hin | Hout].
  - now rewrite keys_sset_in.
  - rewrite sset_fresh by assumption. unfold keys. rewrite map_app.
    apply in_or_app. now left.
Qed.

Lemma keys_sset_self k v d : In k (keys (sset k v d)).
Proof.
  destruct (in_dec string_dec k (keys d)) as [Hin | Hout].
  - now rewrite keys_sset_in.
  - rewrite sset_fresh by assumption. unfold keys. rewrite map_app.
    apply in_or_app. right. now left.
Qed.

Lemma keys_sset_inv k v d k' :
  In k' (keys (sset k v d)) -> k' = k \/ In k' (keys d).
Proof.
  destruct (in_dec string_dec k (keys d)) as [Hin | Hout].
  - rewrite keys_sset_in by assumption. tauto.
  - rewrite sset_fresh by assumption. unfold keys. rewrite map_app.
    intros H. apply in_app_or in H. destruct H as [H | [H | []]]; auto.
Qed.

Lemma NoDup_keys_sset k v d : NoDup (keys d) -> NoDup (keys (sset k v d)).
Proof.
  intros Hnd. destruct (in_dec string_dec k (keys d)) as [Hin | Hout].
  - now rewrite keys_sset_in.
  - rewrite sset_fresh by assumption. unfold keys. rewrite map_app. simpl.
    apply NoDup_app; [assumption | repeat constructor; simpl; tauto |].
    intros x Hx [<- | []]. auto.
Qed.

Lemma smem_true_iff k d : smem k d = true <-> In k (keys d).
Proof.
  unfold smem, dict_mem. fold (@sget V). split.
  - destruct (sget k d) eqn:E; [| discriminate].
    intros _. eapply sget_some_in_keys; eauto.
  - intros H. destruct (sget k d) eqn:E; auto.
    exfalso. revert H E. unfold sget.
    induction d as [| [k0 v0] d IH]; simpl; [tauto |].
    destruct (String.eqb_spec k k0); [discriminate |].
    intros [H | H]; [congruence | auto].
Qed.
End DictFacts.

(** ** Strings *)

Lemma append_nil_r s : s +++ "" = s.
Proof. induction s; simpl; congruence. Qed.

Lemma append_assoc a b c : (a +++ b) +++ c = a +++ b +++ c.
Proof. induction a; simpl; congruence. Qed.

Lemma append_inv_head a b c : a +++ b = a +++ c -> b = c.
Proof. induction a; simpl; intros H; [assumption | injection H; auto]. Qed.

Lemma strip_prefix_append p r : strip_prefix p (p +++ r) = Some r.
Proof. induction p; simpl; auto. now rewrite Ascii.eqb_refl. Qed.

Lemma strip_prefix_some p s r : strip_prefix p s = Some r -> s = p +++ r.
Proof.
  revert s. induction p as [| a p IH]; simpl; intros s H.
  - congruence.
  - destruct s as [| b s]; [discriminate |].
    destruct (Ascii.eqb_spec a b); [| discriminate].
    subst. f_equal. auto.
Qed.

Lemma startswith_strip s p :
  startswith s p = true <-> exists r, s = p +++ r.
Proof.
  unfold startswith. revert s.
  induction p as [| a p IH]; intros [| b s]; simpl.
  - split; [intros _; now exists "" | reflexivity].
  - split; [intros _; now exists (String b s) | reflexivity].
  - split; [discriminate | intros [r H]; discriminate].
  - destruct (Ascii.ascii_dec a b) as [-> | Hne].
    + rewrite IH. split; intros [r H]; exists r; simpl in *; congruence.
    + split; [discriminate | intros [r H]; simpl in H; congruence].
Qed.

Lemma startswith_append p r : startswith (p +++ r) p = true.
Proof. apply startswith_strip. now exists r. Qed.

Lemma startswith_append' p : startswith p p = true.
Proof. apply startswith_strip. exists "". now rewrite append_nil_r. Qed.

Lemma all_chars_append p a b :
  all_chars p (a +++ b) = all_chars p a && all_chars p b.
Proof. induction a; simpl; auto. rewrite IHa. now rewrite andb_assoc. Qed.

Lemma all_chars_impl (p q : ascii -> bool) s :
  (forall c, p c = true -> q c = true) ->
  all_chars p s = true -> all_chars q s = true.
Proof.
  intros H. induction s; simpl; auto.
  rewrite !andb_true_iff. intros [H1 H2]. auto.
Qed.

Lemma free_of_append c a b :
  free_of c (a +++ b) = free_of c a && free_of c b.
Proof. apply all_chars_append. Qed.

Lemma free_of_cons_same c r : free_of c (String c r) = false.
Proof. unfold free_of. simpl. now rewrite Ascii.eqb_refl. Qed.

(** A separator splits a text at its first occurrence in one way only. *)
Lemma split_first_unique c a a' r r' :
  free_of c a = true -> free_of c a' = true ->
  a +++ String c r = a' +++ String c r' -> a = a' /\ r = r'.
Proof.
  revert a'. induction a as [| x a IH]; intros [| x' a'] Ha Ha' H; simpl in *.
  - injection H as ->. auto.
  - injection H as <- _. now rewrite free_of_cons_same in Ha'.
  - injection H as -> _. now rewrite free_of_cons_same in Ha.
  - injection H as -> H. unfold free_of in Ha, Ha'. simpl in Ha, Ha'.
    apply andb_true_iff in Ha as [_ Ha]. apply andb_true_iff in Ha' as [_ Ha'].
    destruct (IH a' Ha Ha' H). subst. auto.
Qed.

(** ... and at its last occurrence in one way only. *)
Lemma split_last_unique c a a' r r' :
  free_of c r = true -> free_of c r' = true ->
  a +++ String c r = a' +++ String c r' -> a = a' /\ r = r'.
Proof.
  intros Hr Hr'. revert a'.
  induction a as [| x a IH]; intros [| x' a'] H; simpl in *.
  - injection H as ->. auto.
  - injection H as _ H. subst r.
    rewrite free_of_append, free_of_cons_same, andb_false_r in Hr. discriminate.
  - injection H as _ H. subst r'.
    rewrite free_of_append, free_of_cons_same, andb_false_r in Hr'. discriminate.
  - injection H as -> H. destruct (IH a' H). subst. auto.
Qed.

(** *** Decimal texts *)

Lemma digit_text_uint d : all_chars digit_char (NilEmpty.string_of_uint d) = true.
Proof. induction d; simpl; auto. Qed.

Lemma digit_text_str_of_Z z : all_chars digit_char (str_of_Z z) = true.
Proof.
  unfold str_of_Z.
  assert (U : forall d, all_chars digit_char (NilZero.string_of_uint d) = true).
  { intros d. destruct d; try apply digit_text_uint. reflexivity. }
  destruct (Z.to_int z); simpl; auto.
Qed.

Lemma digit_not_dot c : digit_char c = true -> negb (Ascii.eqb c ".") = true.
Proof.
  destruct c as [[|] [|] [|] [|] [|] [|] [|] [|]]; simpl; auto.
Qed.

Lemma digit_not_slash c : digit_char c = true -> negb (Ascii.eqb c "/") = true.
Proof.
  destruct c as [[|] [|] [|] [|] [|] [|] [|] [|]]; simpl; auto.
Qed.

Lemma coord_not_slash c : coord_char c = true -> negb (Ascii.eqb c "/") = true.
Proof.
  destruct c as [[|] [|] [|] [|] [|] [|] [|] [|]]; simpl; auto.
Qed.

Lemma str_of_Z_dot_free z : free_of "." (str_of_Z z) = true.
Proof.
  eapply all_chars_impl; [apply digit_not_dot | apply digit_text_str_of_Z].
Qed.

Lemma str_of_Z_slash_free z : free_of "/" (str_of_Z z) = true.
Proof.
  eapply all_chars_impl; [apply digit_not_slash | apply digit_text_str_of_Z].
Qed.

Lemma str_of_Z_coord_text z : coord_text (str_of_Z z) = true.
Proof.
  eapply all_chars_impl; [| apply digit_text_str_of_Z].
  intros c H. unfold coord_char. now rewrite H.
Qed.

Lemma str_of_Z_nonempty z : str_of_Z z <> "".
Proof.
  unfold str_of_Z. destruct (Z.to_int z) as [d | d]; simpl; [| discriminate].
  destruct d; simpl; discriminate.
Qed.

Lemma to_int_not_nil z : Z.to_int z <> Pos Nil /\ Z.to_int z <> Neg Nil.
Proof.
  destruct z as [| p | p]; simpl; split; try discriminate;
    intros [= H]; now apply (DecimalPos.Unsigned.to_uint_nonnil p).
Qed.

Lemma str_of_Z_inj a b : str_of_Z a = str_of_Z b -> a = b.
Proof.
  unfold str_of_Z. intros H.
  apply DecimalZ.to_int_inj.
  assert (E : NilZero.int_of_string (NilZero.string_of_int (Z.to_int a))
              = NilZero.int_of_string (NilZero.string_of_int (Z.to_int b)))
    by now rewrite H.
  destruct (to_int_not_nil a), (to_int_not_nil b).
  rewrite !NilZero.isi in E by assumption.
  now injection E.
Qed.

(** *** Chunk keys *)

Lemma concat_dot_inj l1 l2 :
  Forall (fun x => free_of "." x = true /\ x <> "") l1 ->
  Forall (fun x => free_of "." x = true /\ x <> "") l2 ->
  String.concat "." l1 = String.concat "." l2 -> l1 = l2.
Proof.
  intros H1. revert l2.
  induction H1 as [| x l1 [Hx Hx0] H1 IH]; intros l2 H2 E.
  - destruct H2 as [| y l2 [Hy Hy0] H2]; auto.
    simpl in E. destruct l2; [congruence |].
    destruct y; [congruence | discriminate].
  - destruct H2 as [| y l2 [Hy Hy0] H2].
    + simpl in E. destruct l1; [congruence |].
      destruct x; [congruence | discriminate].
    + destruct l1 as [| x' l1], l2 as [| y' l2]; simpl in E.
      * congruence.
      * subst x. rewrite free_of_append in Hx. simpl in Hx.
        rewrite free_of_cons_same, andb_false_r in Hx. discriminate.
      * subst y. rewrite free_of_append in Hy. simpl in Hy.
        rewrite free_of_cons_same, andb_false_r in Hy. discriminate.
      * apply split_first_unique in E; auto. destruct E as [-> E].
        f_equal. apply IH; auto.
Qed.

Lemma coords_text_inj a b : coords_text a = coords_text b -> a = b.
Proof.
  unfold coords_text. intros H. apply concat_dot_inj in H.
  - revert b H. induction a as [| x a IH]; intros [| y b] H;
      simpl in H; try congruence.
    injection H as H1 H2. apply str_of_Z_inj in H1. f_equal; auto.
  - apply Forall_forall. intros x Hx. apply in_map_iff in Hx as [z [<- _]].
    split; [apply str_of_Z_dot_free | apply str_of_Z_nonempty].
  - apply Forall_forall. intros x Hx. apply in_map_iff in Hx as [z [<- _]].
    split; [apply str_of_Z_dot_free | apply str_of_Z_nonempty].
Qed.

Lemma coords_text_chars coords : coord_text (coords_text coords) = true.
Proof.
  unfold coords_text, coord_text.
  induction coords as [| x [| y l] IH]; simpl; auto.
  - apply str_of_Z_coord_text.
  - rewrite all_chars_append. simpl in *.
    fold (coord_text (str_of_Z x)). rewrite str_of_Z_coord_text. simpl.
    exact IH.
Qed.

Lemma meta_key_prefix path doc : meta_key path doc = meta_key path "" +++ doc.
Proof.
  destruct path; simpl; auto. now rewrite append_assoc.
Qed.

Lemma meta_key_inj path a b : meta_key path a = meta_key path b -> a = b.
Proof.
  rewrite (meta_key_prefix path a), (meta_key_prefix path b).
  apply append_inv_head.
Qed.

Lemma chunk_key_inj path a b : chunk_key path a = chunk_key path b -> a = b.
Proof.
  unfold chunk_key. intros H. apply meta_key_inj in H.
  now apply coords_text_inj.
Qed.

Lemma is_chunk_key_chunk_key path coords :
  is_chunk_key path (chunk_key path coords) = true.
Proof.
  unfold is_chunk_key, chunk_key.
  rewrite (meta_key_prefix path (coords_text coords)).
  rewrite strip_prefix_append. apply coords_text_chars.
Qed.

Lemma is_chunk_key_document path doc :
  coord_text doc = false -> is_chunk_key path (meta_key path doc) = false.
Proof.
  intros H. unfold is_chunk_key. rewrite (meta_key_prefix path doc).
  now rewrite strip_prefix_append.
Qed.

Lemma is_chunk_key_startswith path k :
  is_chunk_key path k = true -> startswith k (meta_key path "") = true.
Proof.
  unfold is_chunk_key. destruct (strip_prefix _ k) eqn:E; [| discriminate].
  intros _. apply strip_prefix_some in E. apply startswith_strip. eauto.
Qed.

(** *** The chunk entries of a store under the writes of the translator *)

Lemma chunk_entries_sset_other path k v (s : store) :
  is_chunk_key path k = false ->
  chunk_entries path (sset k v s) = chunk_entries path s.
Proof.
  intros H. unfold chunk_entries, sset.
  induction s as [| [k0 v0] s IH]; simpl.
  - now rewrite H.
  - destruct (String.eqb_spec k k0); simpl.
    + subst. now rewrite H.
    + now rewrite IH.
Qed.

Lemma chunk_entries_keys path (s : store) k :
  In k (keys s) -> is_chunk_key path k = true ->
  In k (keys (chunk_entries path s)).
Proof.
  unfold keys, chunk_entries. intros H Hk.
  apply in_map_iff in H as [[k0 v0] [<- H]].
  apply in_map_iff. exists (k0, v0). split; auto.
  apply filter_In. auto.
Qed.

Lemma chunk_entries_rmdir path (s : store) :
  chunk_entries path (rmdir path s) = [].
Proof.
  unfold chunk_entries, rmdir. induction s as [| [k v] s IH]; simpl; auto.
  destruct (startswith k (meta_key path "")) eqn:E; simpl; auto.
  destruct (is_chunk_key path k) eqn:F; auto.
  apply is_chunk_key_startswith in F. congruence.
Qed.

Lemma chunk_entries_attrs_set path n v (s : store) :
  chunk_entries path (attrs_set path n v s) = chunk_entries path s.
Proof.
  unfold attrs_set. apply chunk_entries_sset_other.
  now apply is_chunk_key_document.
Qed.

Lemma transfer_attr_cases t path s nv s' :
  transfer_attr t path s nv = Ok s' ->
  s' = s \/ exists n v, s' = attrs_set path n v s.
Proof.
  unfold transfer_attr. destruct nv as [n v].
  destruct (mem_string n _); [intros [= <-]; auto |].
  destruct (fix_value n v) as [v' |]; simpl; [| discriminate].
  destruct (xr t && pyvalue_is_str v' "DIMENSION_SCALE");
    [intros [= <-]; auto |].
  destruct (json_ok v'); intros [= <-]; eauto.
Qed.

Lemma chunk_entries_transfer_attrs t h5attrs path s s' :
  _transfer_attrs t h5attrs path s = Ok s' ->
  chunk_entries path s' = chunk_entries path s.
Proof.
  unfold _transfer_attrs.
  apply (for_each_invariant
           (fun a b : store => chunk_entries path b = chunk_entries path a)).
  - reflexivity.
  - intros a b c H1 H2. congruence.
  - intros a nv b H. apply transfer_attr_cases in H as [-> | [n [v ->]]]; auto.
    apply chunk_entries_attrs_set.
Qed.

Lemma chunk_entries_written url path (items done : chunk_map) (s : store) :
  NoDup (map fst (done ++ items)) ->
  chunk_entries path s = map (remote_of url path) done ->
  chunk_entries path (write_chunks url path items s)
  = map (remote_of url path) (done ++ items).
Proof.
  unfold write_chunks. revert done s. induction items as [| [c [off size]] items IH];
    intros done s Hnd Hs; simpl.
  - now rewrite app_nil_r.
  - replace (done ++ (c, (off, size)) :: items)
      with ((done ++ [(c, (off, size))]) ++ items)
      by (now rewrite <- app_assoc).
    apply IH; [now rewrite <- app_assoc |].
    assert (Hfresh : ~ In (chunk_key path c) (keys s)).
    { intros Hin.
      apply (chunk_entries_keys path) in Hin;
        [| apply is_chunk_key_chunk_key].
      rewrite Hs in Hin. unfold keys in Hin. rewrite map_map in Hin.
      apply in_map_iff in Hin as [[c' ov] [E Hin]]. simpl in E.
      apply chunk_key_inj in E. subst c'.
      rewrite map_app in Hnd. apply NoDup_remove_2 in Hnd.
      apply Hnd. apply in_or_app. left.
      apply in_map_iff. exists (c, ov). auto. }
    rewrite sset_fresh by assumption.
    unfold chunk_entries in *. rewrite filter_app, Hs, map_app. simpl.
    now rewrite is_chunk_key_chunk_key.
Qed.

(** *** The chunk map has one item per coordinate *)

Lemma coords_eqb_spec a b : reflect (a = b) (coords_eqb a b).
Proof.
  unfold coords_eqb. destruct (list_eq_dec Z.eq_dec a b); now constructor.
Qed.

Lemma dict_set_coords_keys k v (m : chunk_map) k' :
  In k' (map fst (dict_set coords_eqb k v m)) -> k' = k \/ In k' (map fst m).
Proof.
  induction m as [| [k0 v0] m IH]; simpl.
  - intros [H | []]; auto.
  - destruct (coords_eqb_spec k k0); simpl; intros [H | H]; auto.
    destruct (IH H); auto.
Qed.

Lemma dict_set_coords_NoDup k v (m : chunk_map) :
  NoDup (map fst m) -> NoDup (map fst (dict_set coords_eqb k v m)).
Proof.
  induction m as [| [k0 v0] m IH]; simpl; intros H.
  - repeat constructor. simpl. tauto.
  - inversion H as [| ? ? Hnot Hnd]; subst.
    destruct (coords_eqb_spec k k0); simpl.
    + now constructor.
    + constructor; auto. intros Hin.
      apply dict_set_coords_keys in Hin. destruct Hin; congruence.
Qed.

Lemma _storage_info_NoDup d cinfo :
  _storage_info d = Ok cinfo -> NoDup (map fst cinfo).
Proof.
  unfold _storage_info.
  destruct (shape d) as [shp |]; [| intros [= <-]; constructor].
  destruct (chunks d) as [chunk_size |].
  - assert (G : forall blobs acc,
               NoDup (map fst acc) ->
               for_each
                 (fun stinfo blob =>
                    key <- chunk_coords (chunk_offset blob) chunk_size ;;
                    Ok (dict_set coords_eqb key
                          (byte_offset blob, blob_size blob) stinfo))
                 blobs acc = Ok cinfo ->
               NoDup (map fst cinfo)).
    { induction blobs as [| b blobs IH]; simpl; intros acc Hacc H.
      - now injection H as <-.
      - destruct (chunk_coords (chunk_offset b) chunk_size) as [key |];
          simpl in H; [| discriminate].
        eapply IH; [| exact H]. now apply dict_set_coords_NoDup. }
    destruct (chunk_info d) as [| b blobs]; [intros [= <-]; constructor |].
    apply G. constructor.
  - destruct (get_offset d); intros [= <-]; simpl;
      repeat constructor; simpl; tauto.
Qed.

(** ** The visitor on a dataset *)

Lemma layout_eqb_spec a b : reflect (a = b) (layout_eqb a b).
Proof. destruct a, b; simpl; constructor; congruence. Qed.

(** The path a dataset takes through [_translator] once it is past the
    layout test. *)
Lemma translator_dataset_inv t s d s' :
  layout d <> COMPACT ->
  _translator t s (IsDataset d) = Ok s' ->
  unsupported_filters d = false
  /\ exists cinfo, _storage_info d = Ok cinfo
     /\ ((xr t && is_scale d && is_nil cinfo = true /\ s' = s)
         \/ (xr t && is_scale d && is_nil cinfo = false
             /\ exists s1 s2,
                 _transfer_attrs t (attrs d) (zarr_path (name d))
                   (create_dataset (name d)
                      (ZArray (shape d) (dtype d) (chunks d) (fillvalue d)
                         (compressor_of d)) s) = Ok s1
                 /\ attach_dims t d (zarr_path (name d)) s1 = Ok s2
                 /\ s' = write_chunks (uri t) (zarr_path (name d)) cinfo s2)).
Proof.
  intros Hl. simpl.
  destruct (layout_eqb_spec (layout d) COMPACT); [contradiction |].
  destruct (unsupported_filters d); [discriminate |].
  destruct (_storage_info d) as [cinfo |]; simpl; [| discriminate].
  intros H. split; auto. exists cinfo. split; auto.
  destruct (xr t && is_scale d && is_nil cinfo).
  - left. injection H as <-. auto.
  - right. split; auto.
    destruct (_transfer_attrs _ _ _ _) as [s1 |]; simpl in H; [| discriminate].
    destruct (attach_dims t d _ s1) as [s2 |] eqn:E2; simpl in H;
      [| discriminate].
    injection H as <-. exists s1, s2. auto.
Qed.

Lemma chunk_entries_attach_dims t d path s s' :
  attach_dims t d path s = Ok s' ->
  chunk_entries path s' = chunk_entries path s.
Proof.
  unfold attach_dims. destruct (xr t); [| now intros [= <-]].
  destruct (_get_array_dims d); simpl; [| discriminate].
  intros [= <-]. apply chunk_entries_attrs_set.
Qed.

Lemma chunk_entries_create_dataset h5name doc s :
  chunk_entries (zarr_path h5name) (create_dataset h5name doc s) = [].
Proof.
  unfold create_dataset.
  rewrite chunk_entries_sset_other by now apply is_chunk_key_document.
  apply chunk_entries_rmdir.
Qed.

Lemma valid_remote_of url path (cinfo : chunk_map) :
  forallb valid_remote (map snd (map (remote_of url path) cinfo))
  = forallb (fun item => (0 <=? fst (snd item)) && (0 <? snd (snd item))) cinfo.
Proof.
  induction cinfo as [| [c [off size]] l IH]; simpl; auto. now rewrite IH.
Qed.

Lemma NoDup_chunk_keys url path (cinfo : chunk_map) :
  NoDup (map fst cinfo) -> NoDup (keys (map (remote_of url path) cinfo)).
Proof.
  unfold keys. rewrite map_map. simpl.
  induction cinfo as [| [c ov] l IH]; simpl; intros H; [constructor |].
  inversion H as [| ? ? Hnot Hnd]; subst. constructor; auto.
  intros Hin. apply in_map_iff in Hin as [[c' ov'] [E Hin]]. simpl in E.
  apply chunk_key_inj in E. subst c'. apply Hnot.
  apply in_map_iff. exists (c, ov'). auto.
Qed.

Lemma translator_chunk_entries t s d cinfo s' :
  layout d <> COMPACT ->
  _storage_info d = Ok cinfo ->
  xr t && is_scale d && is_nil cinfo = false ->
  _translator t s (IsDataset d) = Ok s' ->
  chunk_entries (zarr_path (name d)) s'
  = map (remote_of (uri t) (zarr_path (name d))) cinfo.
Proof.
  intros Hl Hc Hskip H.
  apply translator_dataset_inv in H as [_ [cinfo' [Hc' H]]]; auto.
  assert (cinfo' = cinfo) by congruence. subst cinfo'.
  destruct H as [[Habs _] | [_ [s1 [s2 [H1 [H2 ->]]]]]]; [congruence |].
  apply (chunk_entries_written _ _ cinfo []).
  - simpl. eapply _storage_info_NoDup; eauto.
  - simpl. erewrite chunk_entries_attach_dims by eauto.
    erewrite chunk_entries_transfer_attrs by eauto.
    apply chunk_entries_create_dataset.
Qed.

(** ** Loops that assign into the store they run over *)

Lemma keys_map_values g (s : store) : keys (map_values g s) = keys s.
Proof. unfold keys, map_values. rewrite map_map. reflexivity. Qed.

Lemma fold_over_copy (step : store -> string * entry -> store)
    (g : entry -> entry) :
  (forall pre k v post,
      ~ In k (keys pre) ->
      step (pre ++ (k, v) :: post) (k, v) = pre ++ (k, g v) :: post) ->
  forall l pre,
    NoDup (keys (pre ++ l)) ->
    fold_left step l (pre ++ l) = pre ++ map_values g l.
Proof.
  intros Hstep. induction l as [| [k v] l IH]; intros pre Hnd; simpl.
  - reflexivity.
  - rewrite Hstep.
    + replace (pre ++ (k, v) :: l) with ((pre ++ [(k, v)]) ++ l) in Hnd
        by (now rewrite <- app_assoc).
      replace (pre ++ (k, g v) :: l) with ((pre ++ [(k, g v)]) ++ l)
        by (now rewrite <- app_assoc).
      rewrite IH.
      * now rewrite <- app_assoc.
      * unfold keys in *. rewrite !map_app in *. exact Hnd.
    + unfold keys in Hnd. rewrite map_app in Hnd. simpl in Hnd.
      apply NoDup_remove_2 in Hnd. intros Hin. apply Hnd.
      apply in_or_app. now left.
Qed.

Lemma _do_inline_map t threshold s :
  NoDup (keys s) ->
  _do_inline t threshold s = map_values (inline_value t threshold) s.
Proof.
  intros Hnd. unfold _do_inline.
  apply (fold_over_copy _ (inline_value t threshold)) with (pre := []); auto.
  intros pre k v post Hk. simpl.
  destruct v as [u off size | b | x | d]; simpl; auto.
  destruct (size <? threshold); auto.
  now apply sset_here.
Qed.

Lemma template_loop_map s :
  NoDup (keys s) ->
  fold_left (fun s kv => sset (fst kv) (template_entry (snd kv)) s) s s
  = map_values template_entry s.
Proof.
  intros Hnd.
  apply (fold_over_copy _ template_entry) with (pre := []); auto.
  intros pre k v post Hk. simpl. now apply sset_here.
Qed.

Lemma chunk_entries_map_values path g s :
  chunk_entries path (map_values g s) = map_values g (chunk_entries path s).
Proof.
  unfold chunk_entries, map_values.
  induction s as [| [k v] s IH]; simpl; auto.
  destruct (is_chunk_key path k); simpl; now rewrite IH.
Qed.

Lemma inline_value_idem t threshold v :
  inline_value t threshold (inline_value t threshold v)
  = inline_value t threshold v.
Proof.
  destruct v as [u off size | b | x | d]; simpl; auto.
  destruct (size <? threshold) eqn:E; simpl; auto. now rewrite E.
Qed.

(** ** The store keeps one entry per key *)

Lemma NoDup_keys_filter {V : Type} (p : string * V -> bool) (d : dict string V) :
  NoDup (keys d) -> NoDup (keys (filter p d)).
Proof.
  unfold keys. induction d as [| [k v] d IH]; simpl; intros H; auto.
  inversion H as [| ? ? Hnot Hnd]; subst.
  destruct (p (k, v)); simpl; auto.
  constructor; auto. intros Hin. apply Hnot.
  apply in_map_iff in Hin as [kv [E Hin]]. apply filter_In in Hin as [Hin _].
  apply in_map_iff. eauto.
Qed.

Lemma NoDup_transfer_attrs t h5attrs path s s' :
  _transfer_attrs t h5attrs path s = Ok s' ->
  NoDup (keys s) -> NoDup (keys s').
Proof.
  unfold _transfer_attrs.
  apply (for_each_invariant
           (fun a b : store => NoDup (keys a) -> NoDup (keys b))); auto.
  intros a nv b H Ha. apply transfer_attr_cases in H as [-> | [n [v ->]]]; auto.
  now apply NoDup_keys_sset.
Qed.

Lemma NoDup_write_chunks url path cinfo s :
  NoDup (keys s) -> NoDup (keys (write_chunks url path cinfo s)).
Proof.
  unfold write_chunks. revert s.
  induction cinfo as [| kv l IH]; simpl; intros s H; auto.
  apply IH. now apply NoDup_keys_sset.
Qed.

Lemma NoDup_attach_dims t d path s s' :
  attach_dims t d path s = Ok s' -> NoDup (keys s) -> NoDup (keys s').
Proof.
  unfold attach_dims. destruct (xr t); [| now intros [= <-]].
  destruct (_get_array_dims d); simpl; [| discriminate].
  intros [= <-] H. now apply NoDup_keys_sset.
Qed.

Lemma NoDup_translator t s obj s' :
  _translator t s obj = Ok s' -> NoDup (keys s) -> NoDup (keys s').
Proof.
  destruct obj as [d | g |]; simpl.
  - destruct (layout_eqb (layout d) COMPACT); [now intros [= <-] |].
    destruct (unsupported_filters d); [discriminate |].
    destruct (_storage_info d) as [cinfo |]; simpl; [| discriminate].
    destruct (xr t && is_scale d && is_nil cinfo); [now intros [= <-] |].
    destruct (_transfer_attrs _ _ _ _) as [s1 |] eqn:E1; simpl;
      [| discriminate].
    destruct (attach_dims t d _ s1) as [s2 |] eqn:E2; simpl; [| discriminate].
    intros [= <-] H. apply NoDup_write_chunks.
    eapply NoDup_attach_dims; eauto.
    eapply NoDup_transfer_attrs; eauto.
    unfold create_dataset. apply NoDup_keys_sset.
    unfold rmdir. now apply NoDup_keys_filter.
  - intros H Hs. eapply NoDup_transfer_attrs; eauto.
    unfold create_group. now apply NoDup_keys_sset.
  - now intros [= <-].
Qed.

Lemma NoDup_visit t (objs : list (string * h5obj)) s s' :
  for_each (fun s item => _translator t s (snd item)) objs s = Ok s' ->
  NoDup (keys s) -> NoDup (keys s').
Proof.
  apply (for_each_invariant
           (fun a b : store => NoDup (keys a) -> NoDup (keys b))); auto.
  intros a x b H. eapply NoDup_translator; eauto.
Qed.

(** ** Other nodes leave the chunk entries of an array alone *)

Lemma meta_key_dir_like path : dir_like (meta_key path "").
Proof.
  destruct path; [now left | right].
  now exists (String a path).
Qed.

Lemma coord_text_slash_free r : coord_text r = true -> free_of "/" r = true.
Proof. apply all_chars_impl, coord_not_slash. Qed.

Lemma dir_split_unique a a' r r' :
  dir_like a -> dir_like a' ->
  free_of "/" r = true -> free_of "/" r' = true ->
  a +++ r = a' +++ r' -> a = a' /\ r = r'.
Proof.
  intros [-> | [b ->]] [-> | [b' ->]] Hr Hr' E; simpl in E.
  - auto.
  - subst r. rewrite append_assoc in Hr. simpl in Hr.
    rewrite free_of_append, free_of_cons_same, andb_false_r in Hr.
    discriminate.
  - subst r'. rewrite append_assoc in Hr'. simpl in Hr'.
    rewrite free_of_append, free_of_cons_same, andb_false_r in Hr'.
    discriminate.
  - rewrite !append_assoc in E. simpl in E.
    apply split_last_unique in E; auto. destruct E as [-> ->]. auto.
Qed.

Lemma is_chunk_key_spec path k :
  is_chunk_key path k = true <->
  exists r, k = meta_key path "" +++ r /\ coord_text r = true.
Proof.
  unfold is_chunk_key. split.
  - destruct (strip_prefix _ k) as [r |] eqn:E; [| discriminate].
    intros H. exists r. split; auto. now apply strip_prefix_some.
  - intros [r [-> H]]. now rewrite strip_prefix_append.
Qed.

Lemma is_chunk_key_foreign_document path path' doc :
  coord_text doc = false -> free_of "/" doc = true ->
  is_chunk_key path (meta_key path' doc) = false.
Proof.
  intros Hdoc Hfree. destruct (is_chunk_key path _) eqn:E; auto.
  apply is_chunk_key_spec in E as [r [E Hr]].
  rewrite (meta_key_prefix path' doc) in E. symmetry in E.
  apply dir_split_unique in E; auto using meta_key_dir_like.
  - destruct E as [_ ->]. congruence.
  - now apply coord_text_slash_free.
Qed.

Lemma meta_key_dir_inj path path' :
  meta_key path "" = meta_key path' "" -> path = path'.
Proof.
  destruct path as [| a p], path' as [| a' p']; simpl; auto.
  - intros H. destruct p'; discriminate.
  - intros H. destruct p; discriminate.
  - intros H. injection H as -> H.
    assert (E : p +++ String "/" "" = p' +++ String "/" "") by exact H.
    apply split_last_unique in E; auto. destruct E. congruence.
Qed.

Lemma is_chunk_key_foreign_chunk path path' coords :
  path' <> path -> is_chunk_key path (chunk_key path' coords) = false.
Proof.
  intros Hne. destruct (is_chunk_key path _) eqn:E; auto.
  apply is_chunk_key_spec in E as [r [E Hr]].
  unfold chunk_key in E. rewrite (meta_key_prefix path' _) in E.
  apply dir_split_unique in E; auto using meta_key_dir_like.
  - destruct E as [E _]. apply meta_key_dir_inj in E. congruence.
  - apply coord_text_slash_free, coords_text_chars.
  - now apply coord_text_slash_free.
Qed.

Lemma ends_with_slash_append a b :
  b <> "" -> ends_with_slash (a +++ b) = ends_with_slash b.
Proof.
  intros Hb. induction a as [| c a IH]; simpl; auto.
  destruct (a +++ b) eqn:E; auto.
  destruct a; simpl in E; congruence.
Qed.

Lemma ends_with_slash_free y :
  free_of "/" y = true -> ends_with_slash y = false.
Proof.
  induction y as [| c y IH]; simpl; auto.
  unfold free_of. simpl. rewrite andb_true_iff. intros [Hc Hy].
  destruct y; [| now apply IH].
  unfold is_slash. now destruct (Ascii.eqb c "/").
Qed.

Lemma append_prefix_cases a r a' x :
  a +++ r = a' +++ x ->
  (exists y, a = a' +++ y) \/ (exists y, y <> "" /\ a' = a +++ y /\ r = y +++ x).
Proof.
  revert a'. induction a as [| c a IH]; intros [| c' a'] E; simpl in *.
  - left. now exists "".
  - right. exists (String c' a'). repeat split; auto. discriminate.
  - left. now exists (String c a).
  - injection E as -> E. destruct (IH a' E) as [[y ->] | [y [Hy [-> ->]]]].
    + left. now exists y.
    + right. exists y. auto.
Qed.

Lemma chunk_key_outside path k prefix' :
  dir_like prefix' ->
  startswith (meta_key path "") prefix' = false ->
  is_chunk_key path k = true -> startswith k prefix' = false.
Proof.
  intros Hdir Hno Hk. destruct (startswith k prefix') eqn:E; auto.
  apply startswith_strip in E as [x E].
  apply is_chunk_key_spec in Hk as [r [Hk Hr]]. subst k.
  apply append_prefix_cases in E as [[y E] | [y [Hy [E Er]]]].
  - rewrite E, startswith_append in Hno. discriminate.
  - exfalso. apply coord_text_slash_free in Hr. subst r.
    rewrite free_of_append in Hr. apply andb_true_iff in Hr as [Hy' _].
    destruct Hdir as [-> | [b ->]].
    + destruct (meta_key path ""); simpl in E; [| discriminate].
      simpl in E. congruence.
    + assert (F : ends_with_slash (b +++ "/") = true)
        by (rewrite ends_with_slash_append by discriminate; reflexivity).
      rewrite E, ends_with_slash_append in F by assumption.
      rewrite ends_with_slash_free in F by assumption. discriminate.
Qed.

Lemma chunk_entries_rmdir_other path path' s :
  startswith (meta_key path "") (meta_key path' "") = false ->
  chunk_entries path (rmdir path' s) = chunk_entries path s.
Proof.
  intros Hno. unfold chunk_entries, rmdir.
  induction s as [| [k v] s IH]; simpl; auto.
  destruct (is_chunk_key path k) eqn:Hk.
  - rewrite (chunk_key_outside path k (meta_key path' ""));
      auto using meta_key_dir_like.
    simpl. rewrite Hk. now rewrite IH.
  - destruct (startswith k (meta_key path' "")); simpl; auto.
    now rewrite Hk.
Qed.

Lemma chunk_entries_write_chunks_other url path path' cinfo s :
  path' <> path ->
  chunk_entries path (write_chunks url path' cinfo s) = chunk_entries path s.
Proof.
  intros Hne. unfold write_chunks. revert s.
  induction cinfo as [| kv l IH]; simpl; intros s; auto.
  rewrite IH. apply chunk_entries_sset_other.
  now apply is_chunk_key_foreign_chunk.
Qed.

Lemma chunk_entries_attrs_set_any path path' n v s :
  chunk_entries path (attrs_set path' n v s) = chunk_entries path s.
Proof.
  unfold attrs_set. apply chunk_entries_sset_other.
  now apply is_chunk_key_foreign_document.
Qed.

Lemma chunk_entries_transfer_attrs_any t h5attrs path path' s s' :
  _transfer_attrs t h5attrs path' s = Ok s' ->
  chunk_entries path s' = chunk_entries path s.
Proof.
  unfold _transfer_attrs.
  apply (for_each_invariant
           (fun a b : store => chunk_entries path b = chunk_entries path a)).
  - reflexivity.
  - intros a b c H1 H2. congruence.
  - intros a nv b H. apply transfer_attr_cases in H as [-> | [n [v ->]]]; auto.
    apply chunk_entries_attrs_set_any.
Qed.

Lemma translator_keeps_chunk_entries t path s obj s' :
  overwrites path obj = false ->
  _translator t s obj = Ok s' ->
  chunk_entries path s' = chunk_entries path s.
Proof.
  destruct obj as [d | g |]; simpl.
  - intros Hno.
    destruct (layout_eqb (layout d) COMPACT); [now intros [= <-] |].
    destruct (unsupported_filters d); [discriminate |].
    destruct (_storage_info d) as [cinfo |]; simpl; [| discriminate].
    destruct (xr t && is_scale d && is_nil cinfo); [now intros [= <-] |].
    destruct (_transfer_attrs _ _ _ _) as [s1 |] eqn:E1; simpl;
      [| discriminate].
    destruct (attach_dims t d _ s1) as [s2 |] eqn:E2; simpl; [| discriminate].
    intros [= <-].
    rewrite chunk_entries_write_chunks_other.
    + assert (chunk_entries path s2 = chunk_entries path s1) as ->.
      { revert E2. unfold attach_dims. destruct (xr t); [| now intros [= <-]].
        destruct (_get_array_dims d); simpl; [| discriminate].
        intros [= <-]. apply chunk_entries_attrs_set_any. }
      erewrite chunk_entries_transfer_attrs_any by eauto.
      unfold create_dataset.
      rewrite chunk_entries_sset_other
        by now apply is_chunk_key_foreign_document.
      now apply chunk_entries_rmdir_other.
    + intros E. rewrite E, startswith_append' in Hno. discriminate.
  - intros _ H. erewrite chunk_entries_transfer_attrs_any by eauto.
    unfold create_group. apply chunk_entries_sset_other.
    now apply is_chunk_key_foreign_document.
  - now intros _ [= <-].
Qed.

(** ** The whole translation *)

Lemma for_each_split {A S : Type} (body : S -> A -> result S) pre x post s s' :
  for_each body (pre ++ x :: post) s = Ok s' ->
  exists a b, for_each body pre s = Ok a /\ body a x = Ok b
              /\ for_each body post b = Ok s'.
Proof.
  revert s. induction pre as [| y pre IH]; simpl; intros s H.
  - destruct (body s x) as [b |] eqn:E; simpl in H; [| discriminate].
    exists s, b. auto.
  - destruct (body s y) as [s1 |]; simpl in *; [| discriminate].
    now apply IH.
Qed.

Lemma for_each_invariant_in {A S : Type} (R : S -> S -> Prop)
    (body : S -> A -> result S) (l : list A) (s s' : S) :
  (forall a, R a a) ->
  (forall a b c, R a b -> R b c -> R a c) ->
  (forall a x b, In x l -> body a x = Ok b -> R a b) ->
  for_each body l s = Ok s' -> R s s'.
Proof.
  intros Hrefl Htrans. revert s.
  induction l as [| x l IH]; simpl; intros s Hbody H.
  - injection H as <-. apply Hrefl.
  - destruct (body s x) as [s1 |] eqn:E; simpl in H; [| discriminate].
    apply Htrans with s1.
    + apply (Hbody s x s1); [now left | exact E].
    + apply IH; [| exact H].
      intros a y b Hin Hy. apply (Hbody a y b); [now right | exact Hy].
Qed.

Lemma translate_inv t f r :
  translate t f = Ok r ->
  exists s1 s2,
    _transfer_attrs t (root_attrs f) "" (zarr_group []) = Ok s1
    /\ for_each (fun s item => _translator t s (snd item)) (items f) s1 = Ok s2
    /\ NoDup (keys s2)
    /\ refs_of r = map_values (final_entry t) s2.
Proof.
  unfold translate.
  destruct (_transfer_attrs _ _ _ _) as [s1 |] eqn:E1; simpl; [| discriminate].
  destruct (for_each _ (items f) s1) as [s2 |] eqn:E2; simpl; [| discriminate].
  assert (Hnd : NoDup (keys s2)).
  { eapply NoDup_visit; eauto. eapply NoDup_transfer_attrs; eauto.
    repeat constructor. simpl. tauto. }
  assert (Hinl : (if 0 <? inline t then _do_inline t (inline t) s2 else s2)
                 = map_values
                     (fun v => if 0 <? inline t
                               then inline_value t (inline t) v else v) s2).
  { destruct (0 <? inline t).
    - now apply _do_inline_map.
    - unfold map_values. rewrite <- (map_id s2) at 1.
      apply map_ext. now intros [k v]. }
  rewrite Hinl. intros H. exists s1, s2. repeat split; auto.
  unfold final_entry. destruct (spec t <? 1); injection H as <-; simpl.
  - reflexivity.
  - rewrite template_loop_map by now rewrite keys_map_values.
    unfold map_values. rewrite map_map. reflexivity.
Qed.

Lemma final_entry_not_inlined t u off size :
  inline t <= 0 -> final_entry t (Ref u off size) = Ref (if spec t <? 1 then u else "{{u}}") off size.
Proof.
  intros H. unfold final_entry.
  assert ((0 <? inline t) = false) as -> by (apply Z.ltb_ge; lia).
  now destruct (spec t <? 1).
Qed.

(** C3, amended. After [translate], for an array that the walk creates (not
    compact, not a dimension scale skipped for want of chunks) and that no
    later dataset overwrites, the chunk entries of the store are exactly
    one per item of the chunk map [_storage_info] returns: same number,
    pairwise distinct keys, each the reference [[url, offset, size]] with
    the offset and size reported, which the translator does not check, then
    passed through the Inliner when the threshold is positive. Without
    inlining every entry is a remote reference, and has offset >= 0 and
    length > 0 exactly when the reported values have. *)
Theorem translate_chunk_entries t f r pre nm d post cinfo :
  translate t f = Ok r ->
  items f = pre ++ (nm, IsDataset d) :: post ->
  (forall item, In item post ->
                overwrites (zarr_path (name d)) (snd item) = false) ->
  layout d <> COMPACT ->
  _storage_info d = Ok cinfo ->
  xr t && is_scale d && is_nil cinfo = false ->
  let path := zarr_path (name d) in
  let entries := chunk_entries path (refs_of r) in
  entries = map_values (final_entry t) (map (remote_of (uri t) path) cinfo)
  /\ List.length entries = List.length cinfo
  /\ NoDup (keys entries)
  /\ (inline t <= 0 ->
      entries = map (remote_of (final_url t) path) cinfo
      /\ forallb valid_remote (map snd entries)
         = forallb (fun item => (0 <=? fst (snd item))
                                && (0 <? snd (snd item))) cinfo).
Proof.
  intros Htr Hitems Hpost Hl Hc Hskip path entries.
  apply translate_inv in Htr as [s1 [s2 [_ [Hwalk [_ Hr]]]]].
  rewrite Hitems in Hwalk.
  apply for_each_split in Hwalk as [a [b [_ [Hd Hrest]]]]. simpl in Hd.
  assert (Hb : chunk_entries path b = map (remote_of (uri t) path) cinfo)
    by (eapply translator_chunk_entries; eauto).
  assert (Hs2 : chunk_entries path s2 = chunk_entries path b).
  { revert Hrest.
    apply (for_each_invariant_in
             (fun x y : store => chunk_entries path y = chunk_entries path x)).
    - reflexivity.
    - intros x y z H1 H2. congruence.
    - intros x item y Hin H.
      eapply translator_keeps_chunk_entries; eauto. }
  assert (He : entries
               = map_values (final_entry t)
                   (map (remote_of (uri t) path) cinfo)).
  { unfold entries. rewrite Hr, chunk_entries_map_values. congruence. }
  split; [exact He |]. split; [| split].
  - rewrite He. unfold map_values. now rewrite !length_map.
  - rewrite He, keys_map_values. apply NoDup_chunk_keys.
    eapply _storage_info_NoDup; eauto.
  - intros Hinl.
    assert (E : entries = map (remote_of (final_url t) path) cinfo).
    { rewrite He. unfold map_values. rewrite map_map.
      apply map_ext. intros [c [off size]]. unfold remote_of. simpl.
      now rewrite final_entry_not_inlined. }
    split; [exact E |]. rewrite E. apply valid_remote_of.
Qed.

(** C3, as stated, fails in two ways. A contiguous dataset whose storage is
    allocated with size 0 is reported as one triple and gets one entry of
    length 0; and with an inline threshold of 100 the two chunks of 31 and 29
    bytes of a gzip dataset end as inline values, not remote references. *)
Lemma chunk_entries_counterexample :
  (_storage_info empty_extent = Ok [([0], (2048, 0))]
   /\ ~ spec_chunk_entries "d" 1
          (store_of (translate (sample_translator 0 no_file)
                       (file_of empty_extent))))
  /\ (_storage_info gzip_plain = Ok [([0], (4096, 31)); ([1], (4127, 29))]
      /\ ~ spec_chunk_entries "d" 2
             (store_of (translate (sample_translator 100 (filled_file "A"))
                          (file_of gzip_plain)))).
Proof.
  split; (split; [reflexivity |]); intros [_ [H _]];
    vm_compute in H; discriminate.
Qed.

Lemma translate_chunk_entries_witness :
  exists r,
    translate (sample_translator 0 no_file) (file_of gzip_plain) = Ok r
    /\ chunk_entries "d" (refs_of r)
       = [("d/0", Ref "{{u}}" 4096 31); ("d/1", Ref "{{u}}" 4127 29)].
Proof.
  eexists. split; [reflexivity |].
  assert (Hl : layout gzip_plain <> COMPACT) by discriminate.
  destruct (translate_chunk_entries (sample_translator 0 no_file)
              (file_of gzip_plain) _ [] "d" gzip_plain []
              [([0], (4096, 31)); ([1], (4127, 29))]
              eq_refl eq_refl (fun item (H : In item []) => match H with end)
              Hl eq_refl eq_refl) as [_ [_ [_ H]]].
  destruct H as [H _]; [discriminate |]. exact H.
Defined.

(** ** C1: compact datasets *)

Lemma compact_skipped t s d :
  layout d = COMPACT -> _translator t s (IsDataset d) = Ok s.
Proof. intros H. simpl. now rewrite H. Qed.

(** C1 requires [translate] to fail on a compact dataset. The code builds
    the error without raising it and returns: the translation of a file
    whose only dataset is compact succeeds, and its store holds nothing for
    that dataset. *)
Theorem compact_dataset_not_rejected :
  layout compact_dataset = COMPACT
  /\ translate (sample_translator 0 no_file) (file_of compact_dataset)
     = Ok (Version1 1 [("u", "s3://bucket/a.h5")] [(".zgroup", Doc ZGroup)]).
Proof. split; reflexivity. Qed.

(** ** C2: the filter gate *)


Lemma for_each_error {A S : Type} (body : S -> A -> result S) l s e :
  for_each body l s = Raise e -> exists a x, In x l /\ body a x = Raise e.
Proof.
  revert s. induction l as [| y l IH]; simpl; intros s H; [discriminate |].
  destruct (body s y) as [s1 | e1] eqn:E; simpl in H.
  - destruct (IH s1 H) as [a [x [Hin Hx]]]. exists a, x. auto.
  - injection H as ->. exists s, y. auto.
Qed.

Lemma chunk_coords_error offsets sizes e :
  chunk_coords offsets sizes = Raise e -> e = ZeroDivisionError.
Proof.
  revert sizes. induction offsets as [| a l IH]; intros [| b sizes]; simpl;
    try discriminate.
  destruct (b =? 0); [now intros [= <-] |].
  destruct (chunk_coords l sizes) eqn:E; simpl; [discriminate |].
  intros [= <-]. eauto.
Qed.

Lemma _storage_info_error d e :
  _storage_info d = Raise e -> e = ZeroDivisionError.
Proof.
  unfold _storage_info. destruct (shape d); [| discriminate].
  destruct (chunks d) as [chunk_size |].
  - destruct (chunk_info d) as [| b blobs]; [discriminate |].
    intros H. apply for_each_error in H as [a [x [_ H]]].
    destruct (chunk_coords (chunk_offset x) chunk_size) eqn:E; simpl in H;
      [discriminate |].
    injection H as <-. eapply chunk_coords_error; eauto.
  - destruct (get_offset d); discriminate.
Qed.

Lemma _transfer_attrs_error t h5attrs path s e :
  _transfer_attrs t h5attrs path s = Raise e -> e = UnicodeDecodeError.
Proof.
  intros H. apply for_each_error in H as [a [[n v] [_ H]]].
  unfold transfer_attr in H. destruct (mem_string n _); [discriminate |].
  destruct (fix_value n v) as [v' | e'] eqn:E; simpl in H.
  - destruct (xr t && _); [discriminate |].
    destruct (json_ok v'); discriminate.
  - injection H as <-. destruct v as [[u |] | a0 | v0]; simpl in E;
      try discriminate; try congruence.
    destruct (String.eqb n "_FillValue"); [discriminate |].
    destruct (nd_flat a0) as [| x [| y l]]; discriminate.
Qed.

Lemma _get_array_dims_error d e :
  _get_array_dims d = Raise e ->
  e = TypeError \/ e = RuntimeError "dimension scales attached to dimension".
Proof.
  unfold _get_array_dims. destruct (shape d); [| intros [= <-]; auto].
  intros H. apply for_each_error in H as [a [n [_ H]]]. unfold dims_step in H.
  destruct (List.length (dims d n) =? 1)%nat; [discriminate |].
  destruct (is_scale d); [discriminate |].
  destruct (1 <? List.length (dims d n))%nat; [| discriminate].
  injection H as <-. auto.
Qed.

Lemma attach_dims_error t d path s e :
  attach_dims t d path s = Raise e ->
  e = TypeError \/ e = RuntimeError "dimension scales attached to dimension".
Proof.
  unfold attach_dims. destruct (xr t); [| discriminate].
  destruct (_get_array_dims d) eqn:E; simpl; [discriminate |].
  intros [= <-]. eapply _get_array_dims_error; eauto.
Qed.

(** ** C10: the dimension names of an array *)

Lemma _get_array_dims_loop d l acc r :
  for_each (dims_step d) l acc = Ok r ->
  r = acc ++ flat_map (axis_names d) l.
Proof.
  revert acc. induction l as [| n l IH]; simpl; intros acc H.
  - injection H as <-. now rewrite app_nil_r.
  - unfold axis_names at 1. unfold dims_step at 1 in H.
    destruct (List.length (dims d n) =? 1)%nat; simpl in H.
    + apply IH in H. now rewrite <- app_assoc in H.
    + destruct (is_scale d); simpl in H.
      * apply IH in H. now rewrite <- app_assoc in H.
      * destruct (1 <? List.length (dims d n))%nat; simpl in H;
          [discriminate | now apply IH in H].
Qed.

Lemma _get_array_dims_total d l acc :
  is_scale d = false ->
  (forall n, In n l -> (List.length (dims d n) <= 1)%nat) ->
  exists r,
    for_each (dims_step d) l acc = Ok r.
Proof.
  intros Hs. revert acc. induction l as [| n l IH]; simpl; intros acc Hl.
  - eauto.
  - unfold dims_step at 1.
    destruct (List.length (dims d n) =? 1)%nat eqn:E1; simpl.
    + apply IH. auto.
    + rewrite Hs.
      assert ((1 <? List.length (dims d n))%nat = false) as ->.
      { apply Nat.ltb_ge. apply Hl. now left. }
      simpl. apply IH. auto.
Qed.

Lemma axis_names_length d n : (List.length (axis_names d n) <= 1)%nat.
Proof.
  unfold axis_names. destruct (_ =? 1)%nat; simpl; auto.
  destruct (is_scale d); simpl; auto.
Qed.

Lemma flat_map_axis_names_length d l :
  (List.length (flat_map (axis_names d) l) <= List.length l)%nat.
Proof.
  induction l as [| n l IH]; simpl; auto.
  rewrite length_app. pose proof (axis_names_length d n). lia.
Qed.

Lemma flat_map_axis_names_short d l n :
  In n l -> axis_names d n = [] ->
  (List.length (flat_map (axis_names d) l) < List.length l)%nat.
Proof.
  induction l as [| m l IH]; simpl; [tauto |].
  intros [-> | Hin] Hn; rewrite length_app.
  - rewrite Hn. simpl. pose proof (flat_map_axis_names_length d l). lia.
  - pose proof (axis_names_length d m). specialize (IH Hin Hn). lia.
Qed.

Lemma sget_write_chunks_other url path cinfo s k :
  is_chunk_key path k = false ->
  sget k (write_chunks url path cinfo s) = sget k s.
Proof.
  intros Hk. unfold write_chunks. revert s.
  induction cinfo as [| kv l IH]; simpl; intros s; auto.
  rewrite IH. apply sget_sset_neq. intros ->.
  now rewrite is_chunk_key_chunk_key in Hk.
Qed.

Lemma attrs_of_attrs_set path n v s :
  sget n (attrs_of path (attrs_set path n v s)) = Some v.
Proof.
  unfold attrs_of at 1. unfold attrs_set. rewrite sget_sset_eq.
  apply sget_sset_eq.
Qed.

(** C10. For an array of rank r, the list [_get_array_dims] returns has at
    most r names. When the array is not a dimension scale and no axis has
    more than one scale, the call succeeds with one name for each axis that
    has exactly one scale; an axis without scale adds nothing, so the list
    is then shorter than r. In xarray mode this list is what the visitor
    stores as [_ARRAY_DIMENSIONS]. *)
Theorem array_dims_at_most_rank d shp :
  shape d = Some shp ->
  (forall adims, _get_array_dims d = Ok adims ->
                 adims = flat_map (axis_names d) (seq 0 (List.length shp))
                 /\ (List.length adims <= List.length shp)%nat)
  /\ (is_scale d = false ->
      (forall n, (n < List.length shp)%nat ->
                 (List.length (dims d n) <= 1)%nat) ->
      exists adims,
        _get_array_dims d = Ok adims
        /\ ((exists n, (n < List.length shp)%nat /\ dims d n = []) ->
            (List.length adims < List.length shp)%nat))
  /\ (forall t s s' cinfo,
          xr t = true -> layout d <> COMPACT ->
          _storage_info d = Ok cinfo ->
          is_scale d && is_nil cinfo = false ->
          _translator t s (IsDataset d) = Ok s' ->
          exists adims,
            _get_array_dims d = Ok adims
            /\ sget "_ARRAY_DIMENSIONS" (attrs_of (zarr_path (name d)) s')
               = Some (PStrList adims)).
Proof.
  intros Hshape.
  assert (Hspec : forall adims, _get_array_dims d = Ok adims ->
            adims = flat_map (axis_names d) (seq 0 (List.length shp))).
  { intros adims H. unfold _get_array_dims in H. rewrite Hshape in H.
    now apply _get_array_dims_loop in H. }
  split; [| split].
  - intros adims H. apply Hspec in H. split; auto. subst adims.
    etransitivity; [apply flat_map_axis_names_length |].
    now rewrite length_seq.
  - intros Hscale Hone.
    destruct (_get_array_dims_total d (seq 0 (List.length shp)) [] Hscale)
      as [r Hr].
    { intros n Hn. apply in_seq in Hn. apply Hone. lia. }
    exists r. unfold _get_array_dims. rewrite Hshape. split; auto.
    intros [n [Hn Hnil]].
    assert (E : r = flat_map (axis_names d) (seq 0 (List.length shp))).
    { apply Hspec. unfold _get_array_dims. now rewrite Hshape. }
    rewrite E.
    pose proof (flat_map_axis_names_short d (seq 0 (List.length shp)) n) as F.
    rewrite length_seq in F. apply F.
    + apply in_seq. lia.
    + unfold axis_names. rewrite Hnil, Hscale. reflexivity.
  - intros t s s' cinfo Hxr Hl Hc Hskip H.
    apply translator_dataset_inv in H as [_ [cinfo' [Hc' H]]]; auto.
    assert (cinfo' = cinfo) by congruence. subst cinfo'.
    rewrite Hxr in H. simpl in H.
    destruct H as [[Habs _] | [_ [s1 [s2 [H1 [H2 ->]]]]]]; [congruence |].
    unfold attach_dims in H2. rewrite Hxr in H2.
    destruct (_get_array_dims d) as [adims |]; simpl in H2; [| discriminate].
    injection H2 as <-. exists adims. split; auto.
    unfold attrs_of at 1.
    rewrite sget_write_chunks_other by now apply is_chunk_key_document.
    apply attrs_of_attrs_set.
Qed.

Lemma array_dims_at_most_rank_witness :
  _get_array_dims half_labelled = Ok ["time"]
  /\ (List.length ["time"] < 2)%nat.
Proof.
  destruct (array_dims_at_most_rank half_labelled [4; 6] eq_refl)
    as [_ [H _]].
  assert (Hone : forall n, (n < 2)%nat ->
                 (List.length (dims half_labelled n) <= 1)%nat).
  { intros [| [| n]] Hn; simpl in *; lia. }
  destruct (H eq_refl Hone) as [adims [H1 H2]].
  assert (E : adims = ["time"]).
  { assert (G : _get_array_dims half_labelled = Ok ["time"]) by reflexivity.
    rewrite G in H1. now injection H1. }
  subst adims. split; [reflexivity |]. apply H2. exists 1%nat.
  split; [simpl; lia | reflexivity].
Defined.

(** ** C9: the Inliner is idempotent *)

(** C9. Running [_do_inline] a second time with the same threshold leaves
    the store as the first run made it: the values the first run wrote are
    bytes, not lists, and the references it kept are not below the
    threshold. *)
Theorem do_inline_idempotent t threshold s :
  NoDup (keys s) ->
  _do_inline t threshold (_do_inline t threshold s) = _do_inline t threshold s
  /\ forall k v, In (k, v) (_do_inline t threshold s) ->
                 inline_value t threshold v = v.
Proof.
  intros Hnd.
  rewrite (_do_inline_map t threshold s) by assumption.
  rewrite _do_inline_map by now rewrite keys_map_values.
  split.
  - unfold map_values. rewrite map_map. apply map_ext. intros [k v]. simpl.
    now rewrite inline_value_idem.
  - intros k v Hin. unfold map_values in Hin.
    apply in_map_iff in Hin as [[k0 v0] [E _]]. injection E as _ <-.
    apply inline_value_idem.
Qed.

Lemma do_inline_idempotent_witness :
  _do_inline (sample_translator 100 (filled_file "200")) 100
    (_do_inline (sample_translator 100 (filled_file "200")) 100 mixed_store)
  = [ ("v/.zarray", Doc (ZArray (Some [10]) "<f8" (Some [5]) (PInt 0) None));
      ("v/0", Bytes "base64:yMjI");
      ("v/1", Ref "s3://bucket/a.h5" 403 4000) ].
Proof.
  assert (Hnd : NoDup (keys mixed_store)).
  { repeat constructor; simpl; intuition discriminate. }
  destruct (do_inline_idempotent (sample_translator 100 (filled_file "200"))
              100 mixed_store Hnd) as [H _].
  rewrite H. reflexivity.
Defined.

(** ** C8: inline values decode to the bytes read *)

Lemma index_of_char_of s : Base64.index_of (Base64.char_of s) = Some s.
Proof.
  destruct s as [[[[[a b] c] d] e] f].
  destruct a, b, c, d, e, f; reflexivity.
Qed.

Lemma char_of_not_pad s : Ascii.eqb (Base64.char_of s) Base64.pad = false.
Proof.
  destruct s as [[[[[a b] c] d] e] f].
  destruct a, b, c, d, e, f; reflexivity.
Qed.

Lemma string_ind3 (P : string -> Prop) :
  P "" ->
  (forall x, P (String x "")) ->
  (forall x y, P (String x (String y ""))) ->
  (forall x y z r, P r -> P (String x (String y (String z r)))) ->
  forall s, P s.
Proof.
  intros H0 H1 H2 H3 s.
  assert (Q : P s /\ (forall x, P (String x s))
              /\ (forall x y, P (String x (String y s)))).
  { induction s as [| c s [IH0 [IH1 IH2]]]; auto. }
  apply Q.
Qed.

Lemma b64decode_group a b c d r :
  Ascii.eqb (Base64.char_of d) Base64.pad = false ->
  Base64.b64decode
    (String (Base64.char_of a) (String (Base64.char_of b)
       (String (Base64.char_of c) (String (Base64.char_of d) r))))
  = match Base64.b64decode r with
    | Some rest => Some (Base64.dec3 a b c d +++ rest)
    | None => None
    end.
Proof.
  intros Hd. cbn [Base64.b64decode].
  rewrite !index_of_char_of, Hd. reflexivity.
Qed.

Lemma b64_roundtrip data :
  Base64.b64decode (Base64.b64encode data) = Some data.
Proof.
  induction data as [| x | x y | x y z r IH] using string_ind3.
  - reflexivity.
  - destruct x as [x0 x1 x2 x3 x4 x5 x6 x7].
    cbn [Base64.b64encode Base64.enc1 Base64.b64decode].
    rewrite !index_of_char_of. reflexivity.
  - destruct x as [x0 x1 x2 x3 x4 x5 x6 x7].
    destruct y as [y0 y1 y2 y3 y4 y5 y6 y7].
    cbn [Base64.b64encode Base64.enc2 Base64.b64decode].
    rewrite !index_of_char_of. rewrite char_of_not_pad.
    rewrite Ascii.eqb_refl. reflexivity.
  - destruct x as [x0 x1 x2 x3 x4 x5 x6 x7].
    destruct y as [y0 y1 y2 y3 y4 y5 y6 y7].
    destruct z as [z0 z1 z2 z3 z4 z5 z6 z7].
    cbn [Base64.b64encode Base64.enc3 String.append].
    rewrite b64decode_group by apply char_of_not_pad.
    rewrite IH. reflexivity.
Qed.

(** *** Inline values are ASCII *)

Lemma char_of_ascii s : ascii_char (Base64.char_of s) = true.
Proof.
  destruct s as [[[[[a b] c] d] e] f].
  destruct a, b, c, d, e, f; reflexivity.
Qed.

Lemma is_ascii_append a b : is_ascii (a +++ b) = is_ascii a && is_ascii b.
Proof. induction a; simpl; auto. rewrite IHa. now rewrite andb_assoc. Qed.

Lemma b64encode_ascii data : is_ascii (Base64.b64encode data) = true.
Proof.
  induction data as [| x | x y | x y z r IH] using string_ind3.
  - reflexivity.
  - destruct x as [x0 x1 x2 x3 x4 x5 x6 x7].
    cbn [Base64.b64encode Base64.enc1 is_ascii].
    now rewrite !char_of_ascii.
  - destruct x as [x0 x1 x2 x3 x4 x5 x6 x7].
    destruct y as [y0 y1 y2 y3 y4 y5 y6 y7].
    cbn [Base64.b64encode Base64.enc2 is_ascii].
    now rewrite !char_of_ascii.
  - destruct x as [x0 x1 x2 x3 x4 x5 x6 x7].
    destruct y as [y0 y1 y2 y3 y4 y5 y6 y7].
    destruct z as [z0 z1 z2 z3 z4 z5 z6 z7].
    cbn [Base64.b64encode Base64.enc3]. rewrite is_ascii_append, IH.
    cbn [is_ascii]. now rewrite !char_of_ascii.
Qed.

(** What the Inliner stores always decodes as text, so the [v.decode()] of
    [translate] cannot fail on it. *)
Lemma inline_encode_ascii data : is_ascii (inline_encode data) = true.
Proof.
  unfold inline_encode. destruct (is_ascii data) eqn:E; auto.
  rewrite is_ascii_append, b64encode_ascii. reflexivity.
Qed.

Lemma substring_all s : String.substring 0 (String.length s) s = s.
Proof. induction s; simpl; congruence. Qed.

Lemma inline_decode_encode data :
  (is_ascii data = true -> startswith data base64_tag = false) ->
  inline_decode (inline_encode data) = Some data.
Proof.
  intros H. unfold inline_encode, inline_decode.
  destruct (is_ascii data).
  - now rewrite H.
  - unfold base64_tag. rewrite startswith_append.
    cbn [String.append String.length Nat.sub String.substring].
    rewrite Nat.sub_0_r, substring_all. apply b64_roundtrip.
Qed.

Lemma sget_map_values g s k v :
  NoDup (keys s) -> In (k, v) s -> sget k (map_values g s) = Some (g v).
Proof.
  intros Hnd Hin. apply in_sget.
  - now rewrite keys_map_values.
  - unfold map_values. apply in_map_iff. exists (k, v). auto.
Qed.

(** C8, as stated, fails: bytes that are ASCII text and begin with
    [base64:] are stored as they are, and the decoder takes them for a
    tagged value. *)
Lemma inline_roundtrip_counterexample :
  ~ spec_inline_roundtrip (sample_translator 100 tagged_text_file) 100
      tagged_text_store.
Proof.
  intros H.
  destruct (H "v/0" "s3://bucket/a.h5" 0 11) as [b [H1 H2]].
  - now left.
  - reflexivity.
  - vm_compute in H1. injection H1 as <-. vm_compute in H2. discriminate.
Qed.

(** C8, amended. Every remote reference whose length is below the threshold
    is replaced by the inline encoding of the bytes read, and decoding the
    stored value gives these bytes back, provided they are not ASCII text
    that itself begins with the tag [base64:]. *)
Theorem inline_roundtrip t threshold s k u off size :
  NoDup (keys s) ->
  In (k, Ref u off size) s ->
  size < threshold ->
  (is_ascii (read_at t off size) = true ->
   startswith (read_at t off size) base64_tag = false) ->
  exists b,
    sget k (_do_inline t threshold s) = Some (Bytes b)
    /\ b = inline_encode (read_at t off size)
    /\ inline_decode b = Some (read_at t off size).
Proof.
  intros Hnd Hin Hlt Htag.
  exists (inline_encode (read_at t off size)). split; [| split]; auto.
  - rewrite _do_inline_map by assumption.
    erewrite sget_map_values by eauto. simpl.
    apply Z.ltb_lt in Hlt. now rewrite Hlt.
  - now apply inline_decode_encode.
Qed.

Lemma inline_roundtrip_witness :
  sget "v/0" (_do_inline (sample_translator 100 (filled_file "200")) 100
                mixed_store) = Some (Bytes "base64:yMjI")
  /\ inline_decode "base64:yMjI" = Some (fill "200" 3).
Proof.
  assert (Hnd : NoDup (keys mixed_store)).
  { repeat constructor; simpl; intuition discriminate. }
  destruct (inline_roundtrip (sample_translator 100 (filled_file "200")) 100
              mixed_store "v/0" "s3://bucket/a.h5" 400 3 Hnd)
    as [b [H1 [H2 H3]]].
  - right. now left.
  - reflexivity.
  - discriminate.
  - subst b. split; [exact H1 | exact H3].
Defined.

(** ** posixpath.split *)

Lemma split_last_free t : free_of "/" t = true -> split_last t = ("", t).
Proof.
  induction t as [| c t IH]; simpl; auto.
  unfold free_of. simpl. rewrite andb_true_iff. intros [Hc Ht].
  rewrite (IH Ht). unfold is_slash. apply negb_true_iff in Hc. now rewrite Hc.
Qed.

Lemma split_last_spec p :
  p = fst (split_last p) +++ snd (split_last p)
  /\ free_of "/" (snd (split_last p)) = true.
Proof.
  induction p as [| c p [IH1 IH2]]; simpl; auto.
  destruct (split_last p) as [h t]. simpl in *.
  destruct h as [| a h]; simpl in *.
  - destruct (is_slash c) eqn:E; simpl.
    + split; [congruence | assumption].
    + split; [congruence |]. unfold free_of in *. simpl.
      unfold is_slash in E. now rewrite E.
  - split; [congruence | assumption].
Qed.

Lemma split_last_append v t :
  free_of "/" t = true -> split_last (v +++ String "/" t) = (v +++ "/", t).
Proof.
  intros Ht. induction v as [| c v IH]; simpl.
  - now rewrite (split_last_free t Ht).
  - rewrite IH. destruct v; reflexivity.
Qed.

Lemma rstrip_append_slash v : rstrip_slash (v +++ "/") = rstrip_slash v.
Proof. induction v as [| c v IH]; simpl; auto. now rewrite IH. Qed.

Lemma rstrip_fixed v : ends_with_slash v = false -> rstrip_slash v = v.
Proof.
  induction v as [| c v IH]; simpl; auto.
  destruct v as [| a v].
  - simpl. now intros ->.
  - intros H. rewrite (IH H). reflexivity.
Qed.

Lemma ends_with_slash_rstrip s : ends_with_slash (rstrip_slash s) = false.
Proof.
  induction s as [| c s IH]; simpl; auto.
  destruct (rstrip_slash s) as [| a r] eqn:E.
  - destruct (is_slash c) eqn:F; simpl; auto.
  - simpl in *. exact IH.
Qed.

Lemma rstrip_prefix s : exists z, s = rstrip_slash s +++ z.
Proof.
  induction s as [| c s [z IH]]; simpl.
  - now exists "".
  - destruct (rstrip_slash s) as [| a r] eqn:E.
    + destruct (is_slash c); simpl.
      * now exists (String c s).
      * exists s. reflexivity.
    + exists z. simpl in *. congruence.
Qed.

Lemma all_slashes_append a b :
  all_slashes (a +++ b) = all_slashes a && all_slashes b.
Proof. induction a; simpl; auto. rewrite IHa. now rewrite andb_assoc. Qed.

Lemma path_split_tail_free p : free_of "/" (snd (path_split p)) = true.
Proof.
  unfold path_split. pose proof (split_last_spec p) as [_ H].
  destruct (split_last p) as [h t]. simpl in H.
  destruct h; simpl; auto. destruct (_ && _); auto.
Qed.

Lemma path_split_head p :
  all_slashes (fst (path_split p)) = true
  \/ ends_with_slash (fst (path_split p)) = false.
Proof.
  unfold path_split. destruct (split_last p) as [h t].
  destruct h as [| a h]; simpl; auto.
  destruct (is_slash a && all_slashes h) eqn:E; simpl; auto.
  right. apply (ends_with_slash_rstrip (String a h)).
Qed.

Lemma path_split_startswith p : startswith p (fst (path_split p)) = true.
Proof.
  unfold path_split. pose proof (split_last_spec p) as [H _].
  destruct (split_last p) as [h t]. simpl in H.
  destruct h as [| a h]; [apply startswith_strip; now exists p |].
  destruct (all_slashes (String a h)); simpl fst.
  - rewrite H. apply startswith_append.
  - destruct (rstrip_prefix (String a h)) as [z Hz].
    apply startswith_strip. exists (z +++ t).
    rewrite H. rewrite Hz at 1. apply append_assoc.
Qed.

Lemma path_split_joined v t :
  free_of "/" t = true ->
  path_split (v +++ String "/" t)
  = (if all_slashes v then v +++ "/" else rstrip_slash v, t).
Proof.
  intros Ht. unfold path_split. rewrite (split_last_append v t Ht).
  destruct (v +++ "/") as [| a r] eqn:E; [destruct v; discriminate |].
  rewrite <- E. rewrite all_slashes_append. simpl. rewrite andb_true_r.
  destruct (all_slashes v); auto. now rewrite rstrip_append_slash.
Qed.

(** *** Rewritten keys *)

Lemma rewrite_key_shape start i part :
  rewrite_key start i part
  = start +++ String "/" (str_of_Z (Z.of_nat i) +++ String "." part).
Proof. reflexivity. Qed.

Lemma rewrite_key_tail_free i part :
  free_of "/" part = true ->
  free_of "/" (str_of_Z (Z.of_nat i) +++ String "." part) = true.
Proof.
  intros H. rewrite free_of_append, str_of_Z_slash_free. simpl.
  unfold free_of in *. simpl. exact H.
Qed.

Lemma rewrite_key_inj s i p s' j q :
  free_of "/" p = true -> free_of "/" q = true ->
  rewrite_key s i p = rewrite_key s' j q -> s = s' /\ i = j /\ p = q.
Proof.
  intros Hp Hq E. rewrite !rewrite_key_shape in E.
  apply split_last_unique in E; auto using rewrite_key_tail_free.
  destruct E as [-> E]. split; auto.
  apply split_first_unique in E; auto using str_of_Z_dot_free.
  destruct E as [E ->]. apply str_of_Z_inj in E. split; auto.
  now apply Nat2Z.inj.
Qed.

Lemma path_split_rewrite_key start i part :
  free_of "/" part = true ->
  (all_slashes start = true \/ ends_with_slash start = false) ->
  fst (path_split (rewrite_key start i part)) = start
  \/ all_slashes (fst (path_split (rewrite_key start i part))) = true.
Proof.
  intros Hp Hs. rewrite rewrite_key_shape.
  rewrite path_split_joined by now apply rewrite_key_tail_free.
  simpl. destruct (all_slashes start) eqn:E.
  - right. now rewrite all_slashes_append, E.
  - left. destruct Hs as [Hs | Hs]; [discriminate |]. now apply rstrip_fixed.
Qed.

(** ** _build_output *)

Lemma fold_left_preserves {A B : Type} (f : A -> B -> A) (P : A -> Prop) l a :
  P a -> (forall a b, P a -> P (f a b)) -> P (fold_left f l a).
Proof.
  intros Ha Hf. revert a Ha. induction l as [| b l IH]; simpl; auto.
Qed.

Lemma place_reference_target variable same i out kv :
  place_reference variable same i out kv
  = match target_key variable same i (fst kv) with
    | Some K => sset K (snd kv) out
    | None => out
    end.
Proof.
  unfold place_reference, target_key.
  destruct (path_split (fst kv)) as [start part].
  destruct (negb _ || _); auto. now destruct same.
Qed.

Lemma target_key_inv variable same i k K :
  target_key variable same i k = Some K ->
  fst (path_split k) = variable
  /\ mem_string (snd (path_split k)) metadata_names = false
  /\ K = if same then k else rewrite_key variable i (snd (path_split k)).
Proof.
  unfold target_key. destruct (path_split k) as [start part]. cbn [fst snd].
  destruct (String.eqb_spec start variable); cbn [negb orb]; [| discriminate].
  destruct (mem_string part metadata_names); [discriminate |].
  intros [= <-]. subst. auto.
Qed.

Lemma target_key_some variable same i k :
  fst (path_split k) = variable ->
  mem_string (snd (path_split k)) metadata_names = false ->
  target_key variable same i k
  = Some (if same then k else rewrite_key variable i (snd (path_split k))).
Proof.
  unfold target_key. destruct (path_split k) as [start part]. cbn [fst snd].
  intros -> ->. now rewrite String.eqb_refl.
Qed.

(** A key of another array is never a target. *)
Lemma target_key_foreign variable same i k0 K k dim :
  target_key variable same i k0 = Some K ->
  fst (path_split k) = dim -> all_slashes dim = false -> variable <> dim ->
  K <> k.
Proof.
  intros HK Hk Hdim Hne E. subst K.
  apply target_key_inv in HK as [Hv [_ HK]].
  destruct same.
  - subst k0. congruence.
  - pose proof (path_split_rewrite_key variable i (snd (path_split k0))
                  (path_split_tail_free k0)) as H.
    rewrite <- HK in H. rewrite Hk in H.
    destruct H as [H | H]; try congruence.
    rewrite <- Hv. apply path_split_head.
Qed.

Lemma sget_place_variable_other variable same fss out k :
  (forall i k0 K, target_key variable same i k0 = Some K -> K <> k) ->
  sget k (place_variable variable same fss out) = sget k out.
Proof.
  intros Hother. unfold place_variable.
  apply (fold_left_preserves _ (fun o => sget k o = sget k out)); auto.
  intros a [i fs] Ha. simpl.
  apply (fold_left_preserves _ (fun o => sget k o = sget k out)); auto.
  intros b kv Hb. rewrite place_reference_target.
  destruct (target_key variable same i (fst kv)) as [K |] eqn:E; auto.
  rewrite sget_sset_neq; auto. intros ->. eapply Hother; eauto.
Qed.

Lemma copy_variables_other ds ds0 fss out out' k dim :
  copy_variables ds ds0 fss out = Ok out' ->
  fst (path_split k) = dim -> all_slashes dim = false ->
  In dim (keys (ds_dims ds)) ->
  sget k out' = sget k out.
Proof.
  intros H Hk Hdim Hin. revert H. unfold copy_variables.
  apply (for_each_invariant (fun a b : store => sget k b = sget k a)).
  - reflexivity.
  - intros a b c H1 H2. congruence.
  - intros a variable b.
    destruct (smem variable (ds_dims ds)) eqn:Hmem; [now intros [= <-] |].
    destruct (sget variable (ds_variables ds)) as [var |]; [| discriminate].
    destruct (sget variable (ds_variables ds0)) as [var0 |]; [| discriminate].
    destruct (strings_eqb _ _); [| discriminate].
    intros [= <-]. apply sget_place_variable_other.
    intros i k0 K HK. eapply target_key_foreign; eauto.
    intros ->. apply smem_true_iff in Hin. congruence.
Qed.

Lemma sget_filter_key {V : Type} (p : string -> bool) (d : dict string V) k :
  sget k (filter (fun kv => p (fst kv)) d) = if p k then sget k d else None.
Proof.
  unfold sget. induction d as [| [k0 v0] d IH]; simpl.
  - now destruct (p k).
  - destruct (p k0) eqn:E0; simpl.
    + destruct (String.eqb_spec k k0).
      * subst. now rewrite E0.
      * exact IH.
    + destruct (String.eqb_spec k k0).
      * subst. rewrite E0 in *. exact IH.
      * exact IH.
Qed.

Lemma sget_supdate {V : Type} (items d : dict string V) k :
  NoDup (keys items) ->
  sget k (supdate items d)
  = match sget k items with Some e => Some e | None => sget k d end.
Proof.
  unfold supdate, dict_update. fold (@sset V). revert d.
  induction items as [| [k0 v0] items IH]; simpl; intros d Hnd; auto.
  inversion Hnd as [| ? ? Hnot Hnd']; subst.
  rewrite IH by assumption. unfold sget at 3. simpl. fold (@sget V).
  destruct (String.eqb_spec k k0).
  - subst. rewrite (sget_notin k0 items Hnot). apply sget_sset_eq.
  - destruct (sget k items); auto. now apply sget_sset_neq.
Qed.

Lemma copy_shared_get shared fs0 rest seed out k :
  copy_shared shared (fs0 :: rest) seed = Ok out ->
  NoDup (keys fs0) ->
  sget k out
  = if existsb (startswith k) shared
    then match sget k fs0 with Some e => Some e | None => sget k seed end
    else sget k seed.
Proof.
  intros H Hnd. revert seed H. unfold copy_shared.
  induction shared as [| dim shared IH]; simpl; intros seed H.
  - now injection H as <-.
  - apply IH in H. rewrite H.
    rewrite sget_supdate by now apply NoDup_keys_filter.
    rewrite (sget_filter_key (fun key => startswith key dim)).
    destruct (startswith k dim); simpl.
    + destruct (sget k fs0); destruct (existsb _ shared); reflexivity.
    + reflexivity.
Qed.

Lemma fold_left_establish {A B : Type} (f : A -> B -> A) (P : A -> Prop)
    (x : B) l a :
  (forall a y, In y l -> P a -> P (f a y)) ->
  (forall a, P (f a x)) ->
  P a \/ In x l -> P (fold_left f l a).
Proof.
  revert a. induction l as [| y l IH]; simpl; intros a Hkeep Hset H.
  - tauto.
  - apply IH; auto.
    destruct H as [H | [-> | H]]; auto.
Qed.

Lemma for_each_establish {A S : Type} (body : S -> A -> result S)
    (P : S -> Prop) (x : A) l s s' :
  (forall a y b, body a y = Ok b -> P a -> P b) ->
  (forall a b, body a x = Ok b -> P b) ->
  for_each body l s = Ok s' ->
  P s \/ In x l -> P s'.
Proof.
  intros Hkeep Hset. revert s. induction l as [| y l IH]; simpl; intros s H Hs.
  - injection H as <-. tauto.
  - destruct (body s y) as [s1 |] eqn:E; simpl in H; [| discriminate].
    apply (IH s1 H). destruct Hs as [Hs | [-> | Hs]]; eauto.
Qed.

Lemma in_enumerate {A : Type} (l : list A) j x :
  In (j, x) (enumerate l) <-> nth_error l j = Some x.
Proof.
  unfold enumerate.
  assert (G : forall a, In (j, x) (combine (seq a (List.length l)) l)
                        <-> (a <= j)%nat /\ nth_error l (j - a) = Some x).
  { induction l as [| y l IH]; intros a; simpl.
    - split; [tauto | intros [_ H]]. destruct (j - a)%nat; discriminate.
    - rewrite IH. split.
      + intros [[= <- <-] | [Hle H]].
        * rewrite Nat.sub_diag. auto.
        * split; [lia |]. replace (j - a)%nat with (S (j - S a)) by lia. auto.
      + intros [Hle H]. destruct (Nat.eq_dec a j) as [-> | Hne].
        * rewrite Nat.sub_diag in H. simpl in H. injection H as ->. auto.
        * right. split; [lia |].
          replace (j - a)%nat with (S (j - S a)) in H by lia. auto. }
  rewrite G, Nat.sub_0_r. split; [tauto | split; [lia | assumption]].
Qed.

Lemma fold_left_preserves_in {A B : Type} (f : A -> B -> A) (P : A -> Prop)
    l a :
  P a -> (forall a y, In y l -> P a -> P (f a y)) -> P (fold_left f l a).
Proof.
  revert a.
  induction l as [| y l IH]; simpl; intros a Ha Hf; [exact Ha | apply IH; auto].
Qed.

(** The value under a rewritten key is the one of the source it names. *)
Lemma place_variable_value variable fss out i fs k e :
  nth_error fss i = Some fs -> In (k, e) fs ->
  fst (path_split k) = variable -> is_document k = false ->
  (forall k' e', In (k', e') fs -> path_split k' = path_split k -> e' = e) ->
  sget (rewrite_key variable i (snd (path_split k)))
    (place_variable variable false fss out) = Some e.
Proof.
  intros Hi Hin Hk Hdoc Huniq. unfold place_variable.
  set (K := rewrite_key variable i (snd (path_split k))).
  assert (Hwrite : forall j fs' k' e' b,
             nth_error fss j = Some fs' -> In (k', e') fs' ->
             sget K b = Some e ->
             sget K (place_reference variable false j b (k', e')) = Some e).
  { intros j fs' k' e' b Hj Hin' Hb. rewrite place_reference_target. simpl.
    destruct (target_key variable false j k') as [K' |] eqn:E; auto.
    destruct (String.eqb_spec K K') as [<- | Hne];
      [| now rewrite sget_sset_neq].
    rewrite sget_sset_eq. f_equal.
    apply target_key_inv in E as [Hv [_ E]]. unfold K in E.
    apply rewrite_key_inj in E; auto using path_split_tail_free.
    destruct E as [_ [<- E]].
    assert (fs' = fs) by congruence. subst fs'.
    apply (Huniq k'); auto.
    rewrite (surjective_pairing (path_split k')),
            (surjective_pairing (path_split k)). congruence. }
  apply (fold_left_establish _ (fun o => sget K o = Some e) (i, fs)).
  - intros a [j fs'] Hj Ha. simpl.
    apply in_enumerate in Hj.
    apply (fold_left_preserves_in _ (fun o => sget K o = Some e)); auto.
    intros b [k' e'] Hin' Hb. eapply Hwrite; eauto.
  - intros a. simpl.
    apply (fold_left_establish _ (fun o => sget K o = Some e) (k, e)); auto.
    + intros b [k' e'] Hin' Hb. eapply Hwrite; eauto.
    + intros b. rewrite place_reference_target. simpl.
      rewrite target_key_some; auto. apply sget_sset_eq.
  - right. now apply in_enumerate.
Qed.

Lemma keys_place_reference variable same i out kv K :
  In K (keys out) -> In K (keys (place_reference variable same i out kv)).
Proof.
  intros H. rewrite place_reference_target.
  destruct (target_key _ _ _ _); auto. now apply keys_sset_incl.
Qed.

Lemma place_variable_key variable same fss out i fs k e K :
  nth_error fss i = Some fs -> In (k, e) fs ->
  target_key variable same i k = Some K ->
  In K (keys (place_variable variable same fss out)).
Proof.
  intros Hi Hin HK. unfold place_variable.
  apply (fold_left_establish _ (fun o => In K (keys o)) (i, fs)).
  - intros a [j fs'] _ Ha. simpl.
    apply (fold_left_preserves _ (fun o => In K (keys o))); auto.
    intros b kv Hb. now apply keys_place_reference.
  - intros a. simpl.
    apply (fold_left_establish _ (fun o => In K (keys o)) (k, e)); auto.
    + intros b kv _ Hb. now apply keys_place_reference.
    + intros b. rewrite place_reference_target. simpl. rewrite HK.
      apply keys_sset_self.
  - right. now apply in_enumerate.
Qed.

Lemma keys_place_variable variable same fss out K :
  In K (keys out) -> In K (keys (place_variable variable same fss out)).
Proof.
  intros H. unfold place_variable.
  apply (fold_left_preserves _ (fun o => In K (keys o))); auto.
  intros a [j fs'] Ha. simpl.
  apply (fold_left_preserves _ (fun o => In K (keys o))); auto.
  intros b kv Hb. now apply keys_place_reference.
Qed.

(** What the loop over the variables does for one of them. *)
Lemma copy_variables_step ds ds0 fss variable a b :
  (if smem variable (ds_dims ds) then Ok a
   else
     match sget variable (ds_variables ds),
           sget variable (ds_variables ds0) with
     | Some var, Some var0 =>
         if strings_eqb
              (last_slice (List.length (var_dims var0)) (var_dims var))
              (var_dims var0)
         then Ok (place_variable variable
                    (shape_eqb (var_shape var) (var_shape var0)) fss a)
         else Raise AssertionError
     | _, _ => Raise (KeyError variable)
     end) = Ok b ->
  (smem variable (ds_dims ds) = true /\ b = a)
  \/ exists var var0,
      smem variable (ds_dims ds) = false
      /\ sget variable (ds_variables ds) = Some var
      /\ sget variable (ds_variables ds0) = Some var0
      /\ b = place_variable variable
               (shape_eqb (var_shape var) (var_shape var0)) fss a.
Proof.
  destruct (smem variable (ds_dims ds)); [intros [= <-]; auto |].
  destruct (sget variable (ds_variables ds)) as [var |]; [| discriminate].
  destruct (sget variable (ds_variables ds0)) as [var0 |]; [| discriminate].
  destruct (strings_eqb _ _); [| discriminate].
  intros [= <-]. right. exists var, var0. auto.
Qed.

Lemma shape_eqb_spec a b : reflect (a = b) (shape_eqb a b).
Proof.
  unfold shape_eqb. destruct (list_eq_dec Z.eq_dec a b); now constructor.
Qed.

Lemma path_split_rewrite_key_normal start i part :
  free_of "/" part = true ->
  all_slashes start = false -> ends_with_slash start = false ->
  fst (path_split (rewrite_key start i part)) = start.
Proof.
  intros Hp Ha He. rewrite rewrite_key_shape.
  rewrite path_split_joined by now apply rewrite_key_tail_free.
  rewrite Ha. simpl. now apply rstrip_fixed.
Qed.

(** ** C7: shared coordinates come from the first source *)

Lemma NoDup_supdate {V : Type} (items d : dict string V) :
  NoDup (keys d) -> NoDup (keys (supdate items d)).
Proof.
  unfold supdate, dict_update. fold (@sset V). revert d.
  induction items as [| kv items IH]; simpl; intros d H; auto.
  apply IH. now apply NoDup_keys_sset.
Qed.

Lemma NoDup_build_output seed shared ds ds0 fss out :
  _build_output seed shared ds ds0 fss = Ok out ->
  NoDup (keys seed) -> NoDup (keys out).
Proof.
  unfold _build_output.
  destruct (copy_shared shared fss seed) as [out1 |] eqn:E; simpl;
    [| discriminate].
  intros H Hseed.
  assert (H1 : NoDup (keys out1)).
  { revert E Hseed. unfold copy_shared.
    apply (for_each_invariant
             (fun a b : store => NoDup (keys a) -> NoDup (keys b))); auto.
    intros a dim b. destruct fss as [| fs0 rest]; [discriminate |].
    intros [= <-]. apply NoDup_supdate. }
  revert H H1. unfold copy_variables.
  apply (for_each_invariant
           (fun a b : store => NoDup (keys a) -> NoDup (keys b))); auto.
  intros a w b Hstep Ha.
  apply copy_variables_step in Hstep as [[_ ->] | [v [v0 [_ [_ [_ ->]]]]]];
    auto.
  unfold place_variable.
  apply (fold_left_preserves _ (fun o : store => NoDup (keys o))); auto.
  intros c [j fs'] Hc. simpl.
  apply (fold_left_preserves _ (fun o : store => NoDup (keys o))); auto.
  intros o kv Ho. rewrite place_reference_target.
  destruct (target_key _ _ _ _); auto. now apply NoDup_keys_sset.
Qed.

(** C7. In [_build_output], the entries of the coordinate array of a shared
    dimension are those of the first source, and where the first source has
    none, what the store was seeded with: no other source contributes, so
    the result for this array is the same whatever the other sources hold.
    Each key is present once. With three sources holding the same
    coordinate [x], the consolidated store has the one chunk entry [x/0],
    that of the first source. *)
Theorem shared_coordinates_from_first_source :
  (forall seed shared ds ds0 fs0 rest out dim,
      _build_output seed shared ds ds0 (fs0 :: rest) = Ok out ->
      NoDup (keys fs0) ->
      In dim shared -> In dim (keys (ds_dims ds)) ->
      all_slashes dim = false ->
      (forall k, belongs_to dim k = true ->
                 sget k out
                 = match sget k fs0 with
                   | Some e => Some e
                   | None => sget k seed
                   end)
      /\ (forall rest' out',
             _build_output seed shared ds ds0 (fs0 :: rest') = Ok out' ->
             forall k, belongs_to dim k = true -> sget k out' = sget k out)
      /\ (NoDup (keys seed) -> NoDup (keys out)))
  /\ (exists out,
         merge merged_seed merged_dataset single_dataset three_sources = Ok out
         /\ chunks_of "x" out = [("x/0", Ref "s3://bucket/0.h5" 104 32)]).
Proof.
  split.
  - intros seed shared ds ds0 fs0 rest out dim Hout Hnd Hsh Hdim Hnorm.
    assert (Hget : forall rest' out',
               _build_output seed shared ds ds0 (fs0 :: rest') = Ok out' ->
               forall k, belongs_to dim k = true ->
                         sget k out'
                         = match sget k fs0 with
                           | Some e => Some e
                           | None => sget k seed
                           end).
    { intros rest' out' H k Hk. unfold _build_output in H.
      destruct (copy_shared shared (fs0 :: rest') seed) as [out1 |] eqn:E;
        simpl in H; [| discriminate].
      unfold belongs_to in Hk. apply String.eqb_eq in Hk.
      rewrite (copy_variables_other _ _ _ _ _ k dim H); auto.
      rewrite (copy_shared_get _ _ _ _ _ k E Hnd).
      assert (existsb (startswith k) shared = true) as ->; auto.
      apply existsb_exists. exists dim. split; auto.
      rewrite <- Hk. apply path_split_startswith. }
    split; [| split].
    + now apply (Hget rest out).
    + intros rest' out' H k Hk.
      rewrite (Hget rest' out' H k Hk). symmetry. now apply (Hget rest out).
    + eapply NoDup_build_output; eauto.
  - eexists. split; reflexivity.
Qed.

Lemma shared_coordinates_from_first_source_witness :
  _build_output merged_seed ["x"] merged_dataset single_dataset three_sources
  = Ok merged_store
  /\ sget "x/0" merged_store = Some (Ref "s3://bucket/0.h5" 104 32).
Proof.
  split; [reflexivity |].
  destruct shared_coordinates_from_first_source as [H _].
  assert (Hnd : NoDup (keys (source_store "s3://bucket/0.h5"))).
  { repeat constructor; simpl; intuition discriminate. }
  destruct (H merged_seed ["x"] merged_dataset single_dataset
              (source_store "s3://bucket/0.h5")
              [source_store "s3://bucket/1.h5";
               source_store "s3://bucket/2.h5"]
              merged_store "x" eq_refl Hnd (or_introl eq_refl)
              (or_intror (or_introl eq_refl)) eq_refl) as [Hget _].
  rewrite (Hget "x/0" eq_refl). reflexivity.
Defined.

(** ** C4: the dimension classifier *)

(** C4 has every dimension of the merged dataset classified, those absent
    from the representative source as extra. The code looks every merged
    dimension up in the representative source while it computes the
    concatenated set: with three sources, merged dimensions [ensemble] and
    [x] and a representative source that has [x] only, it raises [KeyError]
    and returns no partition. *)
Theorem extra_dimension_raises :
  _determine_dims ensemble_dims member_dims 3 = Raise (KeyError "ensemble").
Proof. reflexivity. Qed.

(** The same for every input with a dimension that the representative
    source lacks. *)
Lemma determine_dims_extra_raises dims dims0 n k :
  In k (keys dims) -> sget k dims0 = None ->
  raises (_determine_dims dims dims0 n) = true.
Proof.
  intros Hin Hk. unfold keys in Hin.
  apply in_map_iff in Hin as [[k' v] [E Hin]]. simpl in E. subst k'.
  unfold _determine_dims.
  match goal with
  | |- raises (bind (for_each ?body dims []) _) = true =>
      pose proof (for_each_raises body dims (k, v) [] Hin) as H
  end.
  simpl in H. rewrite Hk in H. specialize (H (fun _ => eq_refl)).
  destruct (for_each _ dims []); simpl in *; [discriminate | reflexivity].
Qed.

Lemma determine_dims_loop dims0 n l acc r :
  for_each
    (fun acc kv =>
       match sget (fst kv) dims0 with
       | None => Raise (KeyError (fst kv))
       | Some d0 =>
           b <- true_div_eq (snd kv) d0 n ;;
           Ok (if b then acc ++ [fst kv] else acc)
       end)
    l acc = Ok r ->
  r = acc ++ map fst (filter (stacked dims0 n) l)
  /\ forall kv, In kv l ->
       exists d0, sget (fst kv) dims0 = Some d0 /\ d0 <> 0.
Proof.
  revert acc. induction l as [| [k v] l IH]; simpl; intros acc H.
  - injection H as <-. rewrite app_nil_r. split; [reflexivity | tauto].
  - unfold stacked at 1. simpl.
    destruct (sget k dims0) as [d0 |] eqn:E; simpl in H; [| discriminate].
    unfold true_div_eq in H.
    destruct (Z.eqb_spec d0 0) as [| Hd0]; simpl in H; [discriminate |].
    apply IH in H as [-> Hall]. split.
    + destruct (v =? d0 * n); simpl; auto. now rewrite <- app_assoc.
    + intros kv [<- | Hin]; auto. simpl. eauto.
Qed.

Lemma mem_string_iff s l : mem_string s l = true <-> In s l.
Proof.
  unfold mem_string. rewrite existsb_exists. split.
  - intros [x [Hin E]]. apply String.eqb_eq in E. now subst.
  - intros H. exists s. split; auto. apply String.eqb_refl.
Qed.

Lemma filter_none {A : Type} (p : A -> bool) l :
  (forall x, In x l -> p x = false) -> filter p l = [].
Proof.
  induction l as [| x l IH]; simpl; intros H; auto.
  rewrite (H x) by now left. apply IH. auto.
Qed.

(** When the classifier returns, no dimension is extra, and the merged
    dimensions fall into the concatenated set (extent equal to the
    representative extent times the number of sources) or else the shared
    set, never both. *)
Lemma determine_dims_partition dims dims0 n p :
  _determine_dims dims dims0 n = Ok p ->
  extra_dims p = []
  /\ (forall k, In k (keys dims)
                <-> In k (concat_dims p) \/ In k (same_dims p))
  /\ (forall k, ~ (In k (concat_dims p) /\ In k (same_dims p)))
  /\ (forall k, In k (concat_dims p)
                <-> exists v d0, In (k, v) dims /\ sget k dims0 = Some d0
                                 /\ d0 <> 0 /\ v = d0 * n).
Proof.
  unfold _determine_dims.
  destruct (for_each _ dims []) as [concat |] eqn:E; simpl; [| discriminate].
  apply determine_dims_loop in E as [-> Hall]. simpl.
  intros [= <-]. simpl.
  assert (Hextra : filter (fun k => negb (smem k dims0)) (keys dims) = []).
  { apply filter_none. intros k Hk.
    unfold keys in Hk. apply in_map_iff in Hk as [kv [<- Hk]].
    destruct (Hall kv Hk) as [d0 [Hd0 _]].
    apply negb_false_iff. apply smem_true_iff.
    eapply sget_some_in_keys; eauto. }
  rewrite Hextra. split; [reflexivity |]. split; [| split].
  - intros k. rewrite filter_In. simpl.
    destruct (mem_string k (map fst (filter (stacked dims0 n) dims))) eqn:M.
    + apply mem_string_iff in M. split; [tauto |]. intros _.
      apply in_map_iff in M as [kv [<- M]]. apply filter_In in M as [M _].
      unfold keys. now apply in_map.
    + split; [intros H; right; auto | intros [H | [H _]]; auto].
      apply mem_string_iff in H. congruence.
  - intros k [H1 H2]. apply filter_In in H2 as [_ H2]. simpl in H2.
    apply mem_string_iff in H1. rewrite H1 in H2. discriminate.
  - intros k. rewrite in_map_iff. split.
    + intros [[k' v] [<- H]]. apply filter_In in H as [Hin Hst]. simpl.
      destruct (Hall _ Hin) as [d0 [Hd0 Hnz]]. simpl in Hd0.
      unfold stacked in Hst. simpl in Hst. rewrite Hd0 in Hst.
      apply Z.eqb_eq in Hst. exists v, d0. auto.
    + intros [v [d0 [Hin [Hd0 [_ ->]]]]]. exists (k, d0 * n). split; auto.
      apply filter_In. split; auto. unfold stacked. simpl.
      rewrite Hd0. apply Z.eqb_refl.
Qed.

(** ** C6: templates *)

(** *** The counter *)

Lemma count_urls_fold mapping :
  count_urls mapping = fold_left counter_add (ref_urls mapping) [].
Proof.
  unfold count_urls, ref_urls. generalize (@nil (string * Z)) as acc.
  induction mapping as [| [k v] m IH]; simpl; intros acc; auto.
  rewrite fold_left_app, IH. destruct v; reflexivity.
Qed.

Lemma keys_counter_add counts u : keys (counter_add counts u) = add_new (keys counts) u.
Proof.
  unfold counter_add, add_new.
  destruct (sget u counts) as [c |] eqn:E.
  - assert (H : In u (keys counts)) by (eapply sget_some_in_keys; eauto).
    rewrite keys_sset_in by assumption.
    apply mem_string_iff in H. now rewrite H.
  - assert (H : ~ In u (keys counts)).
    { intros H. apply smem_true_iff in H. unfold smem, dict_mem in H.
      fold (@sget Z) in H. now rewrite E in H. }
    rewrite sset_fresh by assumption.
    destruct (mem_string u (keys counts)) eqn:M.
    + apply mem_string_iff in M. contradiction.
    + unfold keys. now rewrite map_app.
Qed.

Lemma keys_counter urls acc :
  keys (fold_left counter_add urls acc) = fold_left add_new urls (keys acc).
Proof.
  revert acc. induction urls as [| u urls IH]; simpl; intros acc; auto.
  now rewrite IH, keys_counter_add.
Qed.

Lemma add_new_NoDup seen u : NoDup seen -> NoDup (add_new seen u).
Proof.
  intros H. unfold add_new. destruct (mem_string u seen) eqn:M; auto.
  apply NoDup_app; auto.
  - repeat constructor. simpl. tauto.
  - intros x Hx [<- | []]. apply mem_string_iff in Hx. congruence.
Qed.

Lemma first_seen_NoDup urls : NoDup (first_seen urls).
Proof.
  unfold first_seen. fold add_new.
  apply (fold_left_preserves add_new (@NoDup string)).
  - constructor.
  - intros a b. apply add_new_NoDup.
Qed.

Lemma sget_counter_add_same counts u :
  sget u (counter_add counts u)
  = Some (match sget u counts with Some c => c + 1 | None => 1 end).
Proof.
  unfold counter_add. destruct (sget u counts); apply sget_sset_eq.
Qed.

Lemma sget_counter_add_other counts u u' :
  u <> u' -> sget u (counter_add counts u') = sget u counts.
Proof.
  intros H. unfold counter_add.
  destruct (sget u' counts); now apply sget_sset_neq.
Qed.

Lemma sget_counter urls acc u :
  sget u (fold_left counter_add urls acc)
  = match sget u acc, count_occ string_dec urls u with
    | None, O => None
    | None, n => Some (Z.of_nat n)
    | Some c, n => Some (c + Z.of_nat n)
    end.
Proof.
  revert acc. induction urls as [| u0 urls IH]; intros acc.
  - simpl. destruct (sget u acc); auto. f_equal. lia.
  - cbn [fold_left count_occ]. rewrite IH.
    destruct (string_dec u0 u) as [-> | Hne].
    + rewrite sget_counter_add_same.
      destruct (sget u acc) as [c |]; f_equal; lia.
    + rewrite sget_counter_add_other by congruence. reflexivity.
Qed.

Lemma count_urls_keys mapping :
  keys (count_urls mapping) = first_seen (ref_urls mapping).
Proof. rewrite count_urls_fold. apply keys_counter. Qed.

Lemma count_urls_value mapping u c :
  In (u, c) (count_urls mapping) -> c = occurrences u mapping.
Proof.
  intros H. apply in_sget in H.
  - rewrite count_urls_fold, sget_counter in H. simpl in H.
    unfold occurrences.
    destruct (count_occ string_dec (ref_urls mapping) u);
      [discriminate | now injection H].
  - rewrite count_urls_keys. apply first_seen_NoDup.
Qed.

Lemma count_urls_nth mapping i u :
  nth_error (first_seen (ref_urls mapping)) i = Some u ->
  nth_error (count_urls mapping) i = Some (u, occurrences u mapping).
Proof.
  rewrite <- count_urls_keys. unfold keys. rewrite nth_error_map.
  destruct (nth_error (count_urls mapping) i) as [[u' c] |] eqn:E;
    simpl; [| discriminate].
  intros [= ->]. apply nth_error_In in E as H.
  apply count_urls_value in H. now subst.
Qed.

(** *** The letters *)

Lemma get_in i s c : String.get i s = Some c -> In c (list_ascii_of_string s).
Proof.
  revert i. induction s as [| a s IH]; intros [| i]; simpl; try discriminate.
  - intros [= ->]. now left.
  - intros H. right. eauto.
Qed.

Lemma get_inj s i j c :
  NoDup (list_ascii_of_string s) ->
  String.get i s = Some c -> String.get j s = Some c -> i = j.
Proof.
  revert i j. induction s as [| a s IH]; intros i j Hnd Hi Hj.
  - destruct i; discriminate.
  - simpl in Hnd. inversion Hnd as [| ? ? Hnot Hnd']; subst.
    destruct i as [| i], j as [| j]; simpl in Hi, Hj.
    + reflexivity.
    + injection Hi as ->. apply get_in in Hj. contradiction.
    + injection Hj as ->. apply get_in in Hi. contradiction.
    + f_equal. eauto.
Qed.

Lemma ascii_letters_NoDup : NoDup (list_ascii_of_string ascii_letters).
Proof.
  assert (E : nodup ascii_dec (list_ascii_of_string ascii_letters)
              = list_ascii_of_string ascii_letters) by (vm_compute; reflexivity).
  rewrite <- E. apply NoDup_nodup.
Qed.

Lemma symbol_at_inj i j s :
  symbol_at i = Some s -> symbol_at j = Some s -> i = j.
Proof.
  unfold symbol_at.
  destruct (String.get i ascii_letters) as [c |] eqn:Ei; [| discriminate].
  destruct (String.get j ascii_letters) as [c' |] eqn:Ej; [| discriminate].
  intros [= <-] [= ->].
  eapply get_inj; eauto using ascii_letters_NoDup.
Qed.

(** *** The templates table *)

Lemma template_step_spec tc templates i u c r :
  template_step tc templates (i, (u, c)) = Ok r ->
  ((tc <? c) = false /\ r = templates)
  \/ ((tc <? c) = true
      /\ exists s, symbol_at i = Some s /\ r = sset s u templates).
Proof.
  unfold template_step, symbol_at. destruct (tc <? c).
  - destruct (String.get i ascii_letters) as [a |]; [| discriminate].
    intros [= <-]. right. split; auto. eexists. split; reflexivity.
  - intros [= <-]. auto.
Qed.

Lemma make_templates_loop tc ics acc r :
  for_each (template_step tc) ics acc = Ok r ->
  NoDup (map fst ics) ->
  (forall s i uc, In s (keys acc) -> In (i, uc) ics -> symbol_at i <> Some s) ->
  r = acc ++ template_entries tc ics.
Proof.
  revert acc.
  induction ics as [| [i [u c]] ics IH]; intros acc H Hnd Hacc;
    cbn [for_each] in H.
  - injection H as <-. simpl. now rewrite app_nil_r.
  - destruct (template_step tc acc (i, (u, c))) as [acc1 |] eqn:E;
      cbn [bind] in H; [| discriminate].
    inversion Hnd as [| ? ? Hnot Hnd']; subst.
    unfold template_entries. cbn [flat_map fst snd].
    fold (template_entries tc ics).
    apply template_step_spec in E as [[E ->] | [E [s [Hs ->]]]]; rewrite E.
    + simpl. apply IH; auto. intros s j uc Hin Hj.
      apply (Hacc s j uc Hin). now right.
    + rewrite Hs. simpl.
      assert (Hfresh : ~ In s (keys acc)).
      { intros Hin. apply (Hacc s i (u, c) Hin); [now left | exact Hs]. }
      rewrite sset_fresh in * by assumption.
      replace (acc ++ (s, u) :: template_entries tc ics)
        with ((acc ++ [(s, u)]) ++ template_entries tc ics)
        by (now rewrite <- app_assoc).
      apply IH; auto.
      intros s' j uc Hin Hj Hsym. unfold keys in Hin. rewrite map_app in Hin.
      apply in_app_or in Hin as [Hin | [<- | []]].
      * apply (Hacc s' j uc Hin); [now right | exact Hsym].
      * assert (j = i) by (eapply symbol_at_inj; eauto). subst j.
        apply Hnot. apply in_map_iff. exists (i, uc). auto.
Qed.

Lemma map_fst_enumerate {A : Type} (l : list A) :
  map fst (enumerate l) = seq 0 (List.length l).
Proof.
  unfold enumerate. generalize 0%nat.
  induction l as [| x l IH]; simpl; intros a; auto. now rewrite IH.
Qed.

Lemma make_templates_spec counts tc templates :
  make_templates counts tc = Ok templates ->
  templates = template_entries tc (enumerate counts).
Proof.
  intros H. unfold make_templates in H.
  apply (make_templates_loop tc (enumerate counts) [] templates H).
  - rewrite map_fst_enumerate. apply seq_NoDup.
  - intros s i uc [].
Qed.

Lemma in_template_entries tc ics s u :
  In (s, u) (template_entries tc ics)
  <-> exists i c, In (i, (u, c)) ics /\ tc < c /\ symbol_at i = Some s.
Proof.
  unfold template_entries. rewrite in_flat_map. split.
  - intros [[i [u' c]] [Hin H]]. simpl in H.
    destruct (Z.ltb_spec tc c); [| destruct H].
    destruct (symbol_at i) as [s' |] eqn:E; [| destruct H].
    destruct H as [[= <- <-] | []]. exists i, c. auto.
  - intros [i [c [Hin [Hlt Hs]]]]. exists (i, (u, c)). split; auto. simpl.
    apply Z.ltb_lt in Hlt. rewrite Hlt, Hs. now left.
Qed.

Lemma template_entries_values tc ics :
  NoDup (map (fun iuv => fst (snd iuv)) ics) ->
  NoDup (map snd (template_entries tc ics)).
Proof.
  induction ics as [| [i [u c]] ics IH]; simpl; intros H; [constructor |].
  inversion H as [| ? ? Hnot Hnd]; subst.
  rewrite map_app. simpl.
  assert (Hrest : forall x, In x (map snd (template_entries tc ics)) ->
                            In x (map (fun iuv => fst (snd iuv)) ics)).
  { intros x Hx. apply in_map_iff in Hx as [[s u'] [<- Hx]].
    apply in_template_entries in Hx as [j [c' [Hj _]]].
    apply in_map_iff. exists (j, (u', c')). auto. }
  destruct (tc <? c); simpl; auto.
  destruct (symbol_at i); simpl; auto.
  constructor; auto.
Qed.

Lemma map_snd_enumerate {A : Type} (l : list A) :
  map snd (enumerate l) = l.
Proof.
  unfold enumerate. generalize 0%nat.
  induction l as [| x l IH]; simpl; intros a; auto. now rewrite IH.
Qed.

Lemma invert_spec templates :
  NoDup (map snd templates) -> invert templates = map swap templates.
Proof.
  intros H. unfold invert.
  assert (G : forall l acc,
             NoDup (keys acc ++ map snd l) ->
             fold_left (fun inv kv => sset (snd kv) (fst kv) inv) l acc
             = acc ++ map swap l).
  { induction l as [| [s u] l IH]; simpl; intros acc Hnd.
    - now rewrite app_nil_r.
    - assert (Hfresh : ~ In u (keys acc)).
      { apply NoDup_remove_2 in Hnd. intros Hin. apply Hnd.
        apply in_or_app. now left. }
      rewrite sset_fresh by assumption. rewrite IH.
      + now rewrite <- app_assoc.
      + unfold keys in *. rewrite map_app, <- app_assoc. exact Hnd. }
  apply (G templates []). exact H.
Qed.

Lemma template_entries_keys tc ics :
  NoDup (map fst ics) -> NoDup (keys (template_entries tc ics)).
Proof.
  unfold keys.
  induction ics as [| [i [u c]] ics IH]; intros H; [constructor |].
  inversion H as [| ? ? Hnot Hnd]; subst.
  unfold template_entries. cbn [flat_map fst snd].
  fold (template_entries tc ics). rewrite map_app.
  destruct (tc <? c); simpl; auto.
  destruct (symbol_at i) as [s |] eqn:E; simpl; auto.
  constructor; auto.
  intros Hin. apply in_map_iff in Hin as [[s' u'] [Hs Hin]]. simpl in Hs.
  subst s'. apply in_template_entries in Hin as [j [c' [Hj [_ Hsym]]]].
  assert (j = i) by (eapply symbol_at_inj; eauto). subst j.
  apply Hnot. apply in_map_iff. exists (i, (u', c')). auto.
Qed.

Lemma for_each_ok_in {A S : Type} (body : S -> A -> result S) l s s' x :
  for_each body l s = Ok s' -> In x l -> exists a b, body a x = Ok b.
Proof.
  intros H Hin. apply in_split in Hin as [pre [post ->]].
  apply for_each_split in H as [a [b [_ [H _]]]]. eauto.
Qed.

(** The value [_consolidate] leaves under each key of the mapping. *)
Lemma consolidate_loop cat thr inv mapping out k v :
  for_each (consolidate_step cat thr inv) mapping [] = Ok out ->
  NoDup (keys mapping) -> In (k, v) mapping ->
  exists v', consolidate_entry cat thr inv v = Ok v' /\ sget k out = Some v'.
Proof.
  intros H Hnd Hin. apply in_split in Hin as [pre [post ->]].
  apply for_each_split in H as [a [b [_ [Hstep Hpost]]]].
  unfold consolidate_step in Hstep. simpl in Hstep.
  destruct (consolidate_entry cat thr inv v) as [v' |]; simpl in Hstep;
    [| discriminate].
  injection Hstep as <-. exists v'. split; auto.
  assert (Hk : ~ In k (keys post)).
  { unfold keys in *. rewrite map_app in Hnd. simpl in Hnd.
    apply NoDup_remove_2 in Hnd. intros Hin. apply Hnd.
    apply in_or_app. now right. }
  rewrite <- (sget_sset_eq k v' a).
  revert Hpost.
  apply (for_each_invariant_in
           (fun x y : store => sget k y = sget k x)).
  - reflexivity.
  - intros x y z H1 H2. congruence.
  - intros x [k2 v2] y Hin2 Hy. unfold consolidate_step in Hy. simpl in Hy.
    destruct (consolidate_entry cat thr inv v2); simpl in Hy; [| discriminate].
    injection Hy as <-. apply sget_sset_neq. intros ->. apply Hk.
    apply in_map_iff. exists (k2, v2). auto.
Qed.

(** [_consolidate] returns whenever there are at most 52 distinct
    identifiers and the mapping holds no inline text. *)
Lemma for_each_total {A S : Type} (body : S -> A -> result S) l s :
  (forall a x, In x l -> exists b, body a x = Ok b) ->
  exists r, for_each body l s = Ok r.
Proof.
  revert s. induction l as [| x l IH]; simpl; intros s H; eauto.
  destruct (H s x (or_introl eq_refl)) as [b ->]. simpl.
  apply IH. intros a y Hy. apply H. now right.
Qed.

Lemma ascii_letters_get i :
  (i < 52)%nat -> exists c, String.get i ascii_letters = Some c.
Proof.
  intros H.
  do 52 (destruct i as [| i]; [eexists; reflexivity |]). lia.
Qed.

Lemma consolidate_total cat mapping thr tc :
  (List.length (first_seen (ref_urls mapping)) <= 52)%nat ->
  (forall k s, ~ In (k, Str s) mapping) ->
  exists templates out,
    _consolidate cat mapping thr tc = Ok (Version1 1 templates out).
Proof.
  intros Hlen Hstr. unfold _consolidate.
  destruct (for_each_total (template_step tc) (enumerate (count_urls mapping))
              []) as [tpl Ht].
  { intros a [i [u c]] Hin. unfold template_step.
    destruct (tc <? c); eauto.
    apply in_enumerate in Hin.
    assert (Hi : (i < 52)%nat).
    { assert (Hn : nth_error (count_urls mapping) i <> None) by congruence.
      apply nth_error_Some in Hn. rewrite <- count_urls_keys in Hlen.
      unfold keys in Hlen. rewrite length_map in Hlen. lia. }
    destruct (ascii_letters_get i Hi) as [x ->]. eauto. }
  unfold make_templates. rewrite Ht. simpl.
  destruct (for_each_total (consolidate_step cat thr (invert tpl)) mapping [])
    as [out Ho].
  { intros a [k v] Hin. unfold consolidate_step. simpl.
    destruct v as [u off size | b | s | d]; simpl; eauto.
    - unfold consolidate_entry.
      destruct (size <? thr); simpl; eauto.
      destruct (sget u (invert tpl)); simpl; eauto.
    - exfalso. eapply Hstr; eauto. }
  rewrite Ho. simpl. eauto.
Qed.

(** * Further properties of the code *)

(** ** Loops, continued *)

Lemma for_each_ok_iff {A S : Type} (body : S -> A -> result S)
    (P : A -> Prop) l s :
  (forall a x, (exists b, body a x = Ok b) <-> P x) ->
  ((exists r, for_each body l s = Ok r) <-> Forall P l).
Proof.
  intros Hbody. revert s. induction l as [| x l IH]; simpl; intros s.
  - split; [constructor | eauto].
  - split.
    + intros [r H]. destruct (body s x) as [b |] eqn:E; simpl in H;
        [| discriminate].
      constructor.
      * apply (Hbody s x). eauto.
      * apply (IH b). eauto.
    + intros H. inversion H as [| ? ? Hx Hl]; subst.
      apply (Hbody s x) in Hx as [b ->]. simpl. now apply IH.
Qed.

Lemma in_sset {V : Type} k v (d : dict string V) k' v' :
  In (k', v') (sset k v d) -> (k', v') = (k, v) \/ In (k', v') d.
Proof.
  unfold sset. induction d as [| [k0 v0] d IH]; simpl.
  - intros [H | []]. left. congruence.
  - destruct (String.eqb_spec k k0); simpl.
    + subst. intros [H | H]; auto.
    + intros [H | H]; auto. destruct (IH H); auto.
Qed.

(** ** _transfer_attrs *)

Lemma transfer_attr_spec t path s n v s' :
  transfer_attr t path s (n, v) = Ok s' ->
  s' = s
  \/ (skipped_name n = false
      /\ exists v', fix_value n v = Ok v'
                    /\ xr t && pyvalue_is_str v' "DIMENSION_SCALE" = false
                    /\ json_ok v' = true
                    /\ s' = attrs_set path n v' s).
Proof.
  unfold transfer_attr, skipped_name.
  destruct (mem_string n _); [intros [= <-]; auto |].
  destruct (fix_value n v) as [v' |]; simpl; [| discriminate].
  destruct (xr t && pyvalue_is_str v' "DIMENSION_SCALE") eqn:E;
    [intros [= <-]; auto |].
  destruct (json_ok v') eqn:J; intros [= <-]; auto.
  right. split; auto. exists v'. auto.
Qed.

Lemma attrs_of_attrs_set_eq path n v s :
  attrs_of path (attrs_set path n v s) = sset n v (attrs_of path s).
Proof. unfold attrs_of at 1, attrs_set. now rewrite sget_sset_eq. Qed.

Lemma pyvalue_is_str_spec v s :
  pyvalue_is_str v s = true <-> v = PStr s.
Proof.
  destruct v; simpl; split; try discriminate.
  - intros H. apply String.eqb_eq in H. now subst.
  - intros [= ->]. apply String.eqb_refl.
Qed.

(** X1. [_transfer_attrs] writes nothing but the attributes document of the
    node: every other key of the store keeps its value, and no key is
    removed. *)
Theorem transfer_attrs_touches_only_attrs t h5attrs path s s' :
  _transfer_attrs t h5attrs path s = Ok s' ->
  (forall k, k <> meta_key path ".zattrs" -> sget k s' = sget k s)
  /\ (forall k, In k (keys s) -> In k (keys s')).
Proof.
  unfold _transfer_attrs.
  apply (for_each_invariant
           (fun a b : store =>
              (forall k, k <> meta_key path ".zattrs" -> sget k b = sget k a)
              /\ (forall k, In k (keys a) -> In k (keys b)))).
  - auto.
  - intros a b c [H1 H2] [H3 H4]. split.
    + intros k Hk. rewrite H3, H1; auto.
    + auto.
  - intros a [n v] b H.
    apply transfer_attr_spec in H as [-> | [_ [v' [_ [_ [_ ->]]]]]]; auto.
    unfold attrs_set. split.
    + intros k Hk. now apply sget_sset_neq.
    + intros k Hk. now apply keys_sset_incl.
Qed.

Lemma transfer_attrs_touches_only_attrs_witness :
  sget "d/.zarray"
    (attrs_set "d" "units" (PStr "m")
       [("d/.zarray", Doc ZGroup)]) = Some (Doc ZGroup).
Proof.
  destruct (transfer_attrs_touches_only_attrs (sample_translator 0 no_file)
              [("units", HBytes (Some "m"))] "d"
              [("d/.zarray", Doc ZGroup)] _ eq_refl) as [H _].
  apply (H "d/.zarray"). discriminate.
Defined.

(** X2. An attribute found in the attributes document after
    [_transfer_attrs] was there before, or is the coerced value of the
    source attribute of that name; in the second case its name is neither
    [REFERENCE_LIST] nor [DIMENSION_LIST], its value is one JSON encodes,
    and in xarray mode it is not the text [DIMENSION_SCALE]. *)
Theorem transfer_attrs_never_stores t h5attrs path s s' :
  _transfer_attrs t h5attrs path s = Ok s' ->
  forall n v,
    sget n (attrs_of path s') = Some v ->
    sget n (attrs_of path s) = Some v
    \/ (skipped_name n = false
        /\ json_ok v = true
        /\ (xr t = true -> v <> PStr "DIMENSION_SCALE")
        /\ exists raw, In (n, raw) h5attrs /\ fix_value n raw = Ok v).
Proof.
  unfold _transfer_attrs.
  apply (for_each_invariant_in
           (fun a b : store =>
              forall n v,
                sget n (attrs_of path b) = Some v ->
                sget n (attrs_of path a) = Some v
                \/ (skipped_name n = false
                    /\ json_ok v = true
                    /\ (xr t = true -> v <> PStr "DIMENSION_SCALE")
                    /\ exists raw, In (n, raw) h5attrs
                                   /\ fix_value n raw = Ok v))).
  - auto.
  - intros a b c H1 H2 n v H. destruct (H2 n v H) as [H' | H']; auto.
  - intros a [n0 raw] b Hin H n v Hn.
    apply transfer_attr_spec in H
      as [-> | [Hskip [v' [Hfix [Hxr [Hjson ->]]]]]]; auto.
    rewrite attrs_of_attrs_set_eq in Hn.
    destruct (String.eqb_spec n n0) as [-> | Hne].
    + rewrite sget_sset_eq in Hn. injection Hn as <-. right.
      repeat split; auto.
      * intros Hx ->. rewrite Hx in Hxr. simpl in Hxr. discriminate.
      * eauto.
    + rewrite sget_sset_neq in Hn by assumption. auto.
Qed.

Lemma transfer_attrs_never_stores_witness :
  sget "CLASS"
    (attrs_of "x"
       (store_or_empty
          (_transfer_attrs
             {| uri := "u"; xr := true; spec := 1; inline := 0;
                read_at := no_file |}
             [("CLASS", HBytes (Some "DIMENSION_SCALE"));
              ("REFERENCE_LIST", HPlain (POpaque 0));
              ("units", HBytes (Some "m"))] "x" []))) = None.
Proof.
  destruct (sget "CLASS" _) as [v |] eqn:E; [| reflexivity].
  exfalso.
  destruct (transfer_attrs_never_stores
              {| uri := "u"; xr := true; spec := 1; inline := 0;
                 read_at := no_file |}
              [("CLASS", HBytes (Some "DIMENSION_SCALE"));
               ("REFERENCE_LIST", HPlain (POpaque 0));
               ("units", HBytes (Some "m"))] "x" [] _ eq_refl "CLASS" v E)
    as [H | [_ [_ [_ [raw [Hin Hfix]]]]]].
  - discriminate.
  - vm_compute in E. discriminate.
Defined.

Lemma fix_value_raises n v :
  (exists v', fix_value n v = Ok v') <-> v <> HBytes None.
Proof.
  destruct v as [[u |] | a | v]; simpl.
  - split; [discriminate | eauto].
  - split; [intros [v' H]; discriminate | congruence].
  - split; [discriminate | intros _].
    destruct (String.eqb n "_FillValue"); eauto.
    destruct (nd_flat a) as [| x [| y l]]; eauto.
  - split; [discriminate | eauto].
Qed.

Lemma transfer_attr_ok_iff t path a nv :
  (exists b, transfer_attr t path a nv = Ok b)
  <-> (snd nv = HBytes None -> skipped_name (fst nv) = true).
Proof.
  destruct nv as [n v]. cbn [fst snd]. unfold transfer_attr.
  fold (skipped_name n).
  destruct (skipped_name n) eqn:Hs.
  - split; [auto | eauto].
  - split.
    + intros [b H] Hv. subst v. simpl in H. discriminate.
    + intros H.
      assert (Hv : v <> HBytes None) by (intros ->; now specialize (H eq_refl)).
      apply (fix_value_raises n) in Hv as [v' ->]. simpl.
      destruct (xr t && _); eauto. destruct (json_ok v'); eauto.
Qed.

Lemma transfer_attrs_ok_iff t h5attrs path s :
  (exists s', _transfer_attrs t h5attrs path s = Ok s')
  <-> attrs_decodable h5attrs.
Proof.
  unfold _transfer_attrs, attrs_decodable.
  rewrite (for_each_ok_iff (transfer_attr t path)
             (fun nv => snd nv = HBytes None -> skipped_name (fst nv) = true))
    by (intros a x; apply transfer_attr_ok_iff).
  rewrite Forall_forall. split.
  - intros H n Hin. apply (H (n, HBytes None) Hin). reflexivity.
  - intros H [n v] Hin Hv. cbn [fst snd] in *. subst v. auto.
Qed.

(** X3. With the numpy conversions taken to return, [_transfer_attrs]
    fails exactly when an attribute, other than the two it passes over,
    holds bytes that are not valid UTF-8: the [decode] of line 128 is
    outside the [try]. A value JSON cannot encode is dropped and the
    transfer goes on; and when the transfer fails, the error is the
    UnicodeDecodeError of that [decode]. *)
Theorem transfer_attrs_succeeds_iff t h5attrs path s :
  ((exists s', _transfer_attrs t h5attrs path s = Ok s')
   <-> (forall n, In (n, HBytes None) h5attrs -> skipped_name n = true))
  /\ (forall e, _transfer_attrs t h5attrs path s = Raise e ->
                e = UnicodeDecodeError
                /\ exists n, In (n, HBytes None) h5attrs
                             /\ skipped_name n = false).
Proof.
  unfold _transfer_attrs. split.
  - rewrite (for_each_ok_iff (transfer_attr t path)
               (fun nv => snd nv = HBytes None -> skipped_name (fst nv) = true))
      by (intros a x; apply transfer_attr_ok_iff).
    rewrite Forall_forall. split.
    + intros H n Hin. apply (H (n, HBytes None) Hin). reflexivity.
    + intros H [n v] Hin Hv. cbn [fst snd] in *. subst v. auto.
  - intros e H. apply for_each_error in H as [a [[n v] [Hin H]]].
    unfold transfer_attr in H. fold (skipped_name n) in H.
    destruct (skipped_name n) eqn:Hs; [discriminate |].
    destruct (fix_value n v) as [v' | e'] eqn:Ef; cbn [bind] in H.
    + destruct (xr t && _); [discriminate |].
      destruct (json_ok v'); discriminate.
    + injection H as <-.
      destruct v as [[u |] | arr | v]; simpl in Ef; try discriminate.
      * injection Ef as <-. split; auto. now exists n.
      * destruct (String.eqb n "_FillValue"); [discriminate |].
        destruct (nd_flat arr) as [| x [| y l]]; discriminate.
Qed.

(** X4. When the source attributes have distinct names, an attribute that
    is not passed over, whose coerced value JSON encodes and, in xarray
    mode, is not [DIMENSION_SCALE], is found under its name in the
    attributes document after [_transfer_attrs], with the coerced value. *)
Theorem transfer_attrs_lookup t h5attrs path s s' n raw v :
  _transfer_attrs t h5attrs path s = Ok s' ->
  NoDup (map fst h5attrs) ->
  In (n, raw) h5attrs ->
  skipped_name n = false ->
  fix_value n raw = Ok v ->
  xr t && pyvalue_is_str v "DIMENSION_SCALE" = false ->
  json_ok v = true ->
  sget n (attrs_of path s') = Some v.
Proof.
  intros H Hnd Hin Hskip Hfix Hxr Hjson.
  apply in_split in Hin as [pre [post ->]].
  unfold _transfer_attrs in H.
  apply for_each_split in H as [a [b [_ [Hstep Hpost]]]].
  assert (Hb : sget n (attrs_of path b) = Some v).
  { unfold transfer_attr in Hstep. fold (skipped_name n) in Hstep.
    rewrite Hskip, Hfix in Hstep. simpl in Hstep.
    rewrite Hxr, Hjson in Hstep. injection Hstep as <-.
    apply attrs_of_attrs_set. }
  assert (Hn : ~ In n (map fst post)).
  { rewrite map_app in Hnd. simpl in Hnd. apply NoDup_remove_2 in Hnd.
    intros Hp. apply Hnd. apply in_or_app. now right. }
  rewrite <- Hb. revert Hpost.
  apply (for_each_invariant_in
           (fun x y : store => sget n (attrs_of path y)
                               = sget n (attrs_of path x))).
  - reflexivity.
  - intros x y z H1 H2. congruence.
  - intros x [n2 raw2] y Hin2 Hy.
    apply transfer_attr_spec in Hy as [-> | [_ [v2 [_ [_ [_ ->]]]]]]; auto.
    rewrite attrs_of_attrs_set_eq. apply sget_sset_neq. intros ->.
    apply Hn. apply in_map_iff. exists (n2, raw2). auto.
Qed.

Lemma transfer_attrs_lookup_witness :
  sget "units"
    (attrs_of "x"
       (store_or_empty
          (_transfer_attrs (sample_translator 0 no_file)
             [("units", HBytes (Some "m")); ("scale", HPlain (PInt 2))]
             "x" []))) = Some (PStr "m").
Proof.
  assert (Hnd : NoDup (map fst [("units", HBytes (Some "m"));
                                ("scale", HPlain (PInt 2))])).
  { repeat constructor; simpl; intuition discriminate. }
  exact (transfer_attrs_lookup (sample_translator 0 no_file)
           [("units", HBytes (Some "m")); ("scale", HPlain (PInt 2))]
           "x" [] _ "units" (HBytes (Some "m")) (PStr "m")
           eq_refl Hnd (or_introl eq_refl) eq_refl eq_refl eq_refl eq_refl).
Defined.

(** ** _storage_info *)

Lemma chunk_coords_floor offsets sizes :
  Forall (fun b => b <> 0) sizes ->
  chunk_coords offsets sizes = Ok (floor_coords offsets sizes).
Proof.
  intros H. revert offsets.
  induction H as [| b sizes Hb H IH]; intros [| a offsets]; simpl; auto.
  apply Z.eqb_neq in Hb. rewrite Hb, IH. reflexivity.
Qed.

Lemma dict_get_set_coords_eq k v (m : chunk_map) :
  dict_get coords_eqb k (dict_set coords_eqb k v m) = Some v.
Proof.
  induction m as [| [k0 v0] m IH]; simpl.
  - destruct (coords_eqb_spec k k); congruence.
  - destruct (coords_eqb_spec k k0) as [E | E]; simpl.
    + destruct (coords_eqb_spec k k0); congruence.
    + destruct (coords_eqb_spec k k0); congruence.
Qed.

Lemma dict_get_set_coords_neq k k' v (m : chunk_map) :
  k <> k' ->
  dict_get coords_eqb k (dict_set coords_eqb k' v m)
  = dict_get coords_eqb k m.
Proof.
  intros Hne. induction m as [| [k0 v0] m IH]; simpl.
  - destruct (coords_eqb_spec k k'); congruence.
  - destruct (coords_eqb_spec k' k0); simpl.
    + subst. destruct (coords_eqb_spec k k0); congruence.
    + destruct (coords_eqb_spec k k0); auto.
Qed.

Lemma dict_set_coords_fresh k v (m : chunk_map) :
  ~ In k (map fst m) -> dict_set coords_eqb k v m = m ++ [(k, v)].
Proof.
  induction m as [| [k0 v0] m IH]; simpl; auto.
  intros H. destruct (coords_eqb_spec k k0); [subst; tauto |].
  f_equal. apply IH. tauto.
Qed.

Lemma dict_set_coords_length k v (m : chunk_map) :
  (List.length (dict_set coords_eqb k v m) <= S (List.length m))%nat.
Proof.
  induction m as [| [k0 v0] m IH]; simpl; auto.
  destruct (coords_eqb_spec k k0); simpl; lia.
Qed.

Lemma dict_set_coords_in k v (m : chunk_map) k' :
  k' = k \/ In k' (map fst m) ->
  In k' (map fst (dict_set coords_eqb k v m)).
Proof.
  induction m as [| [k0 v0] m IH]; simpl.
  - intros [-> | []]. now left.
  - destruct (coords_eqb_spec k k0); simpl.
    + subst. intros [-> | [H | H]]; auto.
    + intros [-> | [H | H]]; auto.
Qed.

(** The chunk map as the loop of lines 273-279 builds it. *)
Lemma storage_loop cs blobs acc :
  Forall (fun b => b <> 0) cs ->
  for_each
    (fun stinfo blob =>
       key <- chunk_coords (chunk_offset blob) cs ;;
       Ok (dict_set coords_eqb key (byte_offset blob, blob_size blob) stinfo))
    blobs acc
  = Ok (fold_left
          (fun m b => dict_set coords_eqb (fst (blob_item cs b))
                        (snd (blob_item cs b)) m)
          blobs acc).
Proof.
  intros Hcs. revert acc. induction blobs as [| b blobs IH]; simpl; intros acc.
  - reflexivity.
  - rewrite chunk_coords_floor by assumption. simpl. apply IH.
Qed.

Lemma storage_info_chunked_eq d shp cs :
  shape d = Some shp -> chunks d = Some cs ->
  Forall (fun b => b <> 0) cs ->
  _storage_info d
  = Ok (fold_left
          (fun m b => dict_set coords_eqb (fst (blob_item cs b))
                        (snd (blob_item cs b)) m)
          (chunk_info d) []).
Proof.
  intros Hs Hc Hcs. unfold _storage_info. rewrite Hs, Hc.
  destruct (chunk_info d) as [| b blobs] eqn:E; [reflexivity |].
  now rewrite storage_loop.
Qed.

(** X5. For a chunked dataset with non-zero chunk dimensions,
    [_storage_info] returns a map with at most one item per chunk: the
    coordinate of every chunk is a key, a coordinate reported by several
    chunks keeps the offset and size of the last of them, and when the
    coordinates are pairwise distinct the map lists the chunks in the order
    of their index, one item each. *)
Theorem storage_info_chunked d shp cs :
  shape d = Some shp -> chunks d = Some cs ->
  Forall (fun b => b <> 0) cs ->
  exists cinfo,
    _storage_info d = Ok cinfo
    /\ (List.length cinfo <= List.length (chunk_info d))%nat
    /\ (forall b, In b (chunk_info d) ->
                  In (fst (blob_item cs b)) (map fst cinfo))
    /\ (forall pre b post,
           chunk_info d = pre ++ b :: post ->
           (forall b', In b' post ->
                       fst (blob_item cs b') <> fst (blob_item cs b)) ->
           dict_get coords_eqb (fst (blob_item cs b)) cinfo
           = Some (byte_offset b, blob_size b))
    /\ (NoDup (map (fun b => fst (blob_item cs b)) (chunk_info d)) ->
        cinfo = map (blob_item cs) (chunk_info d)).
Proof.
  intros Hs Hc Hcs. eexists. split; [exact (storage_info_chunked_eq d shp cs Hs Hc Hcs) |].
  set (step := fun (m : chunk_map) b =>
                 dict_set coords_eqb (fst (blob_item cs b))
                   (snd (blob_item cs b)) m).
  generalize (chunk_info d) as blobs. intros blobs.
  split; [| split; [| split]].
  - assert (G : forall l (acc : chunk_map),
               (List.length (fold_left step l acc)
                <= List.length acc + List.length l)%nat).
    { induction l as [| b l IH]; simpl; intros acc; [lia |].
      specialize (IH (step acc b)).
      pose proof (dict_set_coords_length (fst (blob_item cs b))
                    (snd (blob_item cs b)) acc). unfold step in *. lia. }
    apply (G blobs []).
  - assert (G : forall l (acc : chunk_map) k,
               In k (map fst acc)
               \/ In k (map (fun b => fst (blob_item cs b)) l) ->
               In k (map fst (fold_left step l acc))).
    { induction l as [| b l IH]; simpl; intros acc k H; [tauto |].
      apply IH. destruct H as [H | [H | H]]; auto;
        left; apply dict_set_coords_in; auto. }
    intros b Hb. apply G. right.
    apply in_map_iff. exists b. auto.
  - intros pre b post -> Hpost. rewrite fold_left_app. simpl.
    assert (G : forall l (acc : chunk_map) k,
               (forall b', In b' l -> fst (blob_item cs b') <> k) ->
               dict_get coords_eqb k (fold_left step l acc)
               = dict_get coords_eqb k acc).
    { induction l as [| x l IH]; simpl; intros acc k H; auto.
      rewrite IH by (intros b' Hb'; apply H; now right). unfold step.
      apply dict_get_set_coords_neq. intros E. apply (H x); auto. }
    rewrite G by assumption.
    apply dict_get_set_coords_eq.
  - assert (G : forall l (acc : chunk_map),
               NoDup (map fst acc ++ map (fun b => fst (blob_item cs b)) l) ->
               fold_left step l acc = acc ++ map (blob_item cs) l).
    { induction l as [| b l IH]; simpl; intros acc Hnd.
      - now rewrite app_nil_r.
      - unfold step at 2.
        rewrite dict_set_coords_fresh.
        + rewrite IH.
          * rewrite <- app_assoc. reflexivity.
          * rewrite map_app, <- app_assoc. exact Hnd.
        + apply NoDup_remove_2 in Hnd. intros Hin. apply Hnd.
          apply in_or_app. now left. }
    intros Hnd. apply (G blobs []). exact Hnd.
Qed.

Lemma storage_info_chunked_witness :
  _storage_info gzip_plain = Ok [([0], (4096, 31)); ([1], (4127, 29))].
Proof.
  assert (Hcs : Forall (fun b => b <> 0) [5])
    by (repeat constructor; discriminate).
  destruct (storage_info_chunked gzip_plain [10] [5] eq_refl eq_refl Hcs)
    as [cinfo [H [_ [_ [_ Hall]]]]].
  rewrite H. f_equal. apply Hall.
  repeat constructor; simpl; intuition discriminate.
Defined.

(** ** _translator *)

Lemma transfer_attrs_other_keys t h5attrs path s s' k :
  _transfer_attrs t h5attrs path s = Ok s' ->
  k <> meta_key path ".zattrs" -> sget k s' = sget k s.
Proof.
  unfold _transfer_attrs. intros H Hk. revert H.
  apply (for_each_invariant (fun a b : store => sget k b = sget k a)).
  - auto.
  - intros a b c H1 H2. congruence.
  - intros a [n v] b H.
    apply transfer_attr_spec in H as [-> | [_ [v' [_ [_ [_ ->]]]]]]; auto.
    unfold attrs_set. now apply sget_sset_neq.
Qed.

Lemma attach_dims_cases t d path s s' :
  attach_dims t d path s = Ok s' ->
  (xr t = false /\ s' = s)
  \/ (xr t = true
      /\ exists adims, _get_array_dims d = Ok adims
           /\ s' = attrs_set path "_ARRAY_DIMENSIONS" (PStrList adims) s).
Proof.
  unfold attach_dims. destruct (xr t).
  - destruct (_get_array_dims d) as [adims |]; simpl; [| discriminate].
    intros [= <-]. right. split; auto. now exists adims.
  - intros [= <-]. now left.
Qed.

Lemma attach_dims_other_keys t d path s s' k :
  attach_dims t d path s = Ok s' ->
  k <> meta_key path ".zattrs" -> sget k s' = sget k s.
Proof.
  intros H Hk.
  apply attach_dims_cases in H as [[_ ->] | [_ [adims [_ ->]]]]; auto.
  unfold attrs_set. now apply sget_sset_neq.
Qed.

Lemma never_written_storage d :
  never_written d = true -> _storage_info d = Ok [].
Proof.
  unfold never_written, _storage_info.
  destruct (shape d); auto. destruct (chunks d).
  - destruct (chunk_info d); [auto | discriminate].
  - destruct (get_offset d); [discriminate | auto].
Qed.

Lemma zarray_not_zattrs path : meta_key path ".zarray" <> meta_key path ".zattrs".
Proof. intros H. apply meta_key_inj in H. discriminate. Qed.

Lemma written_dataset_zarray t s d cinfo s' :
  layout d <> COMPACT ->
  _storage_info d = Ok cinfo ->
  xr t && is_scale d && is_nil cinfo = false ->
  _translator t s (IsDataset d) = Ok s' ->
  sget (meta_key (zarr_path (name d)) ".zarray") s' = Some (array_document d).
Proof.
  intros Hl Hc Hb H.
  apply translator_dataset_inv in H as [_ [cinfo' [Hc' H]]]; auto.
  rewrite Hc in Hc'. injection Hc' as <-.
  destruct H as [[Hb' _] | [_ [s1 [s2 [H1 [H2 ->]]]]]]; [congruence |].
  rewrite sget_write_chunks_other
    by (apply is_chunk_key_document; reflexivity).
  rewrite (attach_dims_other_keys _ _ _ _ _ _ H2 (zarray_not_zattrs _)).
  rewrite (transfer_attrs_other_keys _ _ _ _ _ _ H1 (zarray_not_zattrs _)).
  unfold create_dataset. apply sget_sset_eq.
Qed.

(** X6. A dataset that was never written (no dataspace, contiguous without
    an allocated offset, or chunked without an allocated chunk) yields no
    chunk reference.  In xarray mode, when it is a dimension scale, the
    translator returns before creating anything and the store is unchanged;
    otherwise, when the dataset has a dataspace, the array descriptor is
    written and the array has no chunk key.  (Of a null dataspace outside
    that first case nothing is said: zarr refuses to create an array
    without a shape.) *)
Theorem never_written_dataset t s d s' :
  layout d <> COMPACT ->
  never_written d = true ->
  _translator t s (IsDataset d) = Ok s' ->
  (xr t && is_scale d = true -> s' = s)
  /\ (xr t && is_scale d = false -> shape d <> None ->
      chunk_entries (zarr_path (name d)) s' = []
      /\ sget (meta_key (zarr_path (name d)) ".zarray") s'
         = Some (array_document d)).
Proof.
  intros Hl Hnw H. pose proof (never_written_storage d Hnw) as Hc.
  split.
  - intros Hb.
    apply translator_dataset_inv in H as [_ [cinfo [Hc' H]]]; auto.
    rewrite Hc in Hc'. injection Hc' as <-.
    destruct H as [[_ ->] | [Hb' _]]; auto.
    rewrite Hb in Hb'. discriminate.
  - intros Hb _.
    assert (Hb' : xr t && is_scale d && is_nil (@nil (list Z * (Z * Z))) = false)
      by (rewrite Hb; reflexivity).
    split.
    + now rewrite (translator_chunk_entries t s d [] s' Hl Hc Hb' H).
    + exact (written_dataset_zarray t s d [] s' Hl Hc Hb' H).
Qed.

Lemma never_written_dataset_witness :
  store_or_empty
    (_translator xr_translator [(".zgroup", Doc ZGroup)]
       (IsDataset unwritten_scale))
  = [(".zgroup", Doc ZGroup)]
  /\ chunk_entries "d"
       (store_or_empty
          (_translator (sample_translator 0 no_file) [(".zgroup", Doc ZGroup)]
             (IsDataset unallocated))) = []
  /\ sget "d/.zarray"
       (store_or_empty
          (_translator (sample_translator 0 no_file) [(".zgroup", Doc ZGroup)]
             (IsDataset unallocated)))
     = Some (Doc (ZArray (Some [10]) "<f8" None (PInt 0) None)).
Proof.
  split.
  - assert (Hl : layout unwritten_scale <> COMPACT) by discriminate.
    exact (proj1 (never_written_dataset xr_translator
                    [(".zgroup", Doc ZGroup)] unwritten_scale _
                    Hl eq_refl eq_refl) eq_refl).
  - assert (Hl : layout unallocated <> COMPACT) by discriminate.
    assert (Hs : shape unallocated <> None) by discriminate.
    exact (proj2 (never_written_dataset (sample_translator 0 no_file)
                    [(".zgroup", Doc ZGroup)] unallocated _
                    Hl eq_refl eq_refl) eq_refl Hs).
Defined.

(** X7. A dataset the translator does not skip is described under
    [<path>/.zarray] by the document made of its shape, dtype, chunking and
    fill value, with a Zlib compressor exactly when its compression is gzip;
    in xarray mode the attribute [_ARRAY_DIMENSIONS] of the array is the
    list [_get_array_dims] returns, whatever attribute of that name the
    HDF5 dataset carries. *)
Theorem translator_describes_array t s d cinfo s' :
  layout d <> COMPACT ->
  _storage_info d = Ok cinfo ->
  xr t && is_scale d && is_nil cinfo = false ->
  _translator t s (IsDataset d) = Ok s' ->
  sget (meta_key (zarr_path (name d)) ".zarray") s'
  = Some (Doc (ZArray (shape d) (dtype d) (chunks d) (fillvalue d)
                 (if option_string_eqb (compression d) "gzip"
                  then Some (Zlib (compression_opts d)) else None)))
  /\ (xr t = true ->
      exists adims,
        _get_array_dims d = Ok adims
        /\ sget "_ARRAY_DIMENSIONS" (attrs_of (zarr_path (name d)) s')
           = Some (PStrList adims)).
Proof.
  intros Hl Hc Hb H. split.
  - exact (written_dataset_zarray t s d cinfo s' Hl Hc Hb H).
  - intros Hxr.
    apply translator_dataset_inv in H as [_ [cinfo' [Hc' H]]]; auto.
    rewrite Hc in Hc'. injection Hc' as <-.
    destruct H as [[Hb' _] | [_ [s1 [s2 [H1 [H2 ->]]]]]]; [congruence |].
    apply attach_dims_cases in H2 as [[Hx _] | [_ [adims [Ha ->]]]];
      [congruence |].
    exists adims. split; auto.
    unfold attrs_of at 1.
    rewrite sget_write_chunks_other
      by (apply is_chunk_key_document; reflexivity).
    unfold attrs_set. rewrite sget_sset_eq. apply sget_sset_eq.
Qed.

Lemma translator_describes_array_witness :
  sget "d/.zarray"
    (store_or_empty
       (_translator (sample_translator 0 no_file) [] (IsDataset gzip_plain)))
  = Some (Doc (ZArray (Some [10]) "<f8" (Some [5]) (PInt 0)
                 (Some (Zlib (PInt 4))))).
Proof.
  assert (Hl : layout gzip_plain <> COMPACT) by discriminate.
  destruct (translator_describes_array (sample_translator 0 no_file) []
              gzip_plain _ _ Hl eq_refl eq_refl eq_refl) as [H _].
  exact H.
Defined.

Lemma startswith_false_neq k p r : startswith k p = false -> k <> p +++ r.
Proof.
  intros H ->. rewrite startswith_append in H. discriminate.
Qed.

(** X8. For a node as the visit meets it, under an absolute name with no
    backslash, no empty component and no component [.] or [..], and with
    the root group and the groups above it already in the store, visiting
    the node changes the store only under the node's own prefix: a key that
    does not start with [<path>/] has the same value, or the same absence,
    after [_translator] as before. *)
Theorem translator_stays_under_prefix t s obj s' k :
  met_in_visit obj s ->
  _translator t s obj = Ok s' ->
  startswith k (node_prefix obj) = false ->
  sget k s' = sget k s.
Proof.
  intros _ H Hk. destruct obj as [d | g |]; simpl in Hk.
  - assert (Hza : forall doc, k <> meta_key (zarr_path (name d)) doc).
    { intros doc. rewrite (meta_key_prefix (zarr_path (name d)) doc).
      now apply startswith_false_neq. }
    destruct (layout_eqb (layout d) COMPACT) eqn:El.
    + simpl in H. rewrite El in H. now injection H as <-.
    + assert (Hl : layout d <> COMPACT)
        by (intros E; rewrite E in El; discriminate).
      apply translator_dataset_inv in H as [_ [cinfo [Hc H]]]; auto.
      destruct H as [[_ ->] | [_ [s1 [s2 [H1 [H2 ->]]]]]]; auto.
      rewrite sget_write_chunks_other.
      * rewrite (attach_dims_other_keys _ _ _ _ _ _ H2 (Hza _)).
        rewrite (transfer_attrs_other_keys _ _ _ _ _ _ H1 (Hza _)).
        unfold create_dataset. rewrite sget_sset_neq by apply Hza.
        unfold rmdir.
        rewrite (sget_filter_key
                   (fun key => negb (startswith key
                                       (meta_key (zarr_path (name d)) "")))).
        now rewrite Hk.
      * destruct (is_chunk_key (zarr_path (name d)) k) eqn:E; auto.
        apply is_chunk_key_startswith in E. congruence.
  - assert (Hza : forall doc, k <> meta_key (zarr_path (gname g)) doc).
    { intros doc. rewrite (meta_key_prefix (zarr_path (gname g)) doc).
      now apply startswith_false_neq. }
    simpl in H.
    rewrite (transfer_attrs_other_keys _ _ _ _ _ _ H (Hza _)).
    unfold create_group. now apply sget_sset_neq.
  - simpl in H. now injection H as <-.
Qed.

Lemma translator_stays_under_prefix_witness :
  sget "g/e/0"
    (store_or_empty
       (_translator (sample_translator 0 no_file) nested_store
          (IsDataset nested_dataset)))
  = Some (Ref "s3://bucket/a.h5" 8 8).
Proof.
  assert (Hmet : met_in_visit (IsDataset nested_dataset) nested_store)
    by (split; reflexivity).
  exact (translator_stays_under_prefix (sample_translator 0 no_file)
           nested_store (IsDataset nested_dataset) _ "g/e/0"
           Hmet eq_refl eq_refl).
Defined.

(** ** _get_array_dims *)

Lemma dims_step_ok_iff d acc n :
  (exists r, dims_step d acc n = Ok r)
  <-> (is_scale d = true \/ (List.length (dims d n) <= 1)%nat).
Proof.
  unfold dims_step.
  destruct (Nat.eqb_spec (List.length (dims d n)) 1) as [E | E].
  - split; [intros _; right; lia | intros _; eauto].
  - destruct (is_scale d).
    + split; [auto | intros _; eauto].
    + destruct (Nat.ltb_spec 1 (List.length (dims d n))).
      * split; [intros [r Hr]; discriminate | intros [Hs | Hs]];
          [discriminate | lia].
      * split; [intros _; right; lia | intros _; eauto].
Qed.

Lemma axis_names_scale d n :
  is_scale d = true -> List.length (axis_names d n) = 1%nat.
Proof.
  intros H. unfold axis_names. rewrite H.
  now destruct (List.length (dims d n) =? 1)%nat.
Qed.

Lemma flat_map_unit_length {A B : Type} (f : A -> list B) l :
  (forall x, List.length (f x) = 1%nat) ->
  List.length (flat_map f l) = List.length l.
Proof.
  intros H. induction l as [| x l IH]; simpl; auto.
  rewrite length_app, H, IH. reflexivity.
Qed.

(** X9. [_get_array_dims] on a dataset with a shape: it succeeds exactly
    when the dataset is itself a dimension scale or no axis has two or more
    scales attached; for a dimension scale the result has one name for every
    axis; and the only error it can raise is the RuntimeError about several
    scales on one axis. *)
Theorem array_dims_outcome d shp :
  shape d = Some shp ->
  ((exists adims, _get_array_dims d = Ok adims)
   <-> (is_scale d = true \/ at_most_one_scale d (List.length shp)))
  /\ (forall adims, is_scale d = true -> _get_array_dims d = Ok adims ->
                    List.length adims = List.length shp)
  /\ (forall e, _get_array_dims d = Raise e ->
                e = RuntimeError "dimension scales attached to dimension").
Proof.
  intros Hs. unfold _get_array_dims. rewrite Hs. split; [| split].
  - rewrite (for_each_ok_iff (dims_step d)
               (fun n => is_scale d = true
                         \/ (List.length (dims d n) <= 1)%nat))
      by (intros a x; apply dims_step_ok_iff).
    rewrite Forall_forall. unfold at_most_one_scale. split.
    + intros H. destruct (is_scale d) eqn:E; [now left | right].
      intros n Hn. destruct (H n) as [Hx | Hx]; [| discriminate | exact Hx].
      apply in_seq. lia.
    + intros [H | H] n Hn; [now left | right].
      apply H. apply in_seq in Hn. lia.
  - intros adims Hsc H. apply _get_array_dims_loop in H. subst adims.
    simpl. rewrite flat_map_unit_length by (intros; now apply axis_names_scale).
    apply length_seq.
  - intros e H. apply for_each_error in H as [a [n [_ H]]].
    unfold dims_step in H.
    destruct (List.length (dims d n) =? 1)%nat; [discriminate |].
    destruct (is_scale d); [discriminate |].
    destruct (1 <? List.length (dims d n))%nat; [| discriminate].
    now injection H as <-.
Qed.

Lemma array_dims_outcome_witness :
  exists adims, _get_array_dims half_labelled = Ok adims.
Proof.
  destruct (array_dims_outcome half_labelled [4; 6] eq_refl) as [[_ H] _].
  apply H. right. intros [| n] _; simpl; lia.
Defined.

(** ** translate *)

Lemma plain_sset_doc u k doc s :
  plain_store u s -> plain_store u (sset k (Doc doc) s).
Proof.
  intros H k' v' Hin. apply in_sset in Hin as [[= -> ->] | Hin].
  - exact I.
  - eauto.
Qed.

Lemma plain_transfer_attrs u t h5attrs path s s' :
  _transfer_attrs t h5attrs path s = Ok s' ->
  plain_store u s -> plain_store u s'.
Proof.
  unfold _transfer_attrs.
  apply (for_each_invariant
           (fun a b : store => plain_store u a -> plain_store u b)).
  - auto.
  - auto.
  - intros a [n v] b H.
    apply transfer_attr_spec in H as [-> | [_ [v' [_ [_ [_ ->]]]]]]; auto.
    unfold attrs_set. apply plain_sset_doc.
Qed.

Lemma plain_write_chunks u path cinfo s :
  plain_store u s -> plain_store u (write_chunks u path cinfo s).
Proof.
  unfold write_chunks. revert s.
  induction cinfo as [| c cinfo IH]; simpl; intros s H; auto.
  apply IH. intros k v Hin. apply in_sset in Hin as [[= -> ->] | Hin].
  - reflexivity.
  - eauto.
Qed.

Lemma plain_translator t s obj s' :
  _translator t s obj = Ok s' ->
  plain_store (uri t) s -> plain_store (uri t) s'.
Proof.
  intros H Hs. destruct obj as [d | g |].
  - destruct (layout_eqb (layout d) COMPACT) eqn:El.
    + simpl in H. rewrite El in H. now injection H as <-.
    + assert (Hl : layout d <> COMPACT)
        by (intros E; rewrite E in El; discriminate).
      apply translator_dataset_inv in H as [_ [cinfo [Hc H]]]; auto.
      destruct H as [[_ ->] | [_ [s1 [s2 [H1 [H2 ->]]]]]]; auto.
      apply plain_write_chunks.
      assert (P1 : plain_store (uri t) s1).
      { apply (plain_transfer_attrs _ _ _ _ _ _ H1).
        unfold create_dataset. apply plain_sset_doc.
        intros k v Hin. unfold rmdir in Hin.
        apply filter_In in Hin as [Hin _]. eauto. }
      apply attach_dims_cases in H2 as [[_ ->] | [_ [adims [_ ->]]]]; auto.
      unfold attrs_set. now apply plain_sset_doc.
  - simpl in H. apply (plain_transfer_attrs _ _ _ _ _ _ H).
    unfold create_group. now apply plain_sset_doc.
  - simpl in H. now injection H as <-.
Qed.

Lemma plain_visit t (objs : list (string * h5obj)) s s' :
  for_each (fun s item => _translator t s (snd item)) objs s = Ok s' ->
  plain_store (uri t) s -> plain_store (uri t) s'.
Proof.
  apply (for_each_invariant
           (fun a b : store =>
              plain_store (uri t) a -> plain_store (uri t) b)); auto.
  intros a x b H. now apply plain_translator with (obj := snd x).
Qed.

(** X10. Every value of the store [translate] returns is a metadata
    document, a reference or an inlined chunk.  A reference names the file's
    URL in version 0 and the placeholder of the single template in version
    1, and with a positive inline threshold its length is not below the
    threshold.  An inlined chunk occurs only with a positive threshold, as
    bytes in version 0 and as text in version 1, and holds the encoding of
    what was read from the file at a range shorter than the threshold. *)
Theorem translate_values t f r :
  translate t f = Ok r ->
  forall k v, In (k, v) (refs_of r) -> translated_value t v.
Proof.
  intros H k v Hin.
  apply translate_inv in H as [s1 [s2 [H1 [H2 [_ Hr]]]]].
  rewrite Hr in Hin. unfold map_values in Hin.
  apply in_map_iff in Hin as [[k0 v0] [[= <- <-] Hin]].
  assert (P : plain_store (uri t) s2).
  { apply (plain_visit _ _ _ _ H2).
    apply (plain_transfer_attrs _ _ _ _ _ _ H1).
    intros k' v' [[= <- <-] | []]. exact I. }
  specialize (P _ _ Hin). cbn [snd].
  unfold final_entry, translated_value, final_url.
  destruct v0 as [u off size | b | b | doc]; simpl in P; try contradiction.
  - subst u. unfold inline_value.
    destruct (Z.ltb_spec 0 (inline t)) as [Hi | Hi].
    + destruct (Z.ltb_spec size (inline t)) as [Hz | Hz].
      * destruct (Z.ltb_spec (spec t) 1); simpl;
          (split; [lia | split; [lia |]]); exists off, size; auto.
      * destruct (Z.ltb_spec (spec t) 1); simpl; split; auto.
    + destruct (Z.ltb_spec (spec t) 1); simpl; split; auto; lia.
  - destruct (0 <? inline t), (spec t <? 1); exact I.
Qed.

Lemma translate_values_witness :
  translated_value (sample_translator 0 no_file) (Ref "{{u}}" 4096 31).
Proof.
  apply (translate_values (sample_translator 0 no_file) (file_of gzip_plain)
           _ eq_refl "d/0").
  vm_compute. tauto.
Defined.

Lemma fold_left_ext_all {A B : Type} (f g : A -> B -> A) l a :
  (forall a x, f a x = g a x) -> fold_left f l a = fold_left g l a.
Proof.
  intros H. revert a. induction l as [| x l IH]; simpl; intros a; auto.
  now rewrite H, IH.
Qed.

(** X11. [translate] reads the file only to inline: when the inline
    threshold is not positive the result does not depend on the file's
    bytes at all, and otherwise it depends on them only at ranges shorter
    than the threshold. *)
Theorem translate_reads_only_short_ranges t f rd :
  (0 < inline t ->
   forall off size, size < inline t -> rd off size = read_at t off size) ->
  translate (with_reader rd t) f = translate t f.
Proof.
  intros H. unfold translate. cbn [with_reader uri xr spec inline].
  change (_transfer_attrs (with_reader rd t)) with (_transfer_attrs t).
  destruct (_transfer_attrs t (root_attrs f) "" (zarr_group [])) as [s1 |];
    [| reflexivity].
  cbn [bind].
  change (for_each (fun s (item : string * h5obj) =>
                      _translator (with_reader rd t) s (snd item)))
    with (for_each (fun s (item : string * h5obj) =>
                      _translator t s (snd item))).
  destruct (for_each (fun s (item : string * h5obj) =>
                        _translator t s (snd item)) (items f) s1)
    as [s2 |]; [| reflexivity].
  cbn [bind].
  destruct (Z.ltb_spec 0 (inline t)) as [Hi | Hi]; [| reflexivity].
  assert (E : _do_inline (with_reader rd t) (inline t) s2
              = _do_inline t (inline t) s2).
  { unfold _do_inline. apply fold_left_ext_all. intros a [k v]. cbn [fst snd].
    destruct v as [u off size | | |]; auto.
    destruct (Z.ltb_spec size (inline t)); auto.
    cbn [with_reader read_at]. now rewrite H. }
  now rewrite E.
Qed.

Lemma translate_reads_only_short_ranges_witness :
  translate (with_reader (filled_file "x") (sample_translator 0 no_file))
    (file_of gzip_plain)
  = translate (sample_translator 0 no_file) (file_of gzip_plain).
Proof.
  apply (translate_reads_only_short_ranges (sample_translator 0 no_file)).
  simpl. lia.
Defined.

(** ** _do_inline *)

Lemma string_length_append a b :
  String.length (a +++ b) = (String.length a + String.length b)%nat.
Proof. induction a as [| c a IH]; simpl; auto. Qed.

Lemma b64encode_length data :
  String.length (Base64.b64encode data)
  = (4 * ((String.length data + 2) / 3))%nat.
Proof.
  induction data as [| x | x y | x y z r IH] using string_ind3.
  - reflexivity.
  - now destruct x.
  - now destruct x, y.
  - destruct x, y, z.
    cbn [Base64.b64encode Base64.enc3 String.append String.length].
    rewrite IH.
    replace (S (S (S (String.length r))) + 2)%nat
      with (1 * 3 + (String.length r + 2))%nat by lia.
    rewrite Nat.div_add_l by discriminate. lia.
Qed.

(** X12. The length of the value the Inliner stores for a chunk: the
    chunk's own length when it is ASCII, and otherwise the seven bytes of
    the tag and four bytes for every three bytes or part of three; in both
    cases it is not below the chunk's length. *)
Theorem inline_encode_length data :
  String.length (inline_encode data)
  = (if is_ascii data then String.length data
     else 7 + 4 * ((String.length data + 2) / 3))%nat
  /\ (String.length data <= String.length (inline_encode data))%nat.
Proof.
  assert (E : String.length (inline_encode data)
              = (if is_ascii data then String.length data
                 else 7 + 4 * ((String.length data + 2) / 3))%nat).
  { unfold inline_encode. destruct (is_ascii data); auto.
    rewrite string_length_append, b64encode_length. reflexivity. }
  split; [exact E |]. rewrite E. destruct (is_ascii data); [lia |].
  pose proof (Nat.div_mod_eq (String.length data + 2) 3) as Hd.
  pose proof (Nat.mod_upper_bound (String.length data + 2) 3) as Hm.
  lia.
Qed.

(** ** _determine_dims *)

Lemma determine_dims_unfold dims dims0 n :
  _determine_dims dims dims0 n
  = (concat <- for_each (classify_step dims0 n) dims [] ;;
     Ok {| extra_dims := filter (fun k => negb (smem k dims0)) (keys dims);
           concat_dims := concat;
           same_dims :=
             filter (fun k =>
                       negb (mem_string k
                               (filter (fun k => negb (smem k dims0))
                                  (keys dims)))
                       && negb (mem_string k concat)) (keys dims) |}).
Proof. reflexivity. Qed.

Lemma classify_step_ok_iff dims0 n acc kv :
  (exists b, classify_step dims0 n acc kv = Ok b) <-> measurable dims0 kv.
Proof.
  unfold classify_step, measurable, true_div_eq.
  destruct (sget (fst kv) dims0) as [d0 |].
  - destruct (Z.eqb_spec d0 0) as [E | E]; simpl.
    + split; [intros [b Hb]; discriminate |].
      intros [d [[= <-] Hd]]. contradiction.
    + split; eauto.
  - split; [intros [b Hb]; discriminate | intros [d [Hd _]]; discriminate].
Qed.

(** X13. Once the two datasets are opened, the classification of lines
    429-431 of [_determine_dims] completes exactly when every dimension of
    the merged dataset is a dimension of the first source with a non-zero
    extent.  Otherwise it raises KeyError for a dimension the first source
    lacks, or ZeroDivisionError for one whose extent there is zero. *)
Theorem determine_dims_succeeds_iff dims dims0 n :
  ((exists p, _determine_dims dims dims0 n = Ok p)
   <-> forall k v, In (k, v) dims ->
                   exists d0, sget k dims0 = Some d0 /\ d0 <> 0)
  /\ (forall e, _determine_dims dims dims0 n = Raise e ->
        (exists k, e = KeyError k /\ In k (keys dims) /\ sget k dims0 = None)
        \/ (e = ZeroDivisionError
            /\ exists k, In k (keys dims) /\ sget k dims0 = Some 0)).
Proof.
  rewrite determine_dims_unfold.
  pose proof (for_each_ok_iff (classify_step dims0 n) (measurable dims0)
                dims [] (classify_step_ok_iff dims0 n)) as Hiff.
  rewrite Forall_forall in Hiff.
  split; [split |].
  - intros [p Hp] k v Hin.
    destruct (for_each (classify_step dims0 n) dims []) as [c |] eqn:E;
      [| discriminate].
    apply (proj1 Hiff (ex_intro _ c eq_refl) (k, v) Hin).
  - intros H.
    destruct (proj2 Hiff) as [c ->]; [| simpl; eauto].
    intros [k v] Hin. exact (H k v Hin).
  - intros e H.
    destruct (for_each (classify_step dims0 n) dims []) as [c |] eqn:E;
      [discriminate |].
    simpl in H. injection H as <-.
    apply for_each_error in E as [a [[k v] [Hin E]]].
    assert (Hk : In k (keys dims))
      by (unfold keys; apply in_map_iff; exists (k, v); auto).
    unfold classify_step, true_div_eq in E. cbn [fst snd] in E.
    destruct (sget k dims0) as [d0 |] eqn:Hd.
    + destruct (Z.eqb_spec d0 0) as [-> | Hz]; simpl in E; [| discriminate].
      injection E as <-. right. split; auto. now exists k.
    + injection E as <-. left. now exists k.
Qed.

(** X14. When [_determine_dims] returns, no dimension is classified as
    extra, and every dimension of the merged dataset is either concatenated
    or shared, never both.  When the extents are below 2^53 in absolute
    value, where the float quotient of line 430 is exact, the concatenated
    ones are those whose merged extent is the extent in the first source
    times the number of sources.  With a single source, whose dimensions
    are the merged ones, every dimension is classified as concatenated and
    none as shared. *)
Theorem determine_dims_classes dims dims0 n p :
  _determine_dims dims dims0 n = Ok p ->
  extra_dims p = []
  /\ (forall k, In k (keys dims)
                <-> In k (concat_dims p) \/ In k (same_dims p))
  /\ (forall k, ~ (In k (concat_dims p) /\ In k (same_dims p)))
  /\ (extents_exact dims -> extents_exact dims0 ->
      forall k, In k (concat_dims p)
                <-> exists v d0, In (k, v) dims /\ sget k dims0 = Some d0
                                 /\ d0 <> 0 /\ v = d0 * n)
  /\ (n = 1 -> dims0 = dims -> NoDup (keys dims) ->
      concat_dims p = keys dims /\ same_dims p = []).
Proof.
  intros H.
  destruct (determine_dims_partition dims dims0 n p H) as [H1 [H2 [H3 H4]]].
  split; [assumption |]. split; [assumption |]. split; [assumption |].
  split; [intros _ _; assumption |].
  intros -> -> Hnd.
  rewrite determine_dims_unfold in H.
  destruct (for_each (classify_step dims 1) dims []) as [c |] eqn:E;
    [| discriminate].
  simpl in H. injection H as <-. cbn [concat_dims same_dims].
  apply determine_dims_loop in E as [-> _]. simpl.
  assert (Hall : filter (stacked dims 1) dims = dims).
  { apply forallb_filter_id. apply forallb_forall. intros [k v] Hin.
    unfold stacked. cbn [fst snd].
    rewrite (in_sget k v dims Hnd Hin). apply Z.eqb_eq. lia. }
  rewrite Hall. split; [reflexivity |].
  apply filter_none. intros k Hk. fold (keys dims).
  apply mem_string_iff in Hk. rewrite Hk.
  now rewrite andb_false_r.
Qed.

Lemma determine_dims_classes_witness :
  In "t" (concat_dims
            {| extra_dims := []; concat_dims := ["t"]; same_dims := ["x"] |}).
Proof.
  destruct (determine_dims_classes [("t", 15); ("x", 4)] [("t", 5); ("x", 4)]
              3 _ eq_refl) as [_ [_ [_ [H _]]]].
  apply H.
  - intros k v [[= <- <-] | [[= <- <-] | []]]; reflexivity.
  - intros k v [[= <- <-] | [[= <- <-] | []]]; reflexivity.
  - exists 15, 5. simpl. repeat split; auto. discriminate.
Defined.

(** ** _build_output *)

Lemma build_output_unfold seed shared ds ds0 fss :
  _build_output seed shared ds ds0 fss
  = (out <- for_each (shared_step fss) shared seed ;;
     for_each (variable_step ds ds0 fss) (keys (ds_variables ds)) out).
Proof. reflexivity. Qed.

Lemma target_key_any_source variable i j k K :
  target_key variable true i k = Some K -> target_key variable true j k = Some k.
Proof.
  intros H. apply target_key_inv in H as [H1 [H2 _]].
  now rewrite (target_key_some variable true j k H1 H2).
Qed.

Lemma place_references_same variable i fs out k :
  NoDup (keys fs) ->
  target_key variable true i k = Some k ->
  sget k (fold_left (place_reference variable true i) fs out)
  = match sget k fs with Some e => Some e | None => sget k out end.
Proof.
  intros Hnd Hk. revert out.
  induction fs as [| [k0 e0] fs IH]; intros out; [reflexivity |].
  simpl in Hnd. inversion Hnd as [| ? ? Hnot Hnd']; subst.
  cbn [fold_left]. rewrite IH by assumption.
  rewrite place_reference_target. cbn [fst snd].
  unfold sget at 3. cbn [dict_get]. fold (@sget entry).
  destruct (String.eqb_spec k k0) as [-> | Hne].
  - rewrite (sget_notin k0 fs Hnot), Hk. apply sget_sset_eq.
  - destruct (sget k fs); auto.
    destruct (target_key variable true i k0) as [K |] eqn:E; auto.
    apply target_key_inv in E as [_ [_ ->]]. now apply sget_sset_neq.
Qed.

Lemma place_sources_same variable (l : list (nat * store)) out k :
  Forall (fun fs => NoDup (keys fs)) (map snd l) ->
  target_key variable true 0 k = Some k ->
  sget k (fold_left
            (fun out ifs =>
               fold_left (place_reference variable true (fst ifs))
                 (snd ifs) out) l out)
  = match last_holding k (map snd l) with
    | Some e => Some e
    | None => sget k out
    end.
Proof.
  intros Hnd Hk. revert out.
  induction l as [| [i fs] l IH]; intros out; [reflexivity |].
  simpl in Hnd. inversion Hnd as [| ? ? Hfs Hl]; subst.
  cbn [fold_left map last_holding fst snd]. rewrite IH by assumption.
  rewrite place_references_same;
    [| assumption | now apply (target_key_any_source variable 0 i k k)].
  destruct (last_holding k (map snd l)); auto.
Qed.

Lemma place_variable_same variable fss out k :
  Forall (fun fs => NoDup (keys fs)) fss ->
  target_key variable true 0 k = Some k ->
  sget k (place_variable variable true fss out)
  = match last_holding k fss with Some e => Some e | None => sget k out end.
Proof.
  intros Hnd Hk. unfold place_variable.
  rewrite place_sources_same; rewrite ?map_snd_enumerate; auto.
Qed.

(** X15. A variable that is not a dimension and has the same shape merged as
    in the first source keeps its keys, so the sources overwrite one
    another: the entry [_build_output] returns under a chunk key of that
    variable is the one of the last source that holds the key. *)
Theorem equal_shape_last_source_wins seed shared ds ds0 fss out
    variable var var0 k e :
  _build_output seed shared ds ds0 fss = Ok out ->
  NoDup (keys (ds_variables ds)) ->
  Forall (fun fs => NoDup (keys fs)) fss ->
  smem variable (ds_dims ds) = false ->
  sget variable (ds_variables ds) = Some var ->
  sget variable (ds_variables ds0) = Some var0 ->
  var_shape var = var_shape var0 ->
  all_slashes variable = false ->
  fst (path_split k) = variable -> is_document k = false ->
  last_holding k fss = Some e ->
  sget k out = Some e.
Proof.
  intros H Hvars Hfss Hdim Hvar Hvar0 Hshape Hnorm Hk Hdoc Hlast.
  rewrite build_output_unfold in H.
  destruct (for_each (shared_step fss) shared seed) as [out1 |];
    [| discriminate].
  cbn [bind] in H.
  assert (Hin : In variable (keys (ds_variables ds)))
    by (eapply sget_some_in_keys; eauto).
  apply in_split in Hin as [pre [post Hsplit]].
  rewrite Hsplit in H, Hvars.
  apply for_each_split in H as [a [b [_ [Hstep Hpost]]]].
  apply NoDup_remove_2 in Hvars.
  assert (Hb : sget k b = Some e).
  { unfold variable_step in Hstep. rewrite Hdim, Hvar, Hvar0 in Hstep.
    destruct (strings_eqb _ _); [| discriminate].
    injection Hstep as <-.
    destruct (shape_eqb_spec (var_shape var) (var_shape var0));
      [| contradiction].
    rewrite place_variable_same, Hlast; auto.
    apply target_key_some; auto. }
  rewrite <- Hb. revert Hpost.
  apply (for_each_invariant_in (fun x y : store => sget k y = sget k x)).
  - reflexivity.
  - intros x y z H1 H2. congruence.
  - intros x other y Hother Hy.
    assert (Hne : other <> variable).
    { intros ->. apply Hvars. apply in_or_app. now right. }
    apply copy_variables_step in Hy as [[_ ->] | [v [v0 [_ [_ [_ ->]]]]]];
      auto.
    apply sget_place_variable_other.
    intros i k0 K HK.
    exact (target_key_foreign other _ i k0 K k variable HK Hk Hnorm Hne).
Qed.

Lemma equal_shape_last_source_wins_witness :
  sget "w/0"
    (store_or_empty
       (_build_output flat_seed ["x"] flat_dataset flat_dataset flat_sources))
  = Some (Ref "s3://bucket/1.h5" 136 32).
Proof.
  assert (Hv : NoDup (keys (ds_variables flat_dataset))).
  { repeat constructor; simpl; intuition discriminate. }
  assert (Hs : Forall (fun fs => NoDup (keys fs)) flat_sources).
  { repeat constructor; simpl; intuition discriminate. }
  exact (equal_shape_last_source_wins flat_seed ["x"] flat_dataset
           flat_dataset flat_sources _ "w" _ _ "w/0" _
           eq_refl Hv Hs eq_refl eq_refl eq_refl eq_refl eq_refl eq_refl
           eq_refl eq_refl).
Defined.

(** X16. The entries of a shared dimension are selected by string prefix,
    with no separator: a key of the first source that starts with the name
    of a shared dimension and belongs to the array of any dimension of the
    merged dataset is copied from the first source, in place of what the
    store was seeded with for that key. *)
Theorem shared_prefix_copies seed shared ds ds0 fs0 rest out dim other k :
  _build_output seed shared ds ds0 (fs0 :: rest) = Ok out ->
  NoDup (keys fs0) ->
  In dim shared -> startswith k dim = true ->
  fst (path_split k) = other ->
  In other (keys (ds_dims ds)) -> all_slashes other = false ->
  sget k out
  = match sget k fs0 with Some e => Some e | None => sget k seed end.
Proof.
  intros H Hnd Hdim Hpre Hk Hother Hnorm. unfold _build_output in H.
  destruct (copy_shared shared (fs0 :: rest) seed) as [out1 |] eqn:E;
    simpl in H; [| discriminate].
  rewrite (copy_variables_other _ _ _ _ _ k other H Hk Hnorm Hother).
  rewrite (copy_shared_get _ _ _ _ _ k E Hnd).
  assert (existsb (startswith k) shared = true) as ->; auto.
  apply existsb_exists. now exists dim.
Qed.

Lemma shared_prefix_copies_witness :
  sget "xt/0"
    (store_or_empty
       (_build_output prefixed_seed ["x"] (prefixed_dataset 10)
          (prefixed_dataset 5) prefixed_sources))
  = Some (Ref "s3://bucket/0.h5" 64 40).
Proof.
  assert (Hnd : NoDup (keys (prefixed_source "s3://bucket/0.h5"))).
  { repeat constructor; simpl; intuition discriminate. }
  assert (Hin : In "xt" (keys (ds_dims (prefixed_dataset 10))))
    by (now left).
  assert (Hx : In "x" ["x"]) by (now left).
  exact (shared_prefix_copies prefixed_seed ["x"] (prefixed_dataset 10)
           (prefixed_dataset 5) (prefixed_source "s3://bucket/0.h5")
           [prefixed_source "s3://bucket/1.h5"] _ "x" "xt" "xt/0"
           eq_refl Hnd Hx eq_refl eq_refl Hin eq_refl).
Defined.

Lemma shared_step_ok_iff fss out dim :
  (exists b, shared_step fss out dim = Ok b) <-> fss <> [].
Proof.
  unfold shared_step. destruct fss as [| fs0 rest].
  - split; [intros [b Hb]; discriminate | congruence].
  - split; [discriminate | eauto].
Qed.

Lemma strings_eqb_spec a b : reflect (a = b) (strings_eqb a b).
Proof.
  unfold strings_eqb. destruct (list_eq_dec string_dec a b); now constructor.
Qed.

Lemma variable_step_ok_iff ds ds0 fss out variable :
  (exists b, variable_step ds ds0 fss out variable = Ok b)
  <-> copyable ds ds0 variable.
Proof.
  unfold variable_step, copyable.
  destruct (smem variable (ds_dims ds)).
  - split; [now left | eauto].
  - destruct (sget variable (ds_variables ds)) as [var |].
    + destruct (sget variable (ds_variables ds0)) as [var0 |].
      * destruct (strings_eqb_spec
                    (last_slice (List.length (var_dims var0)) (var_dims var))
                    (var_dims var0)) as [E | E].
        -- split; [intros _; right; now exists var, var0 | eauto].
        -- split; [intros [b Hb]; discriminate |].
           intros [H | [v [v0 [[= <-] [[= <-] H]]]]];
             [discriminate | contradiction].
      * split; [intros [b Hb]; discriminate |].
        intros [H | [v [v0 [_ [H _]]]]]; discriminate.
    + split; [intros [b Hb]; discriminate |].
      intros [H | [v [v0 [H _]]]]; discriminate.
Qed.

(** X17. Once the store is seeded (lines 385-390), the loops of
    [_build_output] complete exactly when there is a source whenever a
    shared dimension is to be copied, and every variable of the merged
    dataset that is not a dimension is a variable of the first source whose
    dimension names end the merged variable's dimension names.  Otherwise
    it raises IndexError, KeyError for the variable, or AssertionError. *)
Theorem build_output_succeeds_iff seed shared ds ds0 fss :
  ((exists out, _build_output seed shared ds ds0 fss = Ok out)
   <-> (shared = [] \/ fss <> [])
       /\ forall variable, In variable (keys (ds_variables ds)) ->
                           copyable ds ds0 variable)
  /\ (forall e, _build_output seed shared ds ds0 fss = Raise e ->
        e = IndexError \/ e = AssertionError
        \/ exists variable, In variable (keys (ds_variables ds))
                            /\ e = KeyError variable).
Proof.
  rewrite build_output_unfold.
  pose proof (for_each_ok_iff (shared_step fss) (fun _ => fss <> [])
                shared seed (shared_step_ok_iff fss)) as Hs.
  assert (Hv : forall out,
             (exists r, for_each (variable_step ds ds0 fss)
                          (keys (ds_variables ds)) out = Ok r)
             <-> Forall (copyable ds ds0) (keys (ds_variables ds))).
  { intros out. apply for_each_ok_iff. apply variable_step_ok_iff. }
  split; [split |].
  - intros [out H].
    destruct (for_each (shared_step fss) shared seed) as [out1 |] eqn:E;
      [| discriminate].
    cbn [bind] in H. split.
    + assert (F : Forall (fun _ : string => fss <> []) shared)
        by (apply Hs; eauto).
      destruct shared as [| dim shared']; [now left | right].
      now inversion F.
    + apply Forall_forall. apply (Hv out1). eauto.
  - intros [Hsh Hvars].
    destruct (proj2 Hs) as [out1 ->].
    { destruct Hsh as [-> | Hne]; [constructor |].
      apply Forall_forall. auto. }
    cbn [bind]. apply Hv. now apply Forall_forall.
  - intros e H.
    destruct (for_each (shared_step fss) shared seed) as [out1 | e1] eqn:E.
    + cbn [bind] in H. apply for_each_error in H as [a [variable [Hin H]]].
      unfold variable_step in H.
      destruct (smem variable (ds_dims ds)); [discriminate |].
      destruct (sget variable (ds_variables ds)) as [var |].
      * destruct (sget variable (ds_variables ds0)) as [var0 |].
        -- destruct (strings_eqb _ _); [discriminate |].
           injection H as <-. auto.
        -- injection H as <-. right. right. eauto.
      * injection H as <-. right. right. eauto.
    + cbn [bind] in H. injection H as <-.
      apply for_each_error in E as [a [dim [_ E]]].
      unfold shared_step in E. destruct fss; [| discriminate].
      injection E as <-. now left.
Qed.

(** ** _consolidate *)

Lemma first_seen_in urls u : In u (first_seen urls) <-> In u urls.
Proof.
  unfold first_seen. fold add_new.
  assert (G : forall l acc,
             In u (fold_left add_new l acc) <-> In u acc \/ In u l).
  { induction l as [| x l IH]; simpl; intros acc; [tauto |].
    rewrite IH. unfold add_new.
    destruct (mem_string x acc) eqn:E.
    - apply mem_string_iff in E. split; [tauto |].
      intros [H | [-> | H]]; auto.
    - rewrite in_app_iff. simpl. tauto. }
  rewrite G. simpl. tauto.
Qed.

Lemma ascii_letters_bound i c :
  String.get i ascii_letters = Some c -> (i < 52)%nat.
Proof.
  intros H. destruct (Nat.lt_ge_cases i 52) as [Hlt | Hge]; auto.
  replace i with (52 + (i - 52))%nat in H by lia.
  cbn in H. destruct (i - 52)%nat; discriminate.
Qed.

Lemma template_step_ok_iff tc a iuv :
  (exists b, template_step tc a iuv = Ok b)
  <-> (tc < snd (snd iuv) -> (fst iuv < 52)%nat).
Proof.
  destruct iuv as [i [u c]]. unfold template_step. cbn [fst snd].
  destruct (Z.ltb_spec tc c) as [Hlt | Hge].
  - destruct (String.get i ascii_letters) as [x |] eqn:E.
    + apply ascii_letters_bound in E. split; eauto.
    + split; [intros [b Hb]; discriminate |].
      intros H. destruct (ascii_letters_get i (H Hlt)) as [x Hx]. congruence.
  - split; [intros _ H; lia | eauto].
Qed.

Lemma counts_position mapping i u c :
  nth_error (count_urls mapping) i = Some (u, c) ->
  nth_error (first_seen (ref_urls mapping)) i = Some u
  /\ c = occurrences u mapping.
Proof.
  intros H. split.
  - rewrite <- count_urls_keys. unfold keys. rewrite nth_error_map, H.
    reflexivity.
  - apply nth_error_In in H. now apply count_urls_value in H.
Qed.

Lemma make_templates_ok_iff mapping tc :
  (exists tpl, make_templates (count_urls mapping) tc = Ok tpl)
  <-> forall i u, nth_error (first_seen (ref_urls mapping)) i = Some u ->
                  tc < occurrences u mapping -> (i < 52)%nat.
Proof.
  unfold make_templates.
  rewrite (for_each_ok_iff (template_step tc)
             (fun iuv => tc < snd (snd iuv) -> (fst iuv < 52)%nat))
    by (intros a x; apply template_step_ok_iff).
  rewrite Forall_forall. split.
  - intros H i u Hi Hlt. apply count_urls_nth in Hi.
    apply in_enumerate in Hi. exact (H _ Hi Hlt).
  - intros H [i [u c]] Hin. cbn [fst snd]. intros Hlt.
    apply in_enumerate in Hin.
    apply counts_position in Hin as [Hi ->]. eauto.
Qed.

Lemma templates_of_mapping mapping tc tpl :
  make_templates (count_urls mapping) tc = Ok tpl ->
  NoDup (map snd tpl)
  /\ forall u, (exists sym, In (sym, u) tpl) <-> templated mapping tc u.
Proof.
  intros Et. pose proof (make_templates_spec _ _ _ Et) as Htpl.
  split.
  - rewrite Htpl. apply template_entries_values.
    rewrite <- (map_map snd fst), map_snd_enumerate.
    fold (keys (count_urls mapping)). rewrite count_urls_keys.
    apply first_seen_NoDup.
  - intros u. unfold templated. split.
    + intros [sym Hin]. rewrite Htpl in Hin.
      apply in_template_entries in Hin as [i [c [Hi [Hlt _]]]].
      apply in_enumerate in Hi. apply counts_position in Hi as [Hi ->].
      split; auto. apply first_seen_in. eapply nth_error_In; eauto.
    + intros [Hin Hlt]. apply first_seen_in in Hin.
      apply In_nth_error in Hin as [i Hi].
      pose proof (count_urls_nth _ _ _ Hi) as Hc.
      apply in_enumerate in Hc.
      unfold make_templates in Et.
      destruct (for_each_ok_in _ _ _ _ _ Et Hc) as [a [b Hstep]].
      apply template_step_spec in Hstep as [[E _] | [_ [s [Hs _]]]].
      * apply Z.ltb_ge in E. lia.
      * exists s. rewrite Htpl. apply in_template_entries.
        exists i, (occurrences u mapping). auto.
Qed.

Lemma sget_invert_none tpl u :
  NoDup (map snd tpl) ->
  (sget u (invert tpl) = None <-> ~ exists sym, In (sym, u) tpl).
Proof.
  intros Hnd. rewrite invert_spec by assumption. split.
  - intros H [sym Hin].
    rewrite (in_sget u sym (map swap tpl)) in H; [discriminate | |].
    + unfold keys. rewrite map_map. exact Hnd.
    + apply in_map_iff. exists (sym, u). auto.
  - intros H. destruct (sget u (map swap tpl)) as [sym |] eqn:E; auto.
    exfalso. apply H. exists sym. apply sget_in in E.
    apply in_map_iff in E as [[a b] [[= <- <-] Hin]]. exact Hin.
Qed.

Lemma smem_sget_none {V : Type} k (d : dict string V) :
  smem k d = false <-> sget k d = None.
Proof.
  unfold smem, dict_mem. fold (@sget V).
  destruct (sget k d); split; congruence.
Qed.

Lemma consolidate_entry_result cat thr inv v v' :
  consolidate_entry cat thr inv v = Ok v' ->
  is_bytes v' = false
  /\ forall u off size, v' = Ref u off size -> thr <= size.
Proof.
  unfold consolidate_entry.
  destruct v as [u off size | b | s | d].
  - destruct (Z.ltb_spec size thr) as [Hlt | Hge].
    + intros [= <-]. split; [reflexivity | discriminate].
    + destruct (sget u inv); intros [= <-];
        (split; [reflexivity | now intros ? ? ? [= _ _ <-]]).
  - intros [= <-]. split; [reflexivity | discriminate].
  - destruct s as [| c s]; [discriminate |].
    destruct (smem _ inv); [discriminate |].
    intros [= <-]. split; [reflexivity | discriminate].
  - intros [= <-]. split; [reflexivity | discriminate].
Qed.

Lemma consolidate_entry_ok_iff cat thr inv v :
  (exists v', consolidate_entry cat thr inv v = Ok v')
  <-> forall s, v = Str s ->
                exists c rest, s = String c rest
                               /\ smem (String c EmptyString) inv = false.
Proof.
  unfold consolidate_entry.
  destruct v as [u off size | b | s | d].
  - split; [discriminate | intros _].
    destruct (size <? thr); eauto. destruct (sget u inv); eauto.
  - split; [discriminate | eauto].
  - destruct s as [| c s].
    + split; [intros [v' H]; discriminate |].
      intros H. destruct (H "" eq_refl) as [c [rest [H1 _]]]. discriminate.
    + destruct (smem (String c "") inv) eqn:E.
      * split; [intros [v' H]; discriminate |].
        intros H. destruct (H _ eq_refl) as [c' [rest [[= <- _] H2]]].
        congruence.
      * split; [| eauto]. intros _ s' [= <-]. eauto.
  - split; [discriminate | eauto].
Qed.

Lemma consolidate_entry_error cat thr inv v e :
  consolidate_entry cat thr inv v = Raise e -> e = IndexError \/ e = TypeError.
Proof.
  unfold consolidate_entry.
  destruct v as [u off size | b | s | d]; try discriminate.
  - destruct (size <? thr); [discriminate |].
    destruct (sget u inv); discriminate.
  - destruct s as [| c s]; [intros [= <-]; auto |].
    destruct (smem _ inv); [intros [= <-]; auto | discriminate].
Qed.

Lemma consolidate_loop_shape cat thr inv l acc out :
  for_each (consolidate_step cat thr inv) l acc = Ok out ->
  NoDup (keys acc ++ keys l) ->
  exists vs,
    out = acc ++ vs
    /\ Forall2 (fun kv kv' =>
                  fst kv' = fst kv
                  /\ consolidate_entry cat thr inv (snd kv) = Ok (snd kv'))
         l vs.
Proof.
  revert acc. induction l as [| [k v] l IH]; intros acc H Hnd.
  - injection H as <-. exists []. split; [now rewrite app_nil_r | constructor].
  - cbn [for_each] in H. unfold consolidate_step at 1 in H. cbn [fst snd] in H.
    destruct (consolidate_entry cat thr inv v) as [v' |] eqn:E;
      [| discriminate].
    cbn [bind] in H.
    assert (Hk : ~ In k (keys acc)).
    { simpl in Hnd. apply NoDup_remove_2 in Hnd. intros Hin. apply Hnd.
      apply in_or_app. now left. }
    rewrite (sset_fresh k v' acc Hk) in H.
    apply IH in H as [vs [-> HF]].
    + exists ((k, v') :: vs). split.
      * now rewrite <- app_assoc.
      * constructor; auto.
    + unfold keys in *. rewrite map_app, <- app_assoc. exact Hnd.
Qed.

Lemma consolidate_loop_all cat thr inv mapping out :
  for_each (consolidate_step cat thr inv) mapping [] = Ok out ->
  NoDup (keys mapping) ->
  keys out = keys mapping
  /\ forall k v', In (k, v') out ->
       exists v, In (k, v) mapping /\ consolidate_entry cat thr inv v = Ok v'.
Proof.
  intros H Hnd.
  destruct (consolidate_loop_shape _ _ _ _ _ _ H Hnd) as [vs [E HF]].
  simpl in E. subst out. clear H Hnd.
  induction HF as [| [k0 v0] [k1 v1] l vs [Hk Hv] _ [IH1 IH2]].
  - split; [reflexivity | intros k v' []].
  - cbn [fst snd] in Hk, Hv. subst k1. split.
    + simpl. now rewrite IH1.
    + intros k v' [[= <- <-] | Hin].
      * exists v0. split; auto. now left.
      * destruct (IH2 k v' Hin) as [v [Hv1 Hv2]]. exists v. split; auto.
        now right.
Qed.

(** X18. When [_consolidate] returns, the result is a version-1 structure
    whose store has the keys of the mapping in the same order.  No value is
    left as bytes and no reference shorter than the inline threshold is
    left.  A reference below the threshold is replaced by the inline text of
    the bytes fetched, whether or not its identifier is templated; a
    reference at or above the threshold to an identifier named by at most
    [template_count] references is kept as it is; bytes become their inline
    text; and a metadata document is kept. *)
Theorem consolidate_store cat mapping thr tc r :
  _consolidate cat mapping thr tc = Ok r ->
  NoDup (keys mapping) ->
  exists templates out,
    r = Version1 1 templates out
    /\ keys out = keys mapping
    /\ (forall k v, In (k, v) out ->
          is_bytes v = false
          /\ forall u off size, v = Ref u off size -> thr <= size)
    /\ (forall k u off size,
          In (k, Ref u off size) mapping -> size < thr ->
          sget k out = Some (Str (inline_encode (cat u off (off + size)))))
    /\ (forall k u off size,
          In (k, Ref u off size) mapping -> thr <= size ->
          occurrences u mapping <= tc ->
          sget k out = Some (Ref u off size))
    /\ (forall k b, In (k, Bytes b) mapping ->
          sget k out = Some (Str (inline_encode b)))
    /\ (forall k d, In (k, Doc d) mapping -> sget k out = Some (Doc d)).
Proof.
  intros H Hnd. unfold _consolidate in H.
  destruct (make_templates (count_urls mapping) tc) as [tpl |] eqn:Et;
    simpl in H; [| discriminate].
  destruct (for_each (consolidate_step cat thr (invert tpl)) mapping [])
    as [o |] eqn:Eo; simpl in H; [| discriminate].
  injection H as <-. exists tpl, o. split; [reflexivity |].
  destruct (templates_of_mapping _ _ _ Et) as [Hvals Htpl].
  destruct (consolidate_loop_all _ _ _ _ _ Eo Hnd) as [Hkeys Hall].
  split; [| split; [| split; [| split; [| split]]]].
  - exact Hkeys.
  - intros k v Hin. destruct (Hall k v Hin) as [v0 [_ Hv]].
    exact (consolidate_entry_result _ _ _ _ _ Hv).
  - intros k u off size Hin Hlt.
    destruct (consolidate_loop _ _ _ _ _ _ _ Eo Hnd Hin) as [v' [Hv' ->]].
    unfold consolidate_entry in Hv'.
    destruct (Z.ltb_spec size thr); [| lia]. now injection Hv' as <-.
  - intros k u off size Hin Hge Hocc.
    destruct (consolidate_loop _ _ _ _ _ _ _ Eo Hnd Hin) as [v' [Hv' ->]].
    unfold consolidate_entry in Hv'.
    destruct (Z.ltb_spec size thr); [lia |].
    assert (Hnone : sget u (invert tpl) = None).
    { apply sget_invert_none; auto. intros Hex.
      apply Htpl in Hex as [_ Hlt]. lia. }
    rewrite Hnone in Hv'. now injection Hv' as <-.
  - intros k b Hin.
    destruct (consolidate_loop _ _ _ _ _ _ _ Eo Hnd Hin) as [v' [Hv' ->]].
    now injection Hv' as <-.
  - intros k d Hin.
    destruct (consolidate_loop _ _ _ _ _ _ _ Eo Hnd Hin) as [v' [Hv' ->]].
    now injection Hv' as <-.
Qed.

Lemma consolidate_store_witness :
  keys (store_of (_consolidate sample_cat (six_refs 50) 100 5))
  = keys (six_refs 50).
Proof.
  assert (Hnd : NoDup (keys (six_refs 50))).
  { repeat constructor; simpl; intuition discriminate. }
  destruct (consolidate_store sample_cat (six_refs 50) 100 5 _ eq_refl Hnd)
    as [templates [out [E [Hk _]]]].
  injection E as <- <-. exact Hk.
Defined.

(** X19. With [cat_file] taken to return, [_consolidate] returns exactly
    when every identifier named by more than [template_count] references stands among the first 52 distinct
    identifiers of the mapping, in the order they are first seen, and every
    inline text of the mapping is non-empty and does not begin with a
    character that is itself such an identifier.  The only errors it raises
    are IndexError and TypeError. *)
Theorem consolidate_succeeds_iff cat mapping thr tc :
  ((exists r, _consolidate cat mapping thr tc = Ok r)
   <-> (forall i u, nth_error (first_seen (ref_urls mapping)) i = Some u ->
                    tc < occurrences u mapping -> (i < 52)%nat)
       /\ (forall k s, In (k, Str s) mapping -> text_passes mapping tc s))
  /\ (forall e, _consolidate cat mapping thr tc = Raise e ->
                e = IndexError \/ e = TypeError).
Proof.
  unfold _consolidate. split; [split |].
  - intros [r H].
    destruct (make_templates (count_urls mapping) tc) as [tpl |] eqn:Et;
      simpl in H; [| discriminate].
    destruct (for_each (consolidate_step cat thr (invert tpl)) mapping [])
      as [o |] eqn:Eo; simpl in H; [| discriminate].
    split; [apply make_templates_ok_iff; eauto |].
    destruct (templates_of_mapping _ _ _ Et) as [Hvals Htpl].
    intros k s Hin.
    destruct (for_each_ok_in _ _ _ _ _ Eo Hin) as [a [b Hstep]].
    unfold consolidate_step in Hstep. cbn [fst snd] in Hstep.
    destruct (consolidate_entry cat thr (invert tpl) (Str s)) as [v' |] eqn:E;
      [| discriminate].
    destruct (proj1 (consolidate_entry_ok_iff cat thr (invert tpl) (Str s))
                (ex_intro _ v' E) s eq_refl) as [c [rest [-> Hmem]]].
    exists c, rest. split; auto. intros Ht.
    apply smem_sget_none in Hmem.
    apply (sget_invert_none tpl _ Hvals) in Hmem. apply Hmem.
    now apply Htpl.
  - intros [HA HB].
    destruct (proj2 (make_templates_ok_iff mapping tc) HA) as [tpl Et].
    rewrite Et. cbn [bind].
    destruct (templates_of_mapping _ _ _ Et) as [Hvals Htpl].
    destruct (for_each_total (consolidate_step cat thr (invert tpl)) mapping [])
      as [o ->]; [| simpl; eauto].
    intros a [k v] Hin. unfold consolidate_step. cbn [fst snd].
    destruct (proj2 (consolidate_entry_ok_iff cat thr (invert tpl) v))
      as [v' ->]; [| simpl; eauto].
    intros s ->. destruct (HB k s Hin) as [c [rest [-> Hnt]]].
    exists c, rest. split; auto.
    apply smem_sget_none. apply sget_invert_none; auto.
    intros Hex. apply Hnt. now apply Htpl.
  - intros e H.
    destruct (make_templates (count_urls mapping) tc) as [tpl | e1] eqn:Et.
    + cbn [bind] in H.
      destruct (for_each (consolidate_step cat thr (invert tpl)) mapping [])
        as [o | e2] eqn:Eo; [discriminate |].
      cbn [bind] in H. injection H as <-.
      apply for_each_error in Eo as [a [[k v] [_ Hstep]]].
      unfold consolidate_step in Hstep. cbn [fst snd] in Hstep.
      destruct (consolidate_entry cat thr (invert tpl) v) as [v' | e3] eqn:E;
        [discriminate |].
      cbn [bind] in Hstep. injection Hstep as <-.
      exact (consolidate_entry_error _ _ _ _ _ E).
    + cbn [bind] in H. injection H as <-.
      unfold make_templates in Et.
      apply for_each_error in Et as [a [[i [u c]] [_ Hstep]]].
      unfold template_step in Hstep.
      destruct (tc <? c); [| discriminate].
      destruct (String.get i ascii_letters); [discriminate |].
      injection Hstep as <-. now left.
Qed.

(** ** The failures of translate *)

Lemma attach_dims_ok_iff t d path s :
  (exists s', attach_dims t d path s = Ok s')
  <-> (xr t = true -> exists adims, _get_array_dims d = Ok adims).
Proof.
  unfold attach_dims. destruct (xr t).
  - destruct (_get_array_dims d) as [adims | e]; simpl.
    + split; eauto.
    + split; [intros [s' H]; discriminate |].
      intros H. destruct (H eq_refl) as [adims Ha]. discriminate.
  - split; [discriminate | eauto].
Qed.

Lemma translator_ok_iff t s obj :
  (exists s', _translator t s obj = Ok s') <-> translatable t obj.
Proof.
  destruct obj as [d | g |]; simpl.
  - destruct (layout_eqb_spec (layout d) COMPACT) as [El | El].
    { split; [now left | eauto]. }
    destruct (unsupported_filters d).
    { split; [intros [s' H]; discriminate |].
      intros [H | [H _]]; [contradiction | discriminate]. }
    destruct (_storage_info d) as [cinfo | e] eqn:Ec; simpl.
    2:{ split; [intros [s' H]; discriminate |].
        intros [H | [_ [c [H _]]]]; [contradiction | discriminate]. }
    destruct (xr t && is_scale d && is_nil cinfo) eqn:Eskip.
    { split; [| eauto]. intros _. right. split; auto.
      exists cinfo. auto. }
    set (s0 := create_dataset (name d) _ s).
    pose proof (transfer_attrs_ok_iff t (attrs d) (zarr_path (name d)) s0)
      as Ha.
    destruct (_transfer_attrs t (attrs d) (zarr_path (name d)) s0)
      as [s1 | e] eqn:E1; simpl.
    + pose proof (attach_dims_ok_iff t d (zarr_path (name d)) s1) as Hd.
      destruct (attach_dims t d (zarr_path (name d)) s1) as [s2 | e] eqn:E2;
        simpl.
      * split; [| eauto]. intros _. right. split; auto.
        exists cinfo. split; auto. right. split.
        -- apply Ha. eauto.
        -- apply Hd. eauto.
      * split; [intros [s' H]; discriminate |].
        intros [H | [_ [c [[= <-] [H | [_ H]]]]]];
          [contradiction | congruence |].
        apply Hd in H as [s' H]. discriminate.
    + split; [intros [s' H]; discriminate |].
      intros [H | [_ [c [[= <-] [H | [H _]]]]]];
        [contradiction | congruence |].
      apply Ha in H as [s' H]. discriminate.
  - apply transfer_attrs_ok_iff.
  - split; eauto.
Qed.

Lemma translator_error t s obj e :
  _translator t s obj = Raise e -> In e translate_errors.
Proof.
  unfold translate_errors. destruct obj as [d | g |]; simpl.
  - destruct (layout_eqb (layout d) COMPACT); [discriminate |].
    destruct (unsupported_filters d); [intros [= <-]; simpl; tauto |].
    destruct (_storage_info d) as [cinfo | e0] eqn:Ec; simpl.
    2:{ intros [= <-]. apply _storage_info_error in Ec. subst. simpl. tauto. }
    destruct (xr t && is_scale d && is_nil cinfo); [discriminate |].
    destruct (_transfer_attrs t (attrs d) _ _) as [s1 | e1] eqn:E1; simpl.
    2:{ intros [= <-]. apply _transfer_attrs_error in E1. subst. simpl. tauto. }
    destruct (attach_dims t d _ s1) as [s2 | e2] eqn:E2; simpl;
      [discriminate |].
    intros [= <-]. apply attach_dims_error in E2 as [-> | ->]; simpl; tauto.
  - intros H. apply _transfer_attrs_error in H. subst. simpl. tauto.
  - discriminate.
Qed.

(** X20. With the calls into h5py, numpy and zarr taken to return, on a
    file whose nodes have distinct names, [translate] returns exactly when
    the attributes of the root and of every node it creates decode, and every dataset is compact, or uses no
    unsupported filter, has a chunk map that can be computed, and, unless
    skipped as an unwritten dimension scale, has dimension names in xarray
    mode.  The errors it raises are UnicodeDecodeError, ZeroDivisionError,
    TypeError and the two RuntimeErrors about filters and about dimension
    scales; a compact dataset never makes it fail. *)
Theorem translate_succeeds_iff t f :
  ((exists r, translate t f = Ok r)
   <-> attrs_decodable (root_attrs f)
       /\ forall nm obj, In (nm, obj) (items f) -> translatable t obj)
  /\ (forall e, translate t f = Raise e -> In e translate_errors).
Proof.
  unfold translate.
  pose proof (transfer_attrs_ok_iff t (root_attrs f) "" (zarr_group [])) as Ha.
  assert (Hv : forall s1,
             (exists s2, for_each (fun s (item : string * h5obj) =>
                                     _translator t s (snd item))
                           (items f) s1 = Ok s2)
             <-> Forall (fun item => translatable t (snd item)) (items f)).
  { intros s1. apply for_each_ok_iff. intros a x. apply translator_ok_iff. }
  split; [split |].
  - intros [r H].
    destruct (_transfer_attrs t (root_attrs f) "" (zarr_group []))
      as [s1 |] eqn:E1; [| discriminate].
    cbn [bind] in H.
    destruct (for_each _ (items f) s1) as [s2 |] eqn:E2; [| discriminate].
    split; [apply Ha; eauto |].
    intros nm obj Hin.
    assert (F : Forall (fun item => translatable t (snd item)) (items f))
      by (apply (Hv s1); eauto).
    rewrite Forall_forall in F. exact (F _ Hin).
  - intros [H1 H2]. apply Ha in H1 as [s1 ->]. cbn [bind].
    destruct (proj2 (Hv s1)) as [s2 ->].
    { apply Forall_forall. intros [nm obj] Hin. exact (H2 nm obj Hin). }
    cbn [bind]. destruct (spec t <? 1); eauto.
  - intros e H.
    destruct (_transfer_attrs t (root_attrs f) "" (zarr_group []))
      as [s1 | e1] eqn:E1.
    + cbn [bind] in H.
      destruct (for_each _ (items f) s1) as [s2 | e2] eqn:E2.
      * cbn [bind] in H. destruct (spec t <? 1); discriminate.
      * cbn [bind] in H. injection H as <-.
        apply for_each_error in E2 as [a [x [_ E2]]].
        exact (translator_error _ _ _ _ E2).
    + cbn [bind] in H. injection H as <-.
      apply _transfer_attrs_error in E1. subst. simpl. tauto.
Qed.

(** ** What the settings of translate change *)

Lemma for_each_ext {A S : Type} (f g : S -> A -> result S) l s :
  (forall a x, f a x = g a x) -> for_each f l s = for_each g l s.
Proof.
  intros H. revert s. induction l as [| x l IH]; simpl; intros s; auto.
  rewrite H. destruct (g s x); simpl; auto.
Qed.

Lemma translator_same_visit t t' s obj :
  uri t' = uri t -> xr t' = xr t ->
  _translator t' s obj = _translator t s obj.
Proof.
  destruct t, t'. simpl. intros -> ->. reflexivity.
Qed.

Lemma transfer_attrs_same_visit t t' h5attrs path s :
  xr t' = xr t ->
  _transfer_attrs t' h5attrs path s = _transfer_attrs t h5attrs path s.
Proof.
  destruct t, t'. simpl. intros ->. reflexivity.
Qed.

Lemma keys_do_inline t threshold s :
  NoDup (keys s) -> keys (_do_inline t threshold s) = keys s.
Proof.
  intros H. rewrite _do_inline_map by assumption. apply keys_map_values.
Qed.

(** X21. The version, the inline threshold and the bytes of the file do not
    change which keys [translate] returns, or their order: two translators
    with the same URL and xarray mode, when one returns, both return, with
    the same keys.  The result is the bare store for a version below 1, and
    otherwise the version-1 structure with the single template [u] bound
    to the URL. *)
Theorem translate_settings_keep_keys t t' f r :
  uri t' = uri t -> xr t' = xr t ->
  translate t f = Ok r ->
  r = wrap_refs t (refs_of r)
  /\ exists r',
       translate t' f = Ok r'
       /\ r' = wrap_refs t' (refs_of r')
       /\ keys (refs_of r') = keys (refs_of r).
Proof.
  intros Hu Hx H.
  assert (Hshape : forall t0 r0, translate t0 f = Ok r0 ->
                                 r0 = wrap_refs t0 (refs_of r0)).
  { intros t0 r0 H0. unfold translate in H0.
    destruct (_transfer_attrs t0 (root_attrs f) "" (zarr_group []))
      as [s1 |]; [| discriminate].
    cbn [bind] in H0.
    destruct (for_each _ (items f) s1) as [s2 |]; [| discriminate].
    cbn [bind] in H0. unfold wrap_refs.
    destruct (spec t0 <? 1); now injection H0 as <-. }
  split; [now apply Hshape |].
  pose proof (translate_inv t f r H) as [s1 [s2 [H1 [H2 [Hnd Hr]]]]].
  assert (H1' : _transfer_attrs t' (root_attrs f) "" (zarr_group []) = Ok s1)
    by (now rewrite (transfer_attrs_same_visit t t')).
  assert (H2' : for_each (fun s (item : string * h5obj) =>
                            _translator t' s (snd item)) (items f) s1
                = Ok s2).
  { rewrite <- H2. apply for_each_ext. intros a x.
    now apply translator_same_visit. }
  assert (Hex : exists r', translate t' f = Ok r').
  { unfold translate. rewrite H1'. cbn [bind]. rewrite H2'. cbn [bind].
    destruct (spec t' <? 1); eauto. }
  destruct Hex as [r' Hr']. exists r'. split; [exact Hr' |].
  split; [now apply Hshape |].
  pose proof (translate_inv t' f r' Hr') as [s1' [s2' [E1 [E2 [_ Hr2]]]]].
  rewrite H1' in E1. injection E1 as <-.
  rewrite H2' in E2. injection E2 as <-.
  now rewrite Hr, Hr2, !keys_map_values.
Qed.

Lemma translate_settings_keep_keys_witness :
  keys (store_of (translate inlining_translator (file_of gzip_plain)))
  = keys (store_of (translate (sample_translator 0 no_file)
                      (file_of gzip_plain))).
Proof.
  destruct (translate_settings_keep_keys (sample_translator 0 no_file)
              inlining_translator (file_of gzip_plain) _
              eq_refl eq_refl eq_refl) as [_ [r' [H [_ Hk]]]].
  rewrite H. exact Hk.
Defined.

(** ** Overwriting *)

Lemma keys_transfer_attrs_inv t h5attrs path s s' k :
  _transfer_attrs t h5attrs path s = Ok s' ->
  In k (keys s') -> k = meta_key path ".zattrs" \/ In k (keys s).
Proof.
  unfold _transfer_attrs. intros H. revert k.
  revert H.
  apply (for_each_invariant
           (fun a b : store =>
              forall k, In k (keys b) ->
                        k = meta_key path ".zattrs" \/ In k (keys a))).
  - auto.
  - intros a b c H1 H2 k Hk. destruct (H2 k Hk); auto.
  - intros a [n v] b H k Hk.
    apply transfer_attr_spec in H as [-> | [_ [v' [_ [_ [_ ->]]]]]]; auto.
    unfold attrs_set in Hk. now apply keys_sset_inv in Hk.
Qed.

Lemma keys_write_chunks_inv url path cinfo s k :
  In k (keys (write_chunks url path cinfo s)) ->
  In k (map (chunk_key path) (keys cinfo)) \/ In k (keys s).
Proof.
  unfold write_chunks. revert s.
  induction cinfo as [| c cinfo IH]; simpl; intros s H; auto.
  apply IH in H as [H | H]; auto.
  apply keys_sset_inv in H as [-> | H]; auto.
Qed.

(** X22. Creating the array of a dataset overwrites what the store held
    under the dataset's prefix: after the visit of a dataset that is not
    skipped, a key that starts with [<path>/] is the key of the array
    descriptor, of the attributes document, or of a chunk of the chunk map;
    whatever else was there before is gone. *)
Theorem dataset_visit_clears_prefix t s d cinfo s' k :
  layout d <> COMPACT ->
  _storage_info d = Ok cinfo ->
  xr t && is_scale d && is_nil cinfo = false ->
  _translator t s (IsDataset d) = Ok s' ->
  startswith k (meta_key (zarr_path (name d)) "") = true ->
  In k (keys s') ->
  k = meta_key (zarr_path (name d)) ".zarray"
  \/ k = meta_key (zarr_path (name d)) ".zattrs"
  \/ In k (map (chunk_key (zarr_path (name d))) (keys cinfo)).
Proof.
  intros Hl Hc Hb H Hk Hin.
  apply translator_dataset_inv in H as [_ [cinfo' [Hc' H]]]; auto.
  rewrite Hc in Hc'. injection Hc' as <-.
  destruct H as [[Hb' _] | [_ [s1 [s2 [H1 [H2 ->]]]]]]; [congruence |].
  apply keys_write_chunks_inv in Hin as [Hin | Hin]; auto.
  assert (Hs1 : In k (keys s1) -> k = meta_key (zarr_path (name d)) ".zarray"
                                  \/ k = meta_key (zarr_path (name d)) ".zattrs").
  { intros Hin1.
    apply (keys_transfer_attrs_inv _ _ _ _ _ _ H1) in Hin1 as [-> | Hin1];
      auto.
    unfold create_dataset in Hin1.
    apply keys_sset_inv in Hin1 as [-> | Hin1]; auto.
    exfalso. unfold rmdir, keys in Hin1.
    apply in_map_iff in Hin1 as [[k0 v0] [E Hin1]]. simpl in E. subst k0.
    apply filter_In in Hin1 as [_ Hf]. simpl in Hf.
    rewrite Hk in Hf. discriminate. }
  apply attach_dims_cases in H2 as [[_ ->] | [_ [adims [_ ->]]]].
  - destruct (Hs1 Hin); auto.
  - unfold attrs_set in Hin. apply keys_sset_inv in Hin as [-> | Hin]; auto.
    destruct (Hs1 Hin); auto.
Qed.

Lemma dataset_visit_clears_prefix_witness :
  ~ In "d/7"
      (keys (store_or_empty
               (_translator (sample_translator 0 no_file)
                  [("data/0", Ref "s3://bucket/a.h5" 8 16); ("d/7", Str "x")]
                  (IsDataset gzip_plain)))).
Proof.
  assert (Hl : layout gzip_plain <> COMPACT) by discriminate.
  intros Hin.
  destruct (dataset_visit_clears_prefix (sample_translator 0 no_file)
              [("data/0", Ref "s3://bucket/a.h5" 8 16); ("d/7", Str "x")]
              gzip_plain _ _ "d/7" Hl eq_refl eq_refl eq_refl eq_refl Hin)
    as [H | [H | H]]; try discriminate.
  vm_compute in H. intuition discriminate.
Defined.

(** X23. The Inliner keeps the keys of the store and their order, and
    leaves every value that is not a reference shorter than the threshold
    as it is. *)
Theorem do_inline_frame t threshold s :
  NoDup (keys s) ->
  keys (_do_inline t threshold s) = keys s
  /\ forall k v, In (k, v) s ->
       (forall u off size, v = Ref u off size -> threshold <= size) ->
       sget k (_do_inline t threshold s) = Some v.
Proof.
  intros Hnd. split; [now apply keys_do_inline |].
  intros k v Hin Hv. rewrite _do_inline_map by assumption.
  rewrite (sget_map_values _ _ _ _ Hnd Hin). f_equal.
  destruct v as [u off size | | |]; auto. simpl.
  specialize (Hv u off size eq_refl).
  destruct (Z.ltb_spec size threshold); [lia | reflexivity].
Qed.

Lemma do_inline_frame_witness :
  sget "v/1" (_do_inline inlining_translator 100 mixed_store)
  = Some (Ref "s3://bucket/a.h5" 403 4000).
Proof.
  assert (Hnd : NoDup (keys mixed_store)).
  { repeat constructor; simpl; intuition discriminate. }
  destruct (do_inline_frame inlining_translator 100 mixed_store Hnd)
    as [_ H].
  apply H.
  - simpl. tauto.
  - intros u off size [= _ _ <-]. lia.
Defined.

(** * The claims revisited *)

(** ** C2: the filter gate *)






(** ** C5: the keys of a stacked variable *)

(** *** Where the keys of the output come from *)

Lemma in_keys_filter {V : Type} (p : string -> bool) (d : dict string V) K :
  In K (keys (filter (fun kv => p (fst kv)) d))
  <-> In K (keys d) /\ p K = true.
Proof.
  unfold keys. rewrite !in_map_iff. split.
  - intros [[k v] [E H]]. simpl in E. subst k.
    apply filter_In in H as [H1 H2]. split; auto. now exists (K, v).
  - intros [[[k v] [E H]] Hp]. simpl in E. subst k.
    exists (K, v). split; auto. apply filter_In. auto.
Qed.

Lemma in_keys_chunks_of variable (s : store) K :
  In K (keys (chunks_of variable s))
  <-> In K (keys s) /\ fst (path_split K) = variable
      /\ is_document K = false.
Proof.
  unfold chunks_of.
  rewrite (in_keys_filter
             (fun k => belongs_to variable k && negb (is_document k))).
  unfold belongs_to. split.
  - intros [H1 H2]. apply andb_true_iff in H2 as [H2 H3].
    apply String.eqb_eq in H2. apply negb_true_iff in H3. auto.
  - intros [H1 [H2 H3]]. split; auto.
    rewrite H2, H3, String.eqb_refl. reflexivity.
Qed.

Lemma keys_supdate_inv {V : Type} (items d : dict string V) K :
  In K (keys (supdate items d)) -> In K (keys items) \/ In K (keys d).
Proof.
  unfold supdate, dict_update. fold (@sset V). revert d.
  induction items as [| [k v] items IH]; simpl; intros d H; auto.
  apply IH in H as [H | H]; auto.
  apply keys_sset_inv in H as [-> | H]; auto.
Qed.

Lemma keys_copy_shared_inv shared fss seed out K :
  copy_shared shared fss seed = Ok out ->
  In K (keys out) ->
  In K (keys seed)
  \/ exists dim, In dim shared /\ In K (keys (hd [] fss))
                 /\ startswith K dim = true.
Proof.
  unfold copy_shared. intros H. revert K. revert H.
  apply (for_each_invariant_in
           (fun a b : store =>
              forall K, In K (keys b) ->
                In K (keys a)
                \/ exists dim, In dim shared /\ In K (keys (hd [] fss))
                               /\ startswith K dim = true)).
  - auto.
  - intros a b c H1 H2 K HK. destruct (H2 K HK) as [H | H]; auto.
  - intros a dim b Hdim Hb K HK.
    destruct fss as [| fs0 rest]; [discriminate |]. injection Hb as <-.
    apply keys_supdate_inv in HK as [HK | HK]; auto.
    apply (in_keys_filter (fun k => startswith k dim)) in HK as [H1 H2].
    right. exists dim. auto.
Qed.

Lemma keys_place_variable_inv variable same fss out K :
  In K (keys (place_variable variable same fss out)) ->
  In K (keys out)
  \/ exists i fs k, nth_error fss i = Some fs /\ In k (keys fs)
                    /\ target_key variable same i k = Some K.
Proof.
  unfold place_variable.
  apply (fold_left_preserves_in _
           (fun o => In K (keys o) ->
                     In K (keys out)
                     \/ exists i fs k, nth_error fss i = Some fs
                                       /\ In k (keys fs)
                                       /\ target_key variable same i k
                                          = Some K)); auto.
  intros a [i fs] Hin Ha. cbn [fst snd]. apply in_enumerate in Hin.
  apply (fold_left_preserves_in _
           (fun o => In K (keys o) ->
                     In K (keys out)
                     \/ exists i fs k, nth_error fss i = Some fs
                                       /\ In k (keys fs)
                                       /\ target_key variable same i k
                                          = Some K)); auto.
  intros b [k e] Hk Hb HK. rewrite place_reference_target in HK.
  cbn [fst snd] in HK.
  destruct (target_key variable same i k) as [K' |] eqn:E; auto.
  apply keys_sset_inv in HK as [-> | HK]; auto.
  right. exists i, fs, k. repeat split; auto.
  unfold keys. apply in_map_iff. now exists (k, e).
Qed.

Lemma keys_copy_variables_inv ds ds0 fss out1 out K :
  copy_variables ds ds0 fss out1 = Ok out ->
  In K (keys out) ->
  In K (keys out1)
  \/ exists w v v0 i fs k,
       smem w (ds_dims ds) = false
       /\ sget w (ds_variables ds) = Some v
       /\ sget w (ds_variables ds0) = Some v0
       /\ nth_error fss i = Some fs /\ In k (keys fs)
       /\ target_key w (shape_eqb (var_shape v) (var_shape v0)) i k = Some K.
Proof.
  unfold copy_variables. intros H. revert K. revert H.
  apply (for_each_invariant
           (fun a b : store =>
              forall K, In K (keys b) ->
                In K (keys a)
                \/ exists w v v0 i fs k,
                     smem w (ds_dims ds) = false
                     /\ sget w (ds_variables ds) = Some v
                     /\ sget w (ds_variables ds0) = Some v0
                     /\ nth_error fss i = Some fs /\ In k (keys fs)
                     /\ target_key w (shape_eqb (var_shape v) (var_shape v0))
                          i k = Some K)).
  - auto.
  - intros a b c H1 H2 K HK. destruct (H2 K HK) as [H | H]; auto.
  - intros a w b Hstep K HK.
    apply copy_variables_step in Hstep
      as [[_ ->] | [v [v0 [Hd [Hv [Hv0 ->]]]]]]; auto.
    apply keys_place_variable_inv in HK as [HK | [i [fs [k [Hi [Hk HK]]]]]];
      auto.
    right. exists w, v, v0, i, fs, k. auto 10.
Qed.

(** *** The rewritten keys *)

Lemma path_split_rewrite_key_full start i part :
  free_of "/" part = true ->
  all_slashes start = false -> ends_with_slash start = false ->
  path_split (rewrite_key start i part)
  = (start, str_of_Z (Z.of_nat i) +++ String "." part).
Proof.
  intros Hp Ha He. rewrite rewrite_key_shape.
  rewrite path_split_joined by now apply rewrite_key_tail_free.
  rewrite Ha. now rewrite rstrip_fixed.
Qed.

Lemma rewritten_tail_not_document i part :
  mem_string (str_of_Z (Z.of_nat i) +++ String "." part) metadata_names
  = false.
Proof.
  pose proof (str_of_Z_nonempty (Z.of_nat i)) as Hne.
  pose proof (digit_text_str_of_Z (Z.of_nat i)) as Hd.
  destruct (str_of_Z (Z.of_nat i)) as [| c r]; [congruence |].
  simpl in Hd. apply andb_true_iff in Hd as [Hc _].
  apply digit_not_dot in Hc. apply negb_true_iff in Hc.
  unfold mem_string, metadata_names. cbn [existsb String.append String.eqb].
  rewrite Hc. reflexivity.
Qed.

Lemma plain_key_unique k k' :
  plain_key k = true -> plain_key k' = true ->
  path_split k = path_split k' -> k = k'.
Proof.
  unfold plain_key. intros H H' E.
  apply String.eqb_eq in H. apply String.eqb_eq in H'.
  rewrite H, H', E. reflexivity.
Qed.

Lemma NoDup_map_inj_in {A B : Type} (g : A -> B) l :
  NoDup l ->
  (forall a b, In a l -> In b l -> g a = g b -> a = b) ->
  NoDup (map g l).
Proof.
  induction l as [| x l IH]; simpl; intros Hnd Hinj; [constructor |].
  inversion Hnd as [| ? ? Hx Hl]; subst. constructor.
  - intros Hin. apply in_map_iff in Hin as [y [E Hy]].
    assert (y = x) by (apply Hinj; auto). subst y. contradiction.
  - apply IH; auto.
Qed.

Lemma plain_keys_spec variable fs k :
  plain_keys variable fs = true ->
  In k (keys (chunks_of variable fs)) -> plain_key k = true.
Proof.
  unfold plain_keys. rewrite forallb_forall. intros H Hk.
  apply in_keys_chunks_of in Hk as [Hin [Hv _]].
  specialize (H k Hin). unfold belongs_to in H.
  rewrite Hv, String.eqb_refl in H. exact H.
Qed.

Lemma rewritten_source_inj variable i j fs fs' k k' :
  In k (keys (chunks_of variable fs)) ->
  In k' (keys (chunks_of variable fs')) ->
  rewrite_key variable i (snd (path_split k))
  = rewrite_key variable j (snd (path_split k')) ->
  i = j /\ path_split k = path_split k'.
Proof.
  intros Hk Hk' E.
  apply rewrite_key_inj in E; auto using path_split_tail_free.
  destruct E as [_ [-> E]]. split; auto.
  apply in_keys_chunks_of in Hk as [_ [Hv _]].
  apply in_keys_chunks_of in Hk' as [_ [Hv' _]].
  rewrite (surjective_pairing (path_split k)),
          (surjective_pairing (path_split k')). congruence.
Qed.

Lemma NoDup_rewritten_list variable (l : list (nat * store)) :
  NoDup (map fst l) ->
  (forall i fs, In (i, fs) l ->
                NoDup (keys fs) /\ plain_keys variable fs = true) ->
  NoDup (flat_map
           (fun ifs =>
              map (fun k => rewrite_key variable (fst ifs)
                              (snd (path_split k)))
                (keys (chunks_of variable (snd ifs)))) l).
Proof.
  induction l as [| [i fs] l IH]; simpl; intros Hnd Hall; [constructor |].
  inversion Hnd as [| ? ? Hi Hl]; subst.
  destruct (Hall i fs (or_introl eq_refl)) as [Hfs Hplain].
  apply NoDup_app.
  - apply NoDup_map_inj_in.
    + unfold chunks_of. now apply NoDup_keys_filter.
    + intros a b Ha Hb E.
      destruct (rewritten_source_inj variable i i fs fs a b Ha Hb E)
        as [_ Hs].
      apply plain_key_unique; eauto using plain_keys_spec.
  - apply IH; auto. intros j fs' Hin. apply (Hall j fs'). now right.
  - intros K HK Hrest.
    apply in_map_iff in HK as [k [<- Hk]].
    apply in_flat_map in Hrest as [[j fs'] [Hin Hj]]. cbn [fst snd] in Hj.
    apply in_map_iff in Hj as [k' [E Hk']].
    destruct (rewritten_source_inj variable j i fs' fs k' k Hk' Hk E)
      as [-> _].
    apply Hi. apply in_map_iff. now exists (i, fs').
Qed.

Lemma NoDup_rewritten_keys variable fss :
  Forall (fun fs => NoDup (keys fs) /\ plain_keys variable fs = true) fss ->
  NoDup (rewritten_keys variable fss).
Proof.
  intros H. unfold rewritten_keys. apply NoDup_rewritten_list.
  - rewrite map_fst_enumerate. apply seq_NoDup.
  - intros i fs Hin. apply in_enumerate in Hin. apply nth_error_In in Hin.
    rewrite Forall_forall in H. auto.
Qed.

Lemma length_rewritten_keys variable fss :
  List.length (rewritten_keys variable fss) = stored_chunks variable fss.
Proof.
  unfold rewritten_keys, stored_chunks.
  rewrite <- (map_snd_enumerate fss) at 2.
  induction (enumerate fss) as [| [i fs] l IH]; simpl; auto.
  rewrite length_app, length_map, IH. unfold keys.
  now rewrite length_map.
Qed.

Lemma stored_chunks_uniform variable fss c :
  (forall fs, In fs fss -> List.length (chunks_of variable fs) = c) ->
  stored_chunks variable fss = (List.length fss * c)%nat.
Proof.
  unfold stored_chunks. induction fss as [| fs fss IH]; simpl; intros H.
  - reflexivity.
  - rewrite (H fs (or_introl eq_refl)).
    rewrite IH; [reflexivity |]. intros fs' Hin. apply H. now right.
Qed.

Lemma in_rewritten_keys variable fss K :
  In K (rewritten_keys variable fss)
  <-> exists i fs k, nth_error fss i = Some fs
                     /\ In k (keys (chunks_of variable fs))
                     /\ K = rewrite_key variable i (snd (path_split k)).
Proof.
  unfold rewritten_keys. rewrite in_flat_map. split.
  - intros [[i fs] [Hin HK]]. cbn [fst snd] in HK.
    apply in_enumerate in Hin. apply in_map_iff in HK as [k [<- Hk]].
    now exists i, fs, k.
  - intros [i [fs [k [Hi [Hk ->]]]]]. exists (i, fs). split.
    + now apply in_enumerate.
    + cbn [fst snd]. apply in_map_iff. now exists k.
Qed.

(** *** The keys and values the loop over the variables leaves *)

Lemma placed_key_in_output seed shared ds ds0 fss out variable var var0
    i fs k e K :
  _build_output seed shared ds ds0 fss = Ok out ->
  smem variable (ds_dims ds) = false ->
  sget variable (ds_variables ds) = Some var ->
  sget variable (ds_variables ds0) = Some var0 ->
  nth_error fss i = Some fs -> In (k, e) fs ->
  target_key variable (shape_eqb (var_shape var) (var_shape var0)) i k
  = Some K ->
  In K (keys out).
Proof.
  intros Hout Hdim Hvar Hvar0 Hi Hin HK. unfold _build_output in Hout.
  destruct (copy_shared shared fss seed) as [out1 |]; simpl in Hout;
    [| discriminate].
  assert (Hmem : In variable (keys (ds_variables ds)))
    by (eapply sget_some_in_keys; eauto).
  revert Hout. unfold copy_variables. intros Hout.
  apply (for_each_establish _ (fun o => In K (keys o)) variable _ _ _)
    with (4 := or_intror Hmem) in Hout; auto.
  - intros a w b Hstep Ha.
    apply copy_variables_step in Hstep
      as [[_ ->] | [v [v0 [_ [_ [_ ->]]]]]];
      auto using keys_place_variable.
  - intros a b Hstep.
    apply copy_variables_step in Hstep
      as [[Habs _] | [v [v0 [_ [Hv [Hv0 ->]]]]]]; [congruence |].
    assert (v = var) by congruence. assert (v0 = var0) by congruence.
    subst v v0. eapply place_variable_key; eauto.
Qed.

Lemma rewritten_value_in_output seed shared ds ds0 fss out variable var var0
    i fs k e :
  _build_output seed shared ds ds0 fss = Ok out ->
  smem variable (ds_dims ds) = false ->
  sget variable (ds_variables ds) = Some var ->
  sget variable (ds_variables ds0) = Some var0 ->
  var_shape var <> var_shape var0 ->
  nth_error fss i = Some fs -> In (k, e) fs ->
  fst (path_split k) = variable -> is_document k = false ->
  all_slashes variable = false ->
  (forall k' e', In (k', e') fs -> path_split k' = path_split k -> e' = e) ->
  sget (rewrite_key variable i (snd (path_split k))) out = Some e.
Proof.
  intros Hout Hdim Hvar Hvar0 Hshape Hi Hin Hk Hdoc Hnorm Huniq.
  unfold _build_output in Hout.
  destruct (copy_shared shared fss seed) as [out1 |]; simpl in Hout;
    [| discriminate].
  assert (Hmem : In variable (keys (ds_variables ds)))
    by (eapply sget_some_in_keys; eauto).
  assert (Hsame : shape_eqb (var_shape var) (var_shape var0) = false)
    by (destruct (shape_eqb_spec (var_shape var) (var_shape var0));
        congruence).
  assert (Hend : ends_with_slash variable = false).
  { destruct (path_split_head k) as [H | H]; rewrite Hk in H; congruence. }
  revert Hout. unfold copy_variables. intros Hout.
  apply (for_each_establish _
           (fun o => sget (rewrite_key variable i (snd (path_split k))) o
                     = Some e) variable _ _ _)
    with (4 := or_intror Hmem) in Hout; auto.
  - intros a w b Hstep Ha.
    apply copy_variables_step in Hstep
      as [[_ ->] | [v [v0 [_ [Hv [Hv0 ->]]]]]]; auto.
    destruct (String.eqb_spec w variable) as [-> | Hne].
    + assert (v = var) by congruence.
      assert (v0 = var0) by congruence. subst v v0. rewrite Hsame.
      eapply place_variable_value; eauto.
    + rewrite sget_place_variable_other; auto.
      intros j k0 K HK.
      apply (target_key_foreign w _ j k0 K _ variable HK); auto.
      apply path_split_rewrite_key_normal;
        auto using path_split_tail_free.
  - intros a b Hstep.
    apply copy_variables_step in Hstep
      as [[Habs _] | [v [v0 [_ [Hv [Hv0 ->]]]]]]; [congruence |].
    assert (v = var) by congruence. assert (v0 = var0) by congruence.
    subst v v0. rewrite Hsame. eapply place_variable_value; eauto.
Qed.

(** The chunk keys of a stacked variable in the output are the rewritten
    keys and no other. *)
Lemma stacked_chunk_keys seed shared ds ds0 fss out variable var var0 K :
  _build_output seed shared ds ds0 fss = Ok out ->
  smem variable (ds_dims ds) = false ->
  sget variable (ds_variables ds) = Some var ->
  sget variable (ds_variables ds0) = Some var0 ->
  var_shape var <> var_shape var0 ->
  all_slashes variable = false ->
  chunks_of variable seed = [] ->
  clear_of_shared shared variable fss = true ->
  (In K (keys (chunks_of variable out))
   <-> In K (rewritten_keys variable fss)).
Proof.
  intros Hout Hdim Hvar Hvar0 Hshape Hnorm Hseed Hclear.
  assert (Hsame : shape_eqb (var_shape var) (var_shape var0) = false)
    by (destruct (shape_eqb_spec (var_shape var) (var_shape var0));
        congruence).
  rewrite in_rewritten_keys, in_keys_chunks_of. split.
  - intros [HK [Hv Hdoc]].
    pose proof Hout as Hout'. unfold _build_output in Hout'.
    destruct (copy_shared shared fss seed) as [out1 |] eqn:E1;
      simpl in Hout'; [| discriminate].
    apply (keys_copy_variables_inv _ _ _ _ _ _ Hout') in HK
      as [HK | [w [v [v0 [i [fs [k [Hd [Hw [Hw0 [Hi [Hk HT]]]]]]]]]]]].
    + apply (keys_copy_shared_inv _ _ _ _ _ E1) in HK
        as [HK | [dim [Hdim' [HK Hpre]]]].
      * exfalso.
        assert (H : In K (keys (chunks_of variable seed)))
          by (apply in_keys_chunks_of; auto).
        rewrite Hseed in H. contradiction.
      * exfalso. unfold clear_of_shared in Hclear.
        rewrite forallb_forall in Hclear. specialize (Hclear K HK).
        unfold belongs_to in Hclear.
        rewrite Hv, String.eqb_refl in Hclear. cbn [negb orb] in Hclear.
        rewrite forallb_forall in Hclear. specialize (Hclear dim Hdim').
        rewrite Hpre in Hclear. discriminate.
    + apply target_key_inv in HT as [Hkw [Hmeta HT]].
      assert (Hwv : w = variable).
      { destruct (shape_eqb (var_shape v) (var_shape v0)).
        - subst K. congruence.
        - pose proof (path_split_rewrite_key w i (snd (path_split k))
                        (path_split_tail_free k)) as H.
          rewrite <- HT, Hv in H.
          destruct H as [H | H]; [| auto | congruence].
          rewrite <- Hkw. apply path_split_head. }
      rewrite Hwv in Hw, Hw0, HT, Hkw.
      assert (v = var) by congruence.
      assert (v0 = var0) by congruence. subst v v0.
      rewrite Hsame in HT. exists i, fs, k.
      split; [exact Hi |]. split; [| exact HT].
      apply in_keys_chunks_of. split; [exact Hk |]. split; [exact Hkw |].
      exact Hmeta.
  - intros [i [fs [k [Hi [Hk ->]]]]].
    apply in_keys_chunks_of in Hk as [Hin [Hkv Hdoc]].
    unfold keys in Hin. apply in_map_iff in Hin as [[k0 e] [E Hin]].
    simpl in E. subst k0.
    assert (Hend : ends_with_slash variable = false).
    { destruct (path_split_head k) as [H | H]; rewrite Hkv in H;
        congruence. }
    split; [| split].
    + apply (placed_key_in_output seed shared ds ds0 fss out variable
               var var0 i fs k e); auto.
      rewrite Hsame. now apply target_key_some.
    + rewrite path_split_rewrite_key_full;
        auto using path_split_tail_free.
    + unfold is_document.
      rewrite path_split_rewrite_key_full;
        auto using path_split_tail_free.
      apply rewritten_tail_not_document.
Qed.

(** C5, as stated, fails in three ways. The count follows the chunks the
    sources store, not the extent: three sources that each store the
    variable of shape (5,) in a single chunk give three rewritten keys for
    the merged shape (15,), not fifteen. A variable that is itself a
    dimension is passed over by the loop: the stacked dimension [t] has the
    merged shape (15,) and the shape (5,) in a source, and no key of it is
    rewritten. And beside a shared dimension [x], the variable [xv] stored
    in five chunks by each source ends with twenty chunk keys, the five
    keys of the first source being copied as they are with those of [x]. *)
Lemma fifteen_keys_counterexample :
  (exists out,
      merge stacked_seed (stacked_dataset 15) (stacked_dataset 5)
        one_chunk_sources = Ok out
      /\ keys (chunks_of "v" out) = ["v/0.0"; "v/1.0"; "v/2.0"]
      /\ ~ spec_fifteen_keys (stacked_dataset 15) (stacked_dataset 5)
            one_chunk_sources "v" out)
  /\ (merge merged_seed merged_dataset single_dataset three_sources
      = Ok merged_store
      /\ option_map var_shape (sget "t" (ds_variables merged_dataset))
         = Some [15]
      /\ option_map var_shape (sget "t" (ds_variables single_dataset))
         = Some [5]
      /\ In "t/0" (keys (source_store "s3://bucket/1.h5"))
      /\ ~ In (rewrite_key "t" 1 "0") (keys merged_store))
  /\ (exists out,
         merge prefixed_variable_seed (prefixed_variable_dataset 15)
           (prefixed_variable_dataset 5) prefixed_variable_sources = Ok out
         /\ List.length (chunks_of "xv" out) = 20%nat
         /\ ~ spec_fifteen_keys (prefixed_variable_dataset 15)
               (prefixed_variable_dataset 5) prefixed_variable_sources
               "xv" out).
Proof.
  split; [| split].
  - eexists. split; [reflexivity |]. split; [reflexivity |].
    intros H. destruct (H eq_refl eq_refl eq_refl) as [H1 _].
    vm_compute in H1. discriminate.
  - split; [reflexivity |]. split; [reflexivity |]. split; [reflexivity |].
    split; [simpl; tauto |].
    vm_compute. intuition discriminate.
  - eexists. split; [reflexivity |]. split; [reflexivity |].
    intros H. destruct (H eq_refl eq_refl eq_refl) as [H1 _].
    vm_compute in H1. discriminate.
Qed.

(** C5, amended. In [_build_output], for a variable that is not itself a
    dimension and whose merged shape differs from its shape in one source:
    the reference at key [variable/part] of source [i] is stored under
    [variable/i.part], the source index put before the chunk coordinates;
    the value stored there is the one of source [i]; and rewritten keys of
    different sources or of different chunks are different. When moreover
    the keys of the variable are written as zarr writes them (the name, one
    separator, the coordinates), the store is seeded with no chunk of the
    variable and no key of the variable begins with the name of a shared
    dimension, the chunk keys of
    the variable in the result are exactly the rewritten keys, each once:
    as many as the sources store chunks of it, so [n] sources that store it
    in [c] chunks each give [n * c] keys, 15 for three sources and five
    chunks. For a variable that is not a dimension and has the same shape
    merged as in one source, the key is kept as it is. *)
Theorem concatenated_keys_carry_source_index
    seed shared ds ds0 fss out variable var var0 :
  _build_output seed shared ds ds0 fss = Ok out ->
  smem variable (ds_dims ds) = false ->
  sget variable (ds_variables ds) = Some var ->
  sget variable (ds_variables ds0) = Some var0 ->
  (var_shape var <> var_shape var0 ->
   (forall i fs k e,
       nth_error fss i = Some fs -> In (k, e) fs ->
       fst (path_split k) = variable -> is_document k = false ->
       In (rewrite_key variable i (snd (path_split k))) (keys out)
       /\ (all_slashes variable = false ->
           (forall k' e', In (k', e') fs ->
                          path_split k' = path_split k -> e' = e) ->
           sget (rewrite_key variable i (snd (path_split k))) out = Some e)
       /\ (forall j k',
              rewrite_key variable j (snd (path_split k'))
              = rewrite_key variable i (snd (path_split k)) ->
              j = i /\ snd (path_split k') = snd (path_split k)))
   /\ (all_slashes variable = false ->
       NoDup (keys seed) ->
       chunks_of variable seed = [] ->
       clear_of_shared shared variable fss = true ->
       Forall (fun fs => NoDup (keys fs) /\ plain_keys variable fs = true)
         fss ->
       (forall K, In K (keys (chunks_of variable out))
                  <-> In K (rewritten_keys variable fss))
       /\ NoDup (keys (chunks_of variable out))
       /\ List.length (chunks_of variable out) = stored_chunks variable fss
       /\ (forall c,
              (forall fs, In fs fss ->
                          List.length (chunks_of variable fs) = c) ->
              List.length (chunks_of variable out)
              = (List.length fss * c)%nat)))
  /\ (var_shape var = var_shape var0 ->
      forall i fs k e,
        nth_error fss i = Some fs -> In (k, e) fs ->
        fst (path_split k) = variable -> is_document k = false ->
        In k (keys out)).
Proof.
  intros Hout Hdim Hvar Hvar0. split.
  - intros Hshape.
    assert (Hsame : shape_eqb (var_shape var) (var_shape var0) = false)
      by (destruct (shape_eqb_spec (var_shape var) (var_shape var0));
          congruence).
    split.
    + intros i fs k e Hi Hin Hk Hdoc. split; [| split].
      * apply (placed_key_in_output seed shared ds ds0 fss out variable
                 var var0 i fs k e); auto.
        rewrite Hsame. now apply target_key_some.
      * intros Hnorm Huniq.
        apply (rewritten_value_in_output seed shared ds ds0 fss out variable
                 var var0 i fs k e); auto.
      * intros j k' E.
        apply rewrite_key_inj in E; auto using path_split_tail_free. tauto.
    + intros Hnorm Hseed Hnone Hclear Hfss.
      assert (Hiff : forall K, In K (keys (chunks_of variable out))
                               <-> In K (rewritten_keys variable fss)).
      { intros K.
        apply (stacked_chunk_keys seed shared ds ds0 fss out variable
                 var var0 K); auto. }
      assert (Hnd : NoDup (keys (chunks_of variable out))).
      { unfold chunks_of. apply NoDup_keys_filter.
        eapply NoDup_build_output; eauto. }
      assert (Hlen : List.length (chunks_of variable out)
                     = stored_chunks variable fss).
      { rewrite <- length_rewritten_keys.
        rewrite <- (length_map fst (chunks_of variable out)).
        fold (keys (chunks_of variable out)).
        apply Nat.le_antisymm; apply NoDup_incl_length; auto.
        - intros K HK. now apply Hiff.
        - now apply NoDup_rewritten_keys.
        - intros K HK. now apply Hiff. }
      split; [exact Hiff |]. split; [exact Hnd |]. split; [exact Hlen |].
      intros c Hc. rewrite Hlen. now apply stored_chunks_uniform.
  - intros Hshape i fs k e Hi Hin Hk Hdoc.
    assert (Hsame : shape_eqb (var_shape var) (var_shape var0) = true)
      by (destruct (shape_eqb_spec (var_shape var) (var_shape var0));
          congruence).
    apply (placed_key_in_output seed shared ds ds0 fss out variable
             var var0 i fs k e); auto.
    rewrite Hsame. now apply target_key_some.
Qed.

Lemma concatenated_keys_carry_source_index_witness :
  _build_output merged_seed ["x"] merged_dataset single_dataset three_sources
  = Ok merged_store
  /\ sget "v/1.3" merged_store = Some (Ref "s3://bucket/1.h5" 160 8)
  /\ List.length (chunks_of "v" merged_store) = 15%nat
  /\ NoDup (keys (chunks_of "v" merged_store)).
Proof.
  split; [reflexivity |].
  assert (Hshape : [15] <> [5]) by discriminate.
  destruct (concatenated_keys_carry_source_index
              merged_seed ["x"] merged_dataset single_dataset three_sources
              merged_store "v" {| var_dims := ["t"]; var_shape := [15] |}
              {| var_dims := ["t"]; var_shape := [5] |}
              eq_refl eq_refl eq_refl eq_refl) as [Hdiff _].
  destruct (Hdiff Hshape) as [Hkeys Hcount].
  split.
  - assert (Hin : In ("v/3", Ref "s3://bucket/1.h5" 160 8)
                    (source_store "s3://bucket/1.h5")).
    { simpl. do 9 right. now left. }
    destruct (Hkeys 1%nat (source_store "s3://bucket/1.h5") "v/3"
                (Ref "s3://bucket/1.h5" 160 8) eq_refl Hin eq_refl eq_refl)
      as [_ [Hval _]].
    apply Hval; [reflexivity |].
    intros k' e' Hin' Hsplit. simpl in Hin'.
    repeat (destruct Hin' as [Hin' | Hin'];
            [injection Hin' as <- <-; try reflexivity;
             vm_compute in Hsplit; discriminate |]).
    destruct Hin'.
  - assert (Hseed : NoDup (keys merged_seed)).
    { repeat constructor; simpl; intuition discriminate. }
    assert (Hfss : Forall (fun fs => NoDup (keys fs)
                                     /\ plain_keys "v" fs = true)
                     three_sources).
    { repeat constructor; simpl; intuition discriminate. }
    destruct (Hcount eq_refl Hseed eq_refl eq_refl Hfss)
      as [_ [Hnd [_ Hn]]].
    split; [| exact Hnd].
    apply (Hn 5%nat). intros fs [<- | [<- | [<- | []]]]; reflexivity.
Defined.

(** ** C6: templates *)

(** C6, as stated, fails in four ways. With the default count of 5 and
    inline threshold of 100, an identifier named by six references of 50
    bytes enters the templates table and none of the six entries carries
    the placeholder: all are replaced by their inline value. An identifier
    seen after one that is named once does not receive the next available
    symbol: the letter of the skipped position is not used. One identifier
    named six times and seen after 52 others, each named once, makes the
    pass raise IndexError, and so does an empty inline text beside six
    references: nothing is assigned. *)
Lemma templated_counterexample :
  (exists r,
      _consolidate sample_cat (six_refs 50) 100 5 = Ok r
      /\ occurrences "s3://bucket/a.h5" (six_refs 50) = 6
      /\ ~ spec_templated (six_refs 50) 5 r)
  /\ (exists out,
         _consolidate sample_cat gapped_refs 100 5
         = Ok (Version1 1 [("b", "s3://bucket/b.h5")] out)
         /\ templated_urls gapped_refs 5 = ["s3://bucket/b.h5"]
         /\ ~ spec_next_symbol gapped_refs 5 [("b", "s3://bucket/b.h5")])
  /\ (templated_urls late_refs 5 = ["s3://bucket/late.h5"]
      /\ _consolidate sample_cat late_refs 100 5 = Raise IndexError)
  /\ (occurrences "s3://bucket/a.h5" refs_and_empty_text = 6
      /\ _consolidate sample_cat refs_and_empty_text 100 5
         = Raise IndexError).
Proof.
  split; [| split; [| split]].
  - eexists. split; [reflexivity |]. split; [reflexivity |].
    intros H. destruct (H "s3://bucket/a.h5") as [sym [_ [_ H3]]].
    + reflexivity.
    + specialize (H3 "v/0" 0 50 (or_introl eq_refl)).
      vm_compute in H3. discriminate.
  - eexists. split; [reflexivity |]. split; [reflexivity |].
    intros H. destruct (H 0%nat "s3://bucket/b.h5" eq_refl) as [sym [Hs Hin]].
    vm_compute in Hs. injection Hs as <-.
    destruct Hin as [Hin | []]. discriminate.
  - split; vm_compute; reflexivity.
  - split; vm_compute; reflexivity.
Qed.

(** *** The pass returns *)

Lemma first_seen_position mapping i u :
  (List.length (first_seen (ref_urls mapping)) <= 52)%nat ->
  nth_error (first_seen (ref_urls mapping)) i = Some u -> (i < 52)%nat.
Proof.
  intros Hlen Hi.
  assert (H : nth_error (first_seen (ref_urls mapping)) i <> None)
    by congruence.
  apply nth_error_Some in H. lia.
Qed.

Lemma consolidate_runs cat mapping thr tc :
  (List.length (first_seen (ref_urls mapping)) <= 52)%nat ->
  (forall k s, In (k, Str s) mapping -> text_passes mapping tc s) ->
  exists tpl out,
    make_templates (count_urls mapping) tc = Ok tpl
    /\ for_each (consolidate_step cat thr (invert tpl)) mapping [] = Ok out.
Proof.
  intros Hlen Htext.
  destruct (proj2 (make_templates_ok_iff mapping tc)) as [tpl Et].
  { intros i u Hi _. eapply first_seen_position; eauto. }
  exists tpl.
  destruct (templates_of_mapping _ _ _ Et) as [Hvals Htpl].
  destruct (for_each_total (consolidate_step cat thr (invert tpl)) mapping [])
    as [out Ho]; [| eauto].
  intros a [k v] Hin. unfold consolidate_step. cbn [fst snd].
  destruct (proj2 (consolidate_entry_ok_iff cat thr (invert tpl) v))
    as [v' ->]; [| simpl; eauto].
  intros s ->. destruct (Htext k s Hin) as [c [rest [-> Hnt]]].
  exists c, rest. split; auto.
  apply smem_sget_none. apply sget_invert_none; auto.
  intros Hex. apply Hnt. now apply Htpl.
Qed.

(** *** The rows of the templates table *)

Lemma nth_error_enumerate {A : Type} (l : list A) i :
  nth_error (enumerate l) i = option_map (pair i) (nth_error l i).
Proof.
  unfold enumerate.
  assert (G : forall a j,
             nth_error (combine (seq a (List.length l)) l) j
             = option_map (pair (a + j)%nat) (nth_error l j)).
  { induction l as [| x l IH]; intros a j; simpl.
    - now destruct j.
    - destruct j as [| j]; simpl.
      + now rewrite Nat.add_0_r.
      + rewrite IH. now rewrite Nat.add_succ_r. }
  apply (G 0%nat i).
Qed.

Lemma template_entries_urls mapping tc (ics : list (nat * (string * Z))) :
  (forall i u c, In (i, (u, c)) ics ->
                 (i < 52)%nat /\ c = occurrences u mapping) ->
  map snd (template_entries tc ics)
  = filter (fun u => tc <? occurrences u mapping)
      (map (fun iuv => fst (snd iuv)) ics).
Proof.
  unfold template_entries.
  induction ics as [| [i [u c]] ics IH]; intros H; [reflexivity |].
  cbn [flat_map map filter fst snd]. rewrite map_app.
  rewrite IH by (intros j u' c' Hin; apply H; now right).
  destruct (H i u c (or_introl eq_refl)) as [Hi ->].
  destruct (tc <? occurrences u mapping); [| reflexivity].
  unfold symbol_at. destruct (ascii_letters_get i Hi) as [x ->].
  reflexivity.
Qed.

Lemma templates_in_order mapping tc tpl :
  (List.length (first_seen (ref_urls mapping)) <= 52)%nat ->
  make_templates (count_urls mapping) tc = Ok tpl ->
  map snd tpl = templated_urls mapping tc.
Proof.
  intros Hlen Et. rewrite (make_templates_spec _ _ _ Et).
  rewrite (template_entries_urls mapping).
  - unfold templated_urls. f_equal.
    rewrite <- (map_map snd fst), map_snd_enumerate.
    apply count_urls_keys.
  - intros i u c Hin. apply in_enumerate in Hin.
    apply counts_position in Hin as [Hi Hc]. split; auto.
    eapply first_seen_position; eauto.
Qed.

Lemma template_entries_row tc (ics : list (nat * (string * Z))) :
  forall i j u c sym,
    (forall m iuv, (m <= i)%nat -> nth_error ics m = Some iuv ->
                   tc < snd (snd iuv)
                   /\ exists s, symbol_at (fst iuv) = Some s) ->
    nth_error ics i = Some (j, (u, c)) ->
    symbol_at j = Some sym ->
    nth_error (template_entries tc ics) i = Some (sym, u).
Proof.
  unfold template_entries.
  induction ics as [| [j0 [u0 c0]] ics IH]; intros i j u c sym Hall Hi Hs.
  - destruct i; discriminate.
  - cbn [flat_map fst snd].
    destruct (Hall 0%nat (j0, (u0, c0)) (Nat.le_0_l i) eq_refl)
      as [Hlt [s0 Hs0]].
    cbn [fst snd] in Hlt, Hs0. apply Z.ltb_lt in Hlt. rewrite Hlt, Hs0.
    destruct i as [| i].
    + simpl in Hi. injection Hi as -> -> ->. simpl. congruence.
    + simpl. apply (IH i j u c sym); auto.
      intros m iuv Hm Hn. apply (Hall (S m)); [lia | exact Hn].
Qed.

Lemma template_symbol_short tc ics sym u :
  In (sym, u) (template_entries tc ics) -> String.length sym = 1%nat.
Proof.
  intros H. apply in_template_entries in H as [i [c [_ [_ Hs]]]].
  unfold symbol_at in Hs.
  destruct (String.get i ascii_letters); [| discriminate].
  now injection Hs as <-.
Qed.

(** C6, amended. For a mapping that names at most 52 distinct source
    identifiers, and whose inline texts are not empty and do not begin with
    a character that is itself a templated identifier, the deduplication
    pass returns and: every distinct source identifier occurring in more
    than threshold-many remote-reference entries, and no other, is assigned
    a short symbol, a single letter; distinct identifiers receive distinct
    symbols, and the templates table lists them in first-seen order, each
    exactly once; as long as every identifier seen so far is templated, the
    first-seen distinct identifier receives the next available letter; and
    every remote reference naming such an identifier has its first element
    rewritten to the placeholder when its length is not below the inline
    threshold, and is replaced by its inline value when it is. *)
Theorem consolidate_templates cat mapping thr tc :
  NoDup (keys mapping) ->
  (List.length (first_seen (ref_urls mapping)) <= 52)%nat ->
  (forall k s, In (k, Str s) mapping -> text_passes mapping tc s) ->
  exists templates out,
    _consolidate cat mapping thr tc = Ok (Version1 1 templates out)
    /\ (forall u, In u (ref_urls mapping) -> tc < occurrences u mapping ->
                  exists sym, In (sym, u) templates)
    /\ (forall sym u, In (sym, u) templates ->
                      In u (ref_urls mapping) /\ tc < occurrences u mapping
                      /\ String.length sym = 1%nat)
    /\ map snd templates = templated_urls mapping tc
    /\ NoDup (map snd templates)
    /\ NoDup (keys templates)
    /\ (forall i u,
           nth_error (first_seen (ref_urls mapping)) i = Some u ->
           (forall j u', (j <= i)%nat ->
                         nth_error (first_seen (ref_urls mapping)) j = Some u' ->
                         tc < occurrences u' mapping) ->
           exists sym, symbol_at i = Some sym
                       /\ nth_error templates i = Some (sym, u))
    /\ (forall k u off size sym,
           In (k, Ref u off size) mapping -> In (sym, u) templates ->
           sget k out
           = Some (if size <? thr
                   then Str (inline_encode (cat u off (off + size)))
                   else Ref (placeholder sym) off size)).
Proof.
  intros Hnd Hlen Htext.
  destruct (consolidate_runs cat mapping thr tc Hlen Htext)
    as [tpl [out [Et Eo]]].
  exists tpl, out.
  destruct (templates_of_mapping _ _ _ Et) as [Hvals Htpl].
  pose proof (make_templates_spec _ _ _ Et) as Hspec.
  split; [| split; [| split; [| split; [| split; [| split; [| split]]]]]].
  - unfold _consolidate. rewrite Et. cbn [bind]. rewrite Eo. reflexivity.
  - intros u Hin Hlt. apply Htpl. split; auto.
  - intros sym u Hin.
    destruct (proj1 (Htpl u) (ex_intro _ sym Hin)) as [H1 H2].
    repeat split; auto.
    rewrite Hspec in Hin. eapply template_symbol_short; eauto.
  - now apply templates_in_order.
  - exact Hvals.
  - rewrite Hspec. apply template_entries_keys.
    rewrite map_fst_enumerate. apply seq_NoDup.
  - intros i u Hi Hall.
    destruct (ascii_letters_get i (first_seen_position _ _ _ Hlen Hi))
      as [x Hx].
    exists (String x ""). split; [unfold symbol_at; now rewrite Hx |].
    rewrite Hspec.
    apply (template_entries_row tc _ i i u (occurrences u mapping)).
    + intros m [j [u' c']] Hm Hn. cbn [fst snd].
      rewrite nth_error_enumerate in Hn.
      destruct (nth_error (count_urls mapping) m) as [[u2 c2] |] eqn:Ec;
        [| discriminate].
      injection Hn as <- <- <-.
      apply counts_position in Ec as [Hu2 ->]. split; [eauto |].
      destruct (ascii_letters_get m (first_seen_position _ _ _ Hlen Hu2))
        as [y Hy].
      exists (String y ""). unfold symbol_at. now rewrite Hy.
    + rewrite nth_error_enumerate, (count_urls_nth _ _ _ Hi). reflexivity.
    + unfold symbol_at. now rewrite Hx.
  - intros k u off size sym Hin Hsym.
    destruct (consolidate_loop _ _ _ _ _ _ _ Eo Hnd Hin) as [v' [Hv' ->]].
    f_equal. unfold consolidate_entry in Hv'.
    destruct (size <? thr); [now injection Hv' |].
    assert (Hinv : sget u (invert tpl) = Some sym).
    { rewrite invert_spec by assumption. apply in_sget.
      - unfold keys. rewrite map_map. exact Hvals.
      - apply in_map_iff. exists (sym, u). auto. }
    rewrite Hinv in Hv'. now injection Hv'.
Qed.

Lemma consolidate_templates_witness :
  exists out,
    _consolidate sample_cat (six_refs 500) 100 5
    = Ok (Version1 1 [("a", "s3://bucket/a.h5")] out)
    /\ forall k off size,
         In (k, Ref "s3://bucket/a.h5" off size) (six_refs 500) ->
         sget k out = Some (Ref "{{a}}" off size).
Proof.
  assert (Hnd : NoDup (keys (six_refs 500))).
  { repeat constructor; simpl; intuition discriminate. }
  assert (Hlen : (List.length (first_seen (ref_urls (six_refs 500))) <= 52)%nat)
    by (vm_compute; lia).
  assert (Htext : forall k s, In (k, Str s) (six_refs 500) ->
                              text_passes (six_refs 500) 5 s).
  { intros k s Hin. simpl in Hin. intuition discriminate. }
  destruct (consolidate_templates sample_cat (six_refs 500) 100 5
              Hnd Hlen Htext)
    as [templates [out [Hr [_ [_ [_ [_ [_ [Hrow Hrefs]]]]]]]]].
  destruct (Hrow 0%nat "s3://bucket/a.h5" eq_refl) as [sym [Hs Hrow0]].
  { intros j u' Hj Hu'. destruct j; [| lia].
    injection Hu' as <-. vm_compute. reflexivity. }
  vm_compute in Hs. injection Hs as <-.
  assert (Ht : templates = [("a", "s3://bucket/a.h5")]).
  { vm_compute in Hr. now injection Hr. }
  exists out. subst templates. split; [exact Hr |].
  intros k off size Hin.
  rewrite (Hrefs k "s3://bucket/a.h5" off size "a" Hin (or_introl eq_refl)).
  assert (Hsize : size = 500).
  { simpl in Hin.
    repeat (destruct Hin as [Hin | Hin]; [now injection Hin |]).
    destruct Hin. }
  subst size. reflexivity.
Defined.
